(** * Ric Pac Soe: the room and rules engine of the game server

    A shallow embedding of the latest revision of the server
    (src/unnamed/part_002, second document): the board helpers, the three
    scoring passes (misplacement, elimination, three in a row) and the
    socket handlers that act on one room.  Each handler is a function from
    the room it finds in the registry to a [Result]. *)

From Stdlib Require Import ZArith Lia Ascii String.
From stdpp Require Import base list strings gmap pretty.

Local Open Scope Z_scope.

(** ** Numbers

    The numbers stored in a room are integers, [NaN] (from [parseInt] on a
    value that does not start with digits, and from [undefined + n]) or
    [-Infinity] (what [Math.max()] gives for no argument). *)

Inductive num : Type :=
  | NaN
  | NegInf
  | Int (z : Z).

Global Instance num_eq_dec : EqDecision num.
Proof. solve_decision. Defined.

(** [a + b] *)
Definition num_add (a b : num) : num :=
  match a, b with
  | Int x, Int y => Int (x + y)
  | NaN, _ | _, NaN => NaN
  | NegInf, _ | _, NegInf => NegInf
  end.

(** [a <= b] *)
Definition num_leb (a b : num) : bool :=
  match a, b with
  | Int x, Int y => x <=? y
  | NaN, _ | _, NaN => false
  | NegInf, _ => true
  | Int _, NegInf => false
  end.

(** [a >= b] and [a > b] *)
Definition num_geb (a b : num) : bool := num_leb b a.
Definition num_gtb (a b : num) : bool :=
  match a, b with
  | Int x, Int y => y <? x
  | NaN, _ | _, NaN => false
  | NegInf, _ => false
  | Int _, NegInf => true
  end.

(** [a === b] on numbers: [NaN] equals nothing. *)
Definition num_eqb (a b : num) : bool :=
  match a, b with
  | Int x, Int y => x =? y
  | NegInf, NegInf => true
  | _, _ => false
  end.

(** [Math.min(a, b)] and [Math.max(a, b)]. *)
Definition Math_min (a b : num) : num :=
  match a, b with
  | NaN, _ | _, NaN => NaN
  | NegInf, _ | _, NegInf => NegInf
  | Int x, Int y => Int (Z.min x y)
  end.

Definition Math_max (a b : num) : num :=
  match a, b with
  | NaN, _ | _, NaN => NaN
  | NegInf, x | x, NegInf => x
  | Int x, Int y => Int (Z.max x y)
  end.

(** ** Symbols and cells *)

(** The keys ['R'], ['P'], ['S'] of [SYMBOLS]. *)
Inductive Sym : Type := Rock | Paper | Scissors.

Global Instance Sym_eq_dec : EqDecision Sym.
Proof. solve_decision. Defined.

(** [WEAK_TO = { S: 'R', P: 'S', R: 'P' }]: defender symbol to the attacker
    symbol that beats it. *)
Definition WEAK_TO (s : Sym) : Sym :=
  match s with
  | Scissors => Rock
  | Paper => Scissors
  | Rock => Paper
  end.

(** A board cell: [null], [{ type: 'BLOCKER' }] or [{ player, sym }]. *)
Inductive Cell : Type :=
  | Empty
  | Blocker
  | Piece (player : nat) (sym : Sym).

Global Instance Cell_eq_dec : EqDecision Cell.
Proof. solve_decision. Defined.

Abbreviation Pos := (Z * Z)%type.
Abbreviation Board := (list (list Cell)).

Definition BOARD_SIZE : Z := 8.

(** [createEmptyBoard] *)
Definition createEmptyBoard : Board :=
  replicate (Z.to_nat BOARD_SIZE) (replicate (Z.to_nat BOARD_SIZE) Empty).

(** [inBounds] *)
Definition inBounds (r c : Z) : bool :=
  (0 <=? r) && (r <? BOARD_SIZE) && (0 <=? c) && (c <? BOARD_SIZE).

(** [board[r][c]]; the source reads a cell only after [inBounds]. *)
Definition cellAt (board : Board) (r c : Z) : Cell :=
  match board !! Z.to_nat r with
  | Some row => default Empty (row !! Z.to_nat c)
  | None => Empty
  end.

(** [board[r][c] = v] *)
Definition setCell (board : Board) (r c : Z) (v : Cell) : Board :=
  alter (fun row => <[Z.to_nat c := v]> row) (Z.to_nat r) board.

(** The shape every board of the server has: 8 rows of 8 cells. *)
Definition board_ok (board : Board) : Prop :=
  length board = Z.to_nat BOARD_SIZE /\
  Forall (fun row => length row = Z.to_nat BOARD_SIZE) board.

(** [sameOwnerSym]; [ref] is the placed piece. *)
Definition sameOwnerSym (board : Board) (r c : Z) (ref : nat * Sym) : bool :=
  match cellAt board r c with
  | Piece p s => bool_decide (p = ref.1) && bool_decide (s = ref.2)
  | _ => false
  end.

(** [boardFull] *)
Definition boardFull (board : Board) : bool :=
  forallb (forallb (fun v => negb (bool_decide (v = Empty)))) board.

(** The four line directions, as [[dr, dc]]. *)
Definition deltas : list (Z * Z) := [(0, 1); (1, 0); (1, 1); (1, -1)].

(** A highlight [{ cells: [...], by: <playerIdx> }]. *)
Record Highlight : Type := mkHighlight { cells : list Pos; by_ : nat }.

Global Instance Highlight_eq_dec : EqDecision Highlight.
Proof. solve_decision. Defined.

(** ** Elimination *)

Module Elim.

(** What [resolveEliminationsFrom] mutates as it runs: the board, the list
    of highlights and the counter [removed]. *)
Record St : Type := mkSt { board : Board; highlights : list Highlight; removed : Z }.

(** The closure [tryEliminate(rr, cc)], adding its result to [removed]. *)
Definition tryEliminate (placed : nat * Sym) (byPlayerIdx : nat)
    (rr cc : Z) (st : St) : St :=
  if negb (inBounds rr cc) then st
  else match cellAt (board st) rr cc with
       | Piece p s =>
           if bool_decide (p = placed.1) then st
           else if bool_decide (WEAK_TO s = placed.2) then
             {| board := setCell (board st) rr cc Empty;
                highlights := highlights st ++ [mkHighlight [(rr, cc)] byPlayerIdx];
                removed := removed st + 1 |}
           else st
       | _ => st
       end.

(** The backward loop: cells are put at the front of [line]. *)
Fixpoint backward (fuel : nat) (b : Board) (placed : nat * Sym)
    (dr dc br bc : Z) (line : list Pos) : list Pos :=
  match fuel with
  | O => line
  | S fuel' =>
      if inBounds br bc && sameOwnerSym b br bc placed
      then backward fuel' b placed dr dc (br - dr) (bc - dc) ((br, bc) :: line)
      else line
  end.

(** The forward loop: cells are pushed at the end of [line]. *)
Fixpoint forward (fuel : nat) (b : Board) (placed : nat * Sym)
    (dr dc fr fc : Z) (line : list Pos) : list Pos :=
  match fuel with
  | O => line
  | S fuel' =>
      if inBounds fr fc && sameOwnerSym b fr fc placed
      then forward fuel' b placed dr dc (fr + dr) (fc + dc) (line ++ [(fr, fc)])
      else line
  end.

(** The loop over [i]: the first adjacent pair of [line] that contains
    [(r, c)] triggers the two attempts, then [break]. *)
Fixpoint pairScan (placed : nat * Sym) (byPlayerIdx : nat) (r c dr dc : Z)
    (line : list Pos) (st : St) : St :=
  match line with
  | a :: (b :: _) as rest =>
      let includesNew :=
        (bool_decide (a.1 = r) && bool_decide (a.2 = c))
        || (bool_decide (b.1 = r) && bool_decide (b.2 = c)) in
      if includesNew
      then tryEliminate placed byPlayerIdx (b.1 + dr) (b.2 + dc)
             (tryEliminate placed byPlayerIdx (a.1 - dr) (a.2 - dc) st)
      else pairScan placed byPlayerIdx r c dr dc rest st
  | _ => st
  end.

(** A run on the board has at most [BOARD_SIZE] cells, so each [while]
    loop leaves through its condition within [BOARD_SIZE] rounds (see
    [backward_more_fuel] and [forward_more_fuel]). *)
Definition fuel : nat := Z.to_nat BOARD_SIZE.

(** One round of [for (const [dr, dc] of deltas)]. *)
Definition direction (placed : nat * Sym) (byPlayerIdx : nat) (r c : Z)
    (st : St) (d : Z * Z) : St :=
  let '(dr, dc) := d in
  let line := backward fuel (board st) placed dr dc (r - dr) (c - dc) [(r, c)] in
  let line := forward fuel (board st) placed dr dc (r + dr) (c + dc) line in
  pairScan placed byPlayerIdx r c dr dc line st.

(** [resolveEliminationsFrom(board, r, c, byPlayerIdx)]; the mutated board
    is returned with [{ removed, highlights }]. *)
Definition resolveEliminationsFrom (b : Board) (r c : Z) (byPlayerIdx : nat) : St :=
  match cellAt b r c with
  | Piece p s => foldl (direction (p, s) byPlayerIdx r c) (mkSt b [] 0) deltas
  | _ => mkSt b [] 0
  end.

End Elim.

(** ** Three in a row *)

Module Tri.

Record Out : Type := mkOut { points : Z; highlights : list Highlight }.

(** [board[br][bc] && !board[br][bc].type] *)
Definition isPiece (v : Cell) : bool :=
  match v with Piece _ _ => true | _ => false end.

Fixpoint backward (fuel : nat) (b : Board) (player : nat) (sym : Sym)
    (dr dc br bc : Z) (seg : list Pos) : list Pos :=
  match fuel with
  | O => seg
  | S fuel' =>
      if inBounds br bc && isPiece (cellAt b br bc) then
        match cellAt b br bc with
        | Piece tp ts =>
            if bool_decide (tp = player) && bool_decide (ts = sym)
            then backward fuel' b player sym dr dc (br - dr) (bc - dc) ((br, bc) :: seg)
            else seg
        | _ => seg
        end
      else seg
  end.

Fixpoint forward (fuel : nat) (b : Board) (player : nat) (sym : Sym)
    (dr dc fr fc : Z) (seg : list Pos) : list Pos :=
  match fuel with
  | O => seg
  | S fuel' =>
      if inBounds fr fc && isPiece (cellAt b fr fc) then
        match cellAt b fr fc with
        | Piece tp ts =>
            if bool_decide (tp = player) && bool_decide (ts = sym)
            then forward fuel' b player sym dr dc (fr + dr) (fc + dc) (seg ++ [(fr, fc)])
            else seg
        | _ => seg
        end
      else seg
  end.

Definition fuel : nat := Z.to_nat BOARD_SIZE.

(** The segment collected for one direction. *)
Definition segment (b : Board) (player : nat) (sym : Sym) (r c : Z) (d : Z * Z) : list Pos :=
  let '(dr, dc) := d in
  let seg := backward fuel b player sym dr dc (r - dr) (c - dc) [(r, c)] in
  forward fuel b player sym dr dc (r + dr) (c + dc) seg.

(** [seg.findIndex((p) => p.r === r && p.c === c)], [-1] when absent. *)
Definition findIndex (seg : list Pos) (r c : Z) : Z :=
  match list_find (fun p : Pos => p = (r, c)) seg with
  | Some (i, _) => Z.of_nat i
  | None => -1
  end.

(** One round of the loop over [deltas]; [triple] is
    [[seg[start], seg[start + 1], seg[start + 2]]], three cells that exist
    because [0 <= start <= seg.length - 3]. *)
Definition direction (b : Board) (player : nat) (sym : Sym) (byPlayerIdx : nat)
    (r c : Z) (out : Out) (d : Z * Z) : Out :=
  let seg := segment b player sym r c d in
  if 3 <=? Z.of_nat (length seg) then
    let idx := findIndex seg r c in
    let start := Z.max 0 (Z.min (idx - 1) (Z.of_nat (length seg) - 3)) in
    let triple := take 3 (drop (Z.to_nat start) seg) in
    {| points := points out + 1;
       highlights := highlights out ++ [mkHighlight triple byPlayerIdx] |}
  else out.

(** [scoreThreeInRow(board, r, c, byPlayerIdx)] *)
Definition scoreThreeInRow (b : Board) (r c : Z) (byPlayerIdx : nat) : Out :=
  match cellAt b r c with
  | Piece player sym => foldl (direction b player sym byPlayerIdx r c) (mkOut 0 []) deltas
  | _ => mkOut 0 []
  end.

End Tri.

(** ** Misplacement *)

Module Mis.

(** [{ ...pos, ...t }]: a window cell together with the piece on it. *)
Record Tile : Type := mkTile { tr : Z; tc : Z; tplayer : nat; tsym : Sym }.

(** An entry [{ player, points }] of [awarded]. *)
Record Award : Type := mkAward { player : nat; points : Z }.

Record Out : Type := mkOut { awarded : list Award; highlights : list Highlight }.

(** The three windows of one direction, in the order of the source. *)
Definition windows (r c dr dc : Z) : list (list Pos) :=
  [ [(r - 2 * dr, c - 2 * dc); (r - 1 * dr, c - 1 * dc); (r, c)];
    [(r - 1 * dr, c - 1 * dc); (r, c); (r + 1 * dr, c + 1 * dc)];
    [(r, c); (r + 1 * dr, c + 1 * dc); (r + 2 * dr, c + 2 * dc)] ].

(** The loop [for (const pos of win)]: [None] is [ok = false]. *)
Fixpoint tilesOf (b : Board) (win : list Pos) : option (list Tile) :=
  match win with
  | [] => Some []
  | (pr, pc) :: rest =>
      if negb (inBounds pr pc) then None
      else match cellAt b pr pc with
           | Piece p s => cons (mkTile pr pc p s) <$> tilesOf b rest
           | _ => None
           end
  end.

Definition isNew (r c : Z) (t : Tile) : bool :=
  bool_decide (tr t = r) && bool_decide (tc t = c).

(** The body of the loop over [windows] after the [directionAwarded]
    test: the opponent this window awards, if it qualifies. *)
Definition windowAward (b : Board) (r c : Z) (pPlayer : nat)
    (opponentStrongSym : Sym) (win : list Pos) : option nat :=
  match tilesOf b win with
  | None => None
  | Some tiles =>
      if negb (existsb (isNew r c) tiles) then None
      else
        let others := filter (fun t => negb (isNew r c t)) tiles in
        match others with
        | [o0; o1] =>
            let bothStronger :=
              forallb (fun t => bool_decide (tsym t = opponentStrongSym)) others
              && forallb (fun t => negb (bool_decide (tplayer t = pPlayer))) others in
            let sameOpponentOwner :=
              bothStronger && bool_decide (tplayer o0 = tplayer o1) in
            if bothStronger && sameOpponentOwner then Some (tplayer o0) else None
        | _ => None
        end
  end.

(** The loop over [windows] with its flag [directionAwarded]. *)
Fixpoint scanWindows (b : Board) (r c : Z) (pPlayer : nat) (strong : Sym)
    (wins : list (list Pos)) (directionAwarded : bool) (out : Out) : Out :=
  match wins with
  | [] => out
  | win :: rest =>
      if directionAwarded then out
      else match windowAward b r c pPlayer strong win with
           | Some opp =>
               scanWindows b r c pPlayer strong rest true
                 {| awarded := awarded out ++ [mkAward opp 1];
                    highlights := highlights out ++ [mkHighlight win opp] |}
           | None => scanWindows b r c pPlayer strong rest false out
           end
  end.

Definition direction (b : Board) (r c : Z) (pPlayer : nat) (strong : Sym)
    (out : Out) (d : Z * Z) : Out :=
  scanWindows b r c pPlayer strong (windows r c d.1 d.2) false out.

(** [scoreMisplacement(board, r, c)] *)
Definition scoreMisplacement (b : Board) (r c : Z) : Out :=
  match cellAt b r c with
  | Piece pPlayer pSym =>
      foldl (direction b r c pPlayer (WEAK_TO pSym)) (mkOut [] []) deltas
  | _ => mkOut [] []
  end.

End Mis.

(** ** Rooms *)

Record Settings : Type := mkSettings {
  tilesPerSymbol : num;
  blockers : num;
  pointsToWin : num
}.

(** An entry [{ socketId, name }] of [players] or [spectators]. *)
Record Player : Type := mkPlayer { socketId : string; name : string }.

(** An entry [{ R, P, S }] of [stock]. *)
Record Stock : Type := mkStock { stockR : num; stockP : num; stockS : num }.

Definition stockGet (s : Sym) (st : Stock) : num :=
  match s with Rock => stockR st | Paper => stockP st | Scissors => stockS st end.

Definition stockSet (s : Sym) (v : num) (st : Stock) : Stock :=
  match s with
  | Rock => mkStock v (stockP st) (stockS st)
  | Paper => mkStock (stockR st) v (stockS st)
  | Scissors => mkStock (stockR st) (stockP st) v
  end.

(** An entry [{ index, label, score }] of [winners]. *)
Record Winner : Type := mkWinner { index : nat; label : string; score : num }.

(** [room.message].  The template strings of the source are kept as
    constructors that hold the values spliced into them:
    - [MsgWinsByPoints name n]: [`${name} wins by reaching ${n} points!`]
    - [MsgTilesWin name label score]:
      [`Game over — ${name} used all tiles. ${label} wins with ${score} points!`]
    - [MsgTilesTie name labels score]:
      [`Game over — ${name} used all tiles. Tie between ${labels} (score ${score}).`]
    - [MsgFullWin label score]: [`${label} wins with ${score} points (board full).`]
    - [MsgFullTie labels score]: [`Board full. Tie between ${labels} (score ${score}).`] *)
Inductive Message : Type :=
  | MsgNone
  | MsgNewGame
  | MsgLeft
  | MsgWinsByPoints (name : string) (target : num)
  | MsgTilesWin (name : string) (label : string) (score : num)
  | MsgTilesTie (name : string) (labels : list string) (score : num)
  | MsgFullWin (label : string) (score : num)
  | MsgFullTie (labels : list string) (score : num).

(** A room of the registry.  The fields [id], [updatedAt] and [chat] play
    no part in the rules and are left out.  [scores] is a JavaScript array
    that a write past its end extends: [None] is a hole. *)
Record Room : Type := mkRoom {
  settings : Settings;
  players : list Player;
  spectators : list Player;
  turn : nat;
  lastPlayed : gmap nat Sym;
  scores : list (option num);
  stock : list Stock;
  board : Board;
  gameOver : bool;
  message : Message;
  started : bool;
  highlights : list Highlight
}.

Definition set_settings (v : Settings) (x : Room) : Room :=
  mkRoom v (players x) (spectators x) (turn x) (lastPlayed x) (scores x) (stock x)
    (board x) (gameOver x) (message x) (started x) (highlights x).
Definition set_players (v : list Player) (x : Room) : Room :=
  mkRoom (settings x) v (spectators x) (turn x) (lastPlayed x) (scores x) (stock x)
    (board x) (gameOver x) (message x) (started x) (highlights x).
Definition set_spectators (v : list Player) (x : Room) : Room :=
  mkRoom (settings x) (players x) v (turn x) (lastPlayed x) (scores x) (stock x)
    (board x) (gameOver x) (message x) (started x) (highlights x).
Definition set_turn (v : nat) (x : Room) : Room :=
  mkRoom (settings x) (players x) (spectators x) v (lastPlayed x) (scores x) (stock x)
    (board x) (gameOver x) (message x) (started x) (highlights x).
Definition set_lastPlayed (v : gmap nat Sym) (x : Room) : Room :=
  mkRoom (settings x) (players x) (spectators x) (turn x) v (scores x) (stock x)
    (board x) (gameOver x) (message x) (started x) (highlights x).
Definition set_scores (v : list (option num)) (x : Room) : Room :=
  mkRoom (settings x) (players x) (spectators x) (turn x) (lastPlayed x) v (stock x)
    (board x) (gameOver x) (message x) (started x) (highlights x).
Definition set_stock (v : list Stock) (x : Room) : Room :=
  mkRoom (settings x) (players x) (spectators x) (turn x) (lastPlayed x) (scores x) v
    (board x) (gameOver x) (message x) (started x) (highlights x).
Definition set_board (v : Board) (x : Room) : Room :=
  mkRoom (settings x) (players x) (spectators x) (turn x) (lastPlayed x) (scores x)
    (stock x) v (gameOver x) (message x) (started x) (highlights x).
Definition set_gameOver (v : bool) (x : Room) : Room :=
  mkRoom (settings x) (players x) (spectators x) (turn x) (lastPlayed x) (scores x)
    (stock x) (board x) v (message x) (started x) (highlights x).
Definition set_message (v : Message) (x : Room) : Room :=
  mkRoom (settings x) (players x) (spectators x) (turn x) (lastPlayed x) (scores x)
    (stock x) (board x) (gameOver x) v (started x) (highlights x).
Definition set_started (v : bool) (x : Room) : Room :=
  mkRoom (settings x) (players x) (spectators x) (turn x) (lastPlayed x) (scores x)
    (stock x) (board x) (gameOver x) (message x) v (highlights x).
Definition set_highlights (v : list Highlight) (x : Room) : Room :=
  mkRoom (settings x) (players x) (spectators x) (turn x) (lastPlayed x) (scores x)
    (stock x) (board x) (gameOver x) (message x) (started x) v.

(** What a handler does to the room it was called on. *)
Inductive Result : Type :=
  | Ignored
      (** it returned before touching the room; nothing is sent *)
  | Updated (flash : list Highlight) (room : Room)
      (** [emitRoomStateOnce]: the state is sent with the highlights [flash],
          and [room] is the room once they are cleared *)
  | Deleted
      (** [rooms.delete(roomId)] *)
  | Threw (room : Room).
      (** a [TypeError] left the handler with the room as it was by then *)

(** [emitRoomStateOnce(room)] *)
Definition emitRoomStateOnce (room : Room) : Result :=
  Updated (highlights room) (set_highlights [] room).

(** The room after the handler, if it is still in the registry. *)
Definition roomAfter (before : Room) (res : Result) : option Room :=
  match res with
  | Ignored => Some before
  | Updated _ room => Some room
  | Deleted => None
  | Threw room => Some room
  end.

(** [`P${i + 1}`] *)
Definition seatLabel (i : nat) : string := "P" +:+ pretty (S i).

(** [arr.findIndex((p) => p.socketId === socket.id)], [None] for [-1]. *)
Definition findSocket (sock : string) (arr : list Player) : option nat :=
  fst <$> list_find (fun p => socketId p = sock) arr.

(** [room.players[i].name || `P${i + 1}`] *)
Definition displayName (ps : list Player) (i : nat) : string :=
  match ps !! i with
  | Some p => if bool_decide (name p = EmptyString) then seatLabel i else name p
  | None => seatLabel i
  end.

(** ** Score and stock arrays *)

(** [arr[i] ?? 0] *)
Definition scoreOr0 (arr : list (option num)) (i : nat) : num :=
  match arr !! i with Some (Some n) => n | _ => Int 0 end.

(** [arr[i]] read as a number: [undefined] gives [NaN]. *)
Definition scoreNum (arr : list (option num)) (i : nat) : num :=
  match arr !! i with Some (Some n) => n | _ => NaN end.

(** [arr[i] = v]: a write past the end extends the array with holes. *)
Definition arraySet (arr : list (option num)) (i : nat) (v : num) : list (option num) :=
  if decide (i < length arr)%nat then <[i := Some v]> arr
  else arr ++ replicate (i - length arr) None ++ [Some v].

(** [room.scores[a.player] = (room.scores[a.player] ?? 0) + a.points] *)
Definition award (arr : list (option num)) (a : Mis.Award) : list (option num) :=
  arraySet arr (Mis.player a) (num_add (scoreOr0 arr (Mis.player a)) (Int (Mis.points a))).

(** [room.scores[i] += k] *)
Definition addScore (arr : list (option num)) (i : nat) (k : Z) : list (option num) :=
  arraySet arr i (num_add (scoreNum arr i) (Int k)).

(** [room.stock[i]?.[sym] ?? 0] *)
Definition stockOr0 (arr : list Stock) (i : nat) (s : Sym) : num :=
  match arr !! i with Some st => stockGet s st | None => Int 0 end.

(** [room.stock[i] || { R: 0, P: 0, S: 0 }] followed by [st.R + st.P + st.S]. *)
Definition stockTotal (arr : list Stock) (i : nat) : num :=
  let st := default (mkStock (Int 0) (Int 0) (Int 0)) (arr !! i) in
  num_add (num_add (stockR st) (stockP st)) (stockS st).

(** [Array.from({ length: n }, () => 0)] and the same with a full stock. *)
Definition freshScores (n : nat) : list (option num) := replicate n (Some (Int 0)).
Definition freshStock (n : nat) (tiles : num) : list Stock :=
  replicate n (mkStock tiles tiles tiles).

(** [Math.max(...scores)]: a hole is spread as [undefined], which is [NaN]. *)
Definition spreadMax (arr : list (option num)) : num :=
  foldl (fun acc x => Math_max acc (default NaN x)) NegInf arr.

(** The loop of [evaluateWinners], from index [i] on. *)
Fixpoint winnersFrom (i : nat) (max : num) (arr : list (option num)) : list Winner :=
  match arr with
  | [] => []
  | x :: rest =>
      match x with
      | Some n =>
          if num_eqb n max then mkWinner i (seatLabel i) n :: winnersFrom (S i) max rest
          else winnersFrom (S i) max rest
      | None => winnersFrom (S i) max rest
      end
  end.

(** [evaluateWinners(scores)] *)
Definition evaluateWinners (arr : list (option num)) : list Winner :=
  winnersFrom 0 (spreadMax arr) arr.

(** ** Handlers *)

(** [['R', 'P', 'S'].includes(sym)], with the symbol the key stands for. *)
Definition symOfKey (sym : string) : option Sym :=
  if bool_decide (sym = "R") then Some Rock
  else if bool_decide (sym = "P") then Some Paper
  else if bool_decide (sym = "S") then Some Scissors
  else None.

(** [placePiece], from [// place] to [room.highlights = []]. *)
Definition place (room : Room) (playerIdx : nat) (r c : Z) (s : Sym) : Room :=
  let room := set_board (setCell (board room) r c (Piece playerIdx s)) room in
  let room :=
    set_stock
      (alter (fun st => stockSet s (num_add (stockGet s st) (Int (-1))) st)
         playerIdx (stock room)) room in
  let room := set_lastPlayed (<[playerIdx := s]> (lastPlayed room)) room in
  set_highlights [] room.

(** [placePiece], the three scoring passes: misplacement first, then the
    eliminations, then three in a row on the board the eliminations left. *)
Definition scorePlacement (room : Room) (playerIdx : nat) (r c : Z) : Room :=
  let mis := Mis.scoreMisplacement (board room) r c in
  let room := set_scores (foldl award (scores room) (Mis.awarded mis)) room in
  let room := set_highlights (highlights room ++ Mis.highlights mis) room in
  let elim := Elim.resolveEliminationsFrom (board room) r c playerIdx in
  let room := set_board (Elim.board elim) room in
  let room :=
    if 0 <? Elim.removed elim then
      set_highlights (highlights room ++ Elim.highlights elim)
        (set_scores (addScore (scores room) playerIdx (Elim.removed elim)) room)
    else room in
  let tri := Tri.scoreThreeInRow (board room) r c playerIdx in
  if 0 <? Tri.points tri then
    set_highlights (highlights room ++ Tri.highlights tri)
      (set_scores (addScore (scores room) playerIdx (Tri.points tri)) room)
  else room.

(** The loop [for (let i = 0; i < room.players.length; i++)] of the end
    conditions: the first seat whose stock adds up to [0]. *)
Definition firstOutOfStock (room : Room) : option nat :=
  fst <$> list_find (fun i => num_eqb (stockTotal (stock room) i) (Int 0) = true)
            (seq 0 (length (players room))).

(** [placePiece], from [// win by points] to the end.  With no winner,
    [winners[0].score] throws after [room.gameOver = true]. *)
Definition conclude (room : Room) (playerIdx : nat) : Result :=
  if num_geb (scoreOr0 (scores room) playerIdx) (pointsToWin (settings room)) then
    let room := set_gameOver true room in
    emitRoomStateOnce
      (set_message
         (MsgWinsByPoints (displayName (players room) playerIdx)
            (pointsToWin (settings room))) room)
  else
    match firstOutOfStock room with
    | Some i =>
        let room := set_gameOver true room in
        match evaluateWinners (scores room) with
        | [] => Threw room
        | [w] =>
            emitRoomStateOnce
              (set_message (MsgTilesWin (displayName (players room) i) (label w) (score w)) room)
        | w :: ws =>
            emitRoomStateOnce
              (set_message
                 (MsgTilesTie (displayName (players room) i) (label <$> w :: ws) (score w))
                 room)
        end
    | None =>
        if boardFull (board room) then
          let room := set_gameOver true room in
          match evaluateWinners (scores room) with
          | [] => Threw room
          | [w] => emitRoomStateOnce (set_message (MsgFullWin (label w) (score w)) room)
          | w :: ws =>
              emitRoomStateOnce
                (set_message (MsgFullTie (label <$> w :: ws) (score w)) room)
          end
        else
          emitRoomStateOnce
            (set_turn ((turn room + 1) mod length (players room))%nat room)
    end.

(** [socket.on('placePiece', ({ roomId, r, c, sym }) => ...)] on the room
    [rooms.get(roomId)]; [sock] is [socket.id]. *)
Definition placePiece (room : Room) (sock : string) (r c : Z) (sym : string) : Result :=
  if gameOver room then Ignored
  else match findSocket sock (players room) with
       | None => Ignored
       | Some playerIdx =>
           if negb (bool_decide (playerIdx = turn room)) then Ignored
           else match symOfKey sym with
                | None => Ignored
                | Some s =>
                    if negb (inBounds r c) then Ignored
                    else if negb (bool_decide (cellAt (board room) r c = Empty)) then Ignored
                    else if num_leb (stockOr0 (stock room) playerIdx s) (Int 0) then Ignored
                    else conclude (scorePlacement (place room playerIdx r c s) playerIdx r c)
                           playerIdx
                end
       end.

(** [socket.on('moveBlocker', ({ roomId, from, to }) => ...)]; a missing
    [from] or [to] is [None] and fails [inBounds(from?.r, from?.c)]. *)
Definition moveBlocker (room : Room) (sock : string) (from to : option Pos) : Result :=
  if gameOver room then Ignored
  else match findSocket sock (players room) with
       | None => Ignored
       | Some playerIdx =>
           if negb (bool_decide (playerIdx = turn room)) then Ignored
           else match from, to with
                | Some (fr, fc), Some (tr, tc) =>
                    if negb (inBounds fr fc) || negb (inBounds tr tc) then Ignored
                    else if negb (bool_decide (cellAt (board room) fr fc = Blocker)) then Ignored
                    else if negb (bool_decide (cellAt (board room) tr tc = Empty)) then Ignored
                    else
                      let dr := Z.abs (fr - tr) in
                      let dc := Z.abs (fc - tc) in
                      if ((dr =? 0) && (dc =? 0)) || (1 <? dr) || (1 <? dc) then Ignored
                      else
                        let room :=
                          set_board
                            (setCell (setCell (board room) tr tc Blocker) fr fc Empty) room in
                        let room := set_highlights [] room in
                        emitRoomStateOnce
                          (set_turn ((turn room + 1) mod length (players room))%nat room)
                | _, _ => Ignored
                end
       end.

(** [ensureRoom]: the room a new identifier gets. *)
Definition ensureRoom : Room :=
  {| settings := mkSettings (Int 10) (Int 8) (Int 7);
     players := []; spectators := []; turn := 0%nat; lastPlayed := ∅;
     scores := []; stock := []; board := createEmptyBoard; gameOver := false;
     message := MsgNone; started := false; highlights := [] |}.

(** [(name || fallback).slice(0, 24)]; a missing name is the empty string. *)
Definition nameOr (name fallback : string) : string :=
  String.substring 0 24 (if bool_decide (name = EmptyString) then fallback else name).

(** [socket.on('joinRoom', ({ roomId, name, asSpectator }) => ...)] on
    [ensureRoom(roomId)]. *)
Definition joinRoom (room : Room) (sock : string) (name : string) (asSpectator : bool) : Result :=
  let forceSpectator := started room in
  if negb forceSpectator && negb asSpectator && (length (players room) <? 4)%nat then
    let myIndex := length (players room) in
    let room :=
      set_players (players room ++ [mkPlayer sock (nameOr name (seatLabel myIndex))]) room in
    let room :=
      if negb (started room) then
        set_stock (freshStock (length (players room)) (tilesPerSymbol (settings room)))
          (set_scores (freshScores (length (players room))) room)
      else room in
    emitRoomStateOnce room
  else
    emitRoomStateOnce
      (set_spectators (spectators room ++ [mkPlayer sock (nameOr name "Spectator")]) room).

(** [socket.on('leaveRoom', ({ roomId }) => ...)] *)
Definition leaveRoom (room : Room) (sock : string) : Result :=
  let room :=
    match findSocket sock (spectators room) with
    | Some sIdx => set_spectators (delete sIdx (spectators room)) room
    | None => room
    end in
  let room :=
    match findSocket sock (players room) with
    | Some pIdx =>
        let room := set_players (delete pIdx (players room)) room in
        let room :=
          if (length (players room) <=? turn room)%nat then set_turn 0%nat room else room in
        let room := set_scores (delete pIdx (scores room)) room in
        set_stock (delete pIdx (stock room)) room
    | None => room
    end in
  if bool_decide (length (players room) = 0%nat) then Deleted
  else
    let room := set_started false room in
    let room := set_gameOver false room in
    emitRoomStateOnce (set_message MsgLeft room).

(** [socket.on('disconnect', () => ...)] for a socket whose [joinedRoomId]
    is this room. *)
Definition disconnect (room : Room) (sock : string) : Result :=
  let room :=
    match findSocket sock (players room) with
    | Some pIdx =>
        let room := set_players (delete pIdx (players room)) room in
        let room := set_scores (delete pIdx (scores room)) room in
        set_stock (delete pIdx (stock room)) room
    | None => room
    end in
  let room :=
    match findSocket sock (spectators room) with
    | Some sIdx => set_spectators (delete sIdx (spectators room)) room
    | None => room
    end in
  if bool_decide (length (players room) = 0%nat) then Deleted
  else emitRoomStateOnce room.

(** ** New game *)

(** A field of the [newGame] payload: absent, [null], a number with an
    integer value, or a string. *)
Inductive JsVal : Type :=
  | JsUndefined
  | JsNull
  | JsInt (z : Z)
  | JsString (s : string).

(** [v ?? d] *)
Definition nullish (v : JsVal) (d : Z) : JsVal :=
  match v with
  | JsUndefined | JsNull => JsInt d
  | _ => v
  end.

(** White space that [parseInt] skips (the ASCII part of it). *)
Definition isSpace (a : ascii) : bool :=
  let n := nat_of_ascii a in
  bool_decide (n = 32 \/ (9 <= n <= 13))%nat.

Fixpoint trimStart (s : string) : string :=
  match s with
  | String a rest => if isSpace a then trimStart rest else s
  | EmptyString => s
  end.

Definition digitOf (a : ascii) : option Z :=
  let n := nat_of_ascii a in
  if bool_decide (48 <= n <= 57)%nat then Some (Z.of_nat n - 48) else None.

(** The longest prefix of decimal digits, as a number; [NaN] if empty. *)
Fixpoint digitsFrom (s : string) (acc : option Z) : num :=
  match s with
  | String a rest =>
      match digitOf a with
      | Some d => digitsFrom rest (Some (10 * default 0 acc + d))
      | None => from_option Int NaN acc
      end
  | EmptyString => from_option Int NaN acc
  end.

Definition num_opp (a : num) : num :=
  match a with Int z => Int (- z) | _ => a end.

(** [parseInt(v, 10)]: a string is trimmed, an optional sign is read, then
    the digits up to the first character that is not one; a number with an
    integer value (below [1e21] in size) is printed in digits and read
    back. *)
Definition parseInt (v : JsVal) : num :=
  match v with
  | JsInt z => Int z
  | JsString s =>
      match trimStart s with
      | String "-" rest => num_opp (digitsFrom rest None)
      | String "+" rest => digitsFrom rest None
      | s' => digitsFrom s' None
      end
  | JsUndefined | JsNull => NaN
  end.

(** [Math.max(lo, Math.min(hi, parseInt(v ?? d, 10)))] *)
Definition clampSetting (lo hi d : Z) (v : JsVal) : num :=
  Math_max (Int lo) (Math_min (Int hi) (parseInt (nullish v d))).

(** The empty cells in the order [randomEmptyCell] collects them. *)
Definition emptyCells (b : Board) : list Pos :=
  r ← seqZ 0 BOARD_SIZE;
  c ← seqZ 0 BOARD_SIZE;
  if bool_decide (cellAt b r c = Empty) then [(r, c)] else [].

(** [randomEmptyCell(board)]; [x] stands for the value [Math.random()]
    picks: position [x mod empties.length] of [empties]. *)
Definition randomEmptyCell (x : nat) (b : Board) : option Pos :=
  let empties := emptyCells b in
  if bool_decide (length empties = 0%nat) then None
  else empties !! (x mod length empties)%nat.

(** [placeRandomBlockers(board, count)], [todo = count - placed]; [rnd k]
    is the [k]-th random pick. *)
Fixpoint placeRandomBlockers (rnd : nat -> nat) (k : nat) (b : Board) (todo : nat) : Board :=
  match todo with
  | O => b
  | S todo' =>
      match randomEmptyCell (rnd k) b with
      | None => b
      | Some (r, c) => placeRandomBlockers rnd (S k) (setCell b r c Blocker) todo'
      end
  end.

(** [socket.on('newGame', ({ roomId, tilesPerSymbol, blockers, pointsToWin }) => ...)] *)
Definition newGame (rnd : nat -> nat) (room : Room) (sock : string)
    (tilesPerSymbol' blockers' pointsToWin' : JsVal) : Result :=
  let member :=
    bool_decide (is_Some (findSocket sock (players room)))
    || bool_decide (is_Some (findSocket sock (spectators room))) in
  if negb member then Ignored
  else
    let cfg :=
      mkSettings (clampSetting 1 99 10 tilesPerSymbol')
        (clampSetting 0 (BOARD_SIZE * BOARD_SIZE) 8 blockers')
        (clampSetting 1 999 7 pointsToWin') in
    let n := length (players room) in
    let b :=
      match blockers cfg with
      | Int count =>
          if 0 <? count then placeRandomBlockers rnd 0 createEmptyBoard (Z.to_nat count)
          else createEmptyBoard
      | _ => createEmptyBoard
      end in
    emitRoomStateOnce
      {| settings := cfg; players := players room; spectators := spectators room;
         turn := 0%nat; lastPlayed := ∅; scores := freshScores n;
         stock := freshStock n (tilesPerSymbol cfg); board := b; gameOver := false;
         message := MsgNewGame; started := true; highlights := [] |}.

(** ** Notions used in the statements *)

(** The cell [x] is on the board and holds a piece with the owner and the
    symbol of [ref]: the condition of the two [while] loops. *)
Definition sameAt (b : Board) (ref : nat * Sym) (x : Pos) : bool :=
  inBounds x.1 x.2 && sameOwnerSym b x.1 x.2 ref.

(** The cell [x] is on the board and holds a piece that is not a blocker,
    belongs to another player than [p] and has a symbol that [s] defeats. *)
Definition beaten (b : Board) (p : nat) (s : Sym) (x : Pos) : bool :=
  inBounds x.1 x.2 &&
  match cellAt b x.1 x.2 with
  | Piece q t => negb (bool_decide (q = p)) && bool_decide (WEAK_TO t = s)
  | _ => false
  end.

(** The two cells just outside the first adjacent pair of the run through
    [(r, c)] that contains [(r, c)], for the direction [d]: the pair ends at
    [(r, c)] when the cell before it is in the run, starts at [(r, c)] when
    only the cell after it is, and does not exist for a run of one cell. *)
Definition candidates (b : Board) (p : nat) (s : Sym) (r c : Z) (d : Z * Z) : list Pos :=
  if sameAt b (p, s) (r - d.1, c - d.2) then
    [(r - 2 * d.1, c - 2 * d.2); (r + d.1, c + d.2)]
  else if sameAt b (p, s) (r + d.1, c + d.2) then
    [(r - d.1, c - d.2); (r + 2 * d.1, c + 2 * d.2)]
  else [].

(** The candidates of the four directions that are beaten. *)
Definition eliminated (b : Board) (p : nat) (s : Sym) (r c : Z) : list Pos :=
  filter (fun x => beaten b p s x = true) (d ← deltas; candidates b p s r c d).

(** The run through [(r, c)] along [d] extends [kb] cells backward and [kf]
    cells forward and no further: the maximal contiguous run of cells with
    the owner and symbol of [ref]. *)
Definition maximalRun (b : Board) (ref : nat * Sym) (r c : Z) (d : Z * Z)
    (kb kf : Z) : Prop :=
  0 <= kb /\ 0 <= kf /\
  (forall j, - kb <= j <= kf -> j <> 0 -> sameAt b ref (r + j * d.1, c + j * d.2) = true) /\
  sameAt b ref (r - (kb + 1) * d.1, c - (kb + 1) * d.2) = false /\
  sameAt b ref (r + (kf + 1) * d.1, c + (kf + 1) * d.2) = false.

(** The attempts that one direction makes, in order. *)
Definition attempts (placed : nat * Sym) (byIdx : nat) (st : Elim.St) (xs : list Pos) : Elim.St :=
  foldl (fun st x => Elim.tryEliminate placed byIdx x.1 x.2 st) st xs.


(** The sixteen cells at one or two steps from [(r, c)] along the four
    directions are pairwise distinct. *)
Definition around (r c : Z) : list Pos :=
  d ← deltas; [(r - 2 * d.1, c - 2 * d.2); (r - d.1, c - d.2);
               (r + d.1, c + d.2); (r + 2 * d.1, c + 2 * d.2)].

(** [if (k > 0) room.scores[playerIdx] += k] *)
Definition credit (p : nat) (k : Z) (arr : list (option num)) : list (option num) :=
  if 0 <? k then addScore arr p k else arr.

(** The checks of [placePiece] that come before [// place]: the handler
    goes on for the seat [p] and the symbol [s]. *)
Definition accepts (room : Room) (sock : string) (r c : Z) (sym : string)
    (p : nat) (s : Sym) : Prop :=
  gameOver room = false /\
  findSocket sock (players room) = Some p /\
  p = turn room /\
  symOfKey sym = Some s /\
  inBounds r c = true /\
  cellAt (board room) r c = Empty /\
  num_leb (stockOr0 (stock room) p s) (Int 0) = false.

(** ** Scenarios *)

(** The room after one more handler call. *)
Definition play (room : Room) (step : Room -> Result) : Room :=
  default room (roomAfter room (step room)).

(** Two players, Ann on socket [a] and Bob on socket [b], then a new game
    with the default settings and no blocker. *)
Definition lobby2 : Room :=
  play (play ensureRoom (fun room => joinRoom room "a" "Ann" false))
    (fun room => joinRoom room "b" "Bob" false).

Definition game2 : Room :=
  play lobby2 (fun room => newGame (fun _ => 0%nat) room "a" JsUndefined (JsInt 0) JsUndefined).

(** Ann has played Paper in the far corner and Bob Scissors at [(0, 0)]. *)
Definition lonePiece : Room :=
  play (play game2 (fun room => placePiece room "a" 7 7 "P"))
    (fun room => placePiece room "b" 0 0 "S").

(** Ann has played Rock at [(0, 1)] and Bob Scissors at [(0, 0)]. *)
Definition pairReady : Room :=
  play (play game2 (fun room => placePiece room "a" 0 1 "R"))
    (fun room => placePiece room "b" 0 0 "S").

(** Ann then plays Rock at [(0, 2)]. *)
Definition pairStruck : Room :=
  play pairReady (fun room => placePiece room "a" 0 2 "R").

(** The same moves in a game played to one point. *)
Definition sprint2 : Room :=
  play lobby2 (fun room => newGame (fun _ => 0%nat) room "a" JsUndefined (JsInt 0) (JsInt 1)).

Definition sprintReady : Room :=
  play (play sprint2 (fun room => placePiece room "a" 0 1 "R"))
    (fun room => placePiece room "b" 0 0 "S").

Definition sprintWon : Room :=
  play sprintReady (fun room => placePiece room "a" 0 2 "R").

(** Bob holds Paper at [(0, 0)] and [(0, 2)]; Ann's two Rocks are far
    away and apart. *)
Definition flanked : Room :=
  play (play (play (play game2 (fun room => placePiece room "a" 7 7 "R"))
                (fun room => placePiece room "b" 0 0 "P"))
          (fun room => placePiece room "a" 7 5 "R"))
    (fun room => placePiece room "b" 0 2 "P").

(** Ann then plays Rock between them. *)
Definition misplaced : Room :=
  play flanked (fun room => placePiece room "a" 0 1 "R").

(** Ann alone in a room, a new game without blocker, and her first two
    Rocks side by side on the empty board. *)
Definition solo : Room :=
  play (play ensureRoom (fun room => joinRoom room "a" "Ann" false))
    (fun room => newGame (fun _ => 0%nat) room "a" JsUndefined (JsInt 0) JsUndefined).

Definition twoInRow : Room :=
  play (play solo (fun room => placePiece room "a" 0 0 "R"))
    (fun room => placePiece room "a" 0 1 "R").

Definition threeInRow : Room :=
  play twoInRow (fun room => placePiece room "a" 0 2 "R").

(** Ann plays Rock at [(0, 0)], Bob Scissors at [(0, 1)], Ann Rock at
    [(0, 2)]. *)
Definition flank1 : Room := play game2 (fun room => placePiece room "a" 0 0 "R").
Definition flank2 : Room := play flank1 (fun room => placePiece room "b" 0 1 "S").
Definition flank3 : Room := play flank2 (fun room => placePiece room "a" 0 2 "R").

(** Ann has made the first move of [game2]; her socket then drops. *)
Definition dropped : Room := play flank1 (fun room => disconnect room "a").

(** A game with one blocker, which the first pick puts at [(0, 0)]; Bob
    then leaves the room. *)
Definition blocked2 : Room :=
  play lobby2 (fun room => newGame (fun _ => 0%nat) room "a" JsUndefined (JsInt 1) JsUndefined).

Definition abandoned : Room := play blocked2 (fun room => leaveRoom room "b").

Definition pushed : Room :=
  play abandoned (fun room => moveBlocker room "a" (Some (0, 0)) (Some (1, 1))).

(** A new game asked for with a tile count that is not a number. *)
Definition nanGame : Room :=
  play lobby2
    (fun room => newGame (fun _ => 0%nat) room "a" (JsString "abc") (JsInt 0) JsUndefined).


(** ** Notions for the end of a placement *)

(** Seat [i] has no tile left: the test of the end-condition loop. *)
Definition outOfStock (room : Room) (i : nat) : Prop :=
  (i < length (players room))%nat /\
  num_eqb (stockTotal (stock room) i) (Int 0) = true.

(** The message for a game that ended on an empty stock, and the one for a
    full board, from a list of winners that is not empty. *)
Definition tilesMessage (who : string) (w : Winner) (ws : list Winner) : Message :=
  match ws with
  | [] => MsgTilesWin who (label w) (score w)
  | _ => MsgTilesTie who (label <$> w :: ws) (score w)
  end.

Definition fullMessage (w : Winner) (ws : list Winner) : Message :=
  match ws with
  | [] => MsgFullWin (label w) (score w)
  | _ => MsgFullTie (label <$> w :: ws) (score w)
  end.

(** A score array without hole or [NaN]. *)
Definition intScores (zs : list Z) : list (option num) := (fun z => Some (Int z)) <$> zs.

(** ** Notions for the misplacement bonus *)

(** The window [win] qualifies for [opp] when [(r, c)] holds the piece
    [(p, s)]: it contains [(r, c)], its cells are all on the board and hold
    pieces, not blockers, and its cells other than [(r, c)] hold pieces of
    the one opponent [opp] with the symbol that defeats [s]. *)
Definition qualifies (b : Board) (r c : Z) (p : nat) (s : Sym)
    (win : list Pos) (opp : nat) : Prop :=
  (r, c) ∈ win /\
  Forall (fun x => inBounds x.1 x.2 = true /\ exists q t, cellAt b x.1 x.2 = Piece q t) win /\
  opp <> p /\
  forall x, x ∈ win -> x <> (r, c) -> cellAt b x.1 x.2 = Piece opp (WEAK_TO s).

(** What the direction [d] adds to [awarded]. *)
Definition directionAward (b : Board) (r c : Z) (p : nat) (s : Sym) (d : Z * Z)
    : list Mis.Award :=
  Mis.awarded (Mis.direction b r c p (WEAK_TO s) (Mis.mkOut [] []) d).

(** ** Notions for the three-in-a-row bonus *)

(** What the direction [d] adds to [points]. *)
Definition directionPoints (b : Board) (p : nat) (s : Sym) (r c : Z) (d : Z * Z) : Z :=
  Tri.points (Tri.direction b p s p r c (Tri.mkOut 0 []) d).

Definition sumZ (l : list Z) : Z := foldr Z.add 0 l.

(** ** Notions for the checks of a placement *)

(** One of the checks of [placePiece] fails. *)
Definition rejects (room : Room) (sock : string) (r c : Z) (sym : string) : Prop :=
  gameOver room = true \/
  findSocket sock (players room) = None \/
  (exists p, findSocket sock (players room) = Some p /\ p <> turn room) \/
  symOfKey sym = None \/
  inBounds r c = false \/
  cellAt (board room) r c <> Empty \/
  (exists p s, findSocket sock (players room) = Some p /\ symOfKey sym = Some s /\
     stockOr0 (stock room) p s = Int 0).

(** Every stock count is an integer that is not negative: what a game
    started with integer settings keeps. *)
Definition stock_ok (room : Room) : Prop :=
  forall i st s, stock room !! i = Some st -> exists z, stockGet s st = Int z /\ 0 <= z.

(** ** Notions for a blocker move *)

(** The checks of [moveBlocker] all pass for the move from [f] to [t]. *)
Definition legalMove (room : Room) (sock : string) (f t : Pos) : Prop :=
  gameOver room = false /\
  findSocket sock (players room) = Some (turn room) /\
  inBounds f.1 f.2 = true /\ inBounds t.1 t.2 = true /\
  cellAt (board room) f.1 f.2 = Blocker /\
  cellAt (board room) t.1 t.2 = Empty /\
  Z.max (Z.abs (f.1 - t.1)) (Z.abs (f.2 - t.2)) = 1.
(** ** Notions for the cells of a board *)

(** The sixty-four positions of the board, row by row. *)
Definition allCells : list Pos :=
  r ← seqZ 0 BOARD_SIZE; c ← seqZ 0 BOARD_SIZE; [(r, c)].

(** The positions that hold [v]. *)
Definition cellsHolding (v : Cell) (b : Board) : list Pos :=
  filter (fun x => cellAt b x.1 x.2 = v) allCells.
(** ** The events of a room *)

(** What a socket sends about one room; [sock] is [socket.id], and [rnd]
    the values [Math.random()] gives while the event is handled. *)
Inductive Event : Type :=
  | JoinRoom (sock name : string) (asSpectator : bool)
  | LeaveRoom (sock : string)
  | NewGame (rnd : nat -> nat) (sock : string) (tilesPerSymbol' blockers' pointsToWin' : JsVal)
  | PlacePiece (sock : string) (r c : Z) (sym : string)
  | MoveBlocker (sock : string) (from to : option Pos)
  | Disconnect (sock : string).

(** The handler that [io.on('connection', ...)] registers for the event. *)
Definition handle (room : Room) (e : Event) : Result :=
  match e with
  | JoinRoom sock name asSpectator => joinRoom room sock name asSpectator
  | LeaveRoom sock => leaveRoom room sock
  | NewGame rnd sock t b p => newGame rnd room sock t b p
  | PlacePiece sock r c sym => placePiece room sock r c sym
  | MoveBlocker sock from to => moveBlocker room sock from to
  | Disconnect sock => disconnect room sock
  end.

(** The rooms the registry can hold when only the events in [allowed]
    occur: [ensureRoom] makes the room, and a handler changes it until one
    deletes it.  The [chat] and [requestState] events change none of the
    fields kept here. *)
Inductive reachableBy (allowed : Event -> Prop) : Room -> Prop :=
  | reach_new : reachableBy allowed ensureRoom
  | reach_step room e room' :
      reachableBy allowed room -> allowed e ->
      roomAfter room (handle room e) = Some room' ->
      reachableBy allowed room'.

Definition anyEvent (e : Event) : Prop := True.

Definition notDisconnect (e : Event) : Prop :=
  match e with Disconnect _ => False | _ => True end.

(** Every [newGame] comes with a tile setting that [parseInt] can read, or
    with none. *)
Definition tilesParsable (e : Event) : Prop :=
  match e with
  | NewGame _ _ t _ _ => parseInt (nullish t 10) <> NaN
  | _ => True
  end.

(** The turn is on a seat, or on [0] in a room without players. *)
Definition turn_ok (room : Room) : Prop :=
  (turn room < length (players room))%nat \/ (players room = [] /\ turn room = 0%nat).

(** The tile setting is an integer that is not negative. *)
Definition tiles_ok (room : Room) : Prop :=
  exists z, tilesPerSymbol (settings room) = Int z /\ 0 <= z.

(** At most four seats, one stock entry for each, and a score entry for
    each. *)
Definition seats_ok (room : Room) : Prop :=
  (length (players room) <= 4)%nat /\
  length (stock room) = length (players room) /\
  (length (players room) <= length (scores room))%nat.
(** ** More scenarios *)

(** Ann joins the same room twice from the one socket [a], starts a game
    and makes the first move. *)
Definition twice : Room :=
  play (play ensureRoom (fun room => joinRoom room "a" "Ann" false))
    (fun room => joinRoom room "a" "Ann" false).

Definition twiceMoved : Room :=
  play (play twice
          (fun room => newGame (fun _ => 0%nat) room "a" JsUndefined (JsInt 0) JsUndefined))
    (fun room => placePiece room "a" 0 0 "R").

(** Ann has made the first move of [game2]; she then leaves the room. *)
Definition left1 : Room := play flank1 (fun room => leaveRoom room "a").
(** ** Notions for the highlights *)

(** [n] cells in a row along [d], the first one [from] steps from
    [(r, c)]. *)
Definition lineCells (r c : Z) (d : Z * Z) (from n : Z) : list Pos :=
  (fun j => (r + j * d.1, c + j * d.2)) <$> seqZ from n.

(** Where the highlighted triple starts, in steps from the new piece, for
    a run that extends [kb] cells backward and [kf] forward: the triple is
    centred on the new piece when the run goes on on both sides, and
    starts or ends at it otherwise. *)
Definition tripleStart (kb kf : Z) : Z :=
  if kf =? 0 then -2 else if kb =? 0 then 0 else -1.
(** ** Moves *)

(** The two events that are a move of the game. *)
Definition isMove (e : Event) : Prop :=
  match e with
  | PlacePiece _ _ _ _ | MoveBlocker _ _ _ => True
  | _ => False
  end.

(** Seat [i] has the integer score [z]. *)
Definition hasScore (room : Room) (i : nat) (z : Z) : Prop :=
  scores room !! i = Some (Some (Int z)).
(** ** A game that two of four players leave *)

(** Ann, Bob, Cat and Dan on the sockets [a], [b], [c] and [d]; a game
    with two tiles of each symbol and no blocker; two rounds in which Dan
    puts Paper on [(0, 0)] and [(0, 2)] and nobody scores. *)
Definition crowd4 : Room :=
  foldl (fun room e => play room (fun room => handle room e)) ensureRoom
    [JoinRoom "a" "Ann" false; JoinRoom "b" "Bob" false;
     JoinRoom "c" "Cat" false; JoinRoom "d" "Dan" false;
     NewGame (fun _ => 0%nat) "a" (JsInt 2) (JsInt 0) JsUndefined;
     PlacePiece "a" 7 0 "R"; PlacePiece "b" 7 2 "R";
     PlacePiece "c" 7 4 "R"; PlacePiece "d" 0 0 "P";
     PlacePiece "a" 5 0 "P"; PlacePiece "b" 5 2 "P";
     PlacePiece "c" 5 4 "P"; PlacePiece "d" 0 2 "P"].

(** Bob and Cat leave, which moves Dan to the second seat; Ann then puts
    Rock between the two Papers that still carry Dan's old seat. *)
Definition holed : Room :=
  foldl (fun room e => play room (fun room => handle room e)) crowd4
    [LeaveRoom "b"; LeaveRoom "c"; PlacePiece "a" 0 1 "R"].

(** Ann and Dan play on until Ann has one tile left. *)
Definition lastTile : Room :=
  foldl (fun room e => play room (fun room => handle room e)) holed
    [PlacePiece "d" 2 4 "S"; PlacePiece "a" 2 6 "S";
     PlacePiece "d" 3 1 "R"; PlacePiece "a" 7 6 "S";
     PlacePiece "d" 4 6 "R"].
(** ** The middle revision (src/unnamed/part_001)

    Its rooms have the fields of the latest revision; [leaveRoom] reads and
    writes the same ones in both. *)

Module Rev1.

(** [socket.on('leaveRoom', ({ roomId }) => ...)]: the room is kept
    whatever is left of it, and the state is sent as it is. *)
Definition leaveRoom (room : Room) (sock : string) : Room :=
  let room :=
    match findSocket sock (spectators room) with
    | Some sIdx => set_spectators (delete sIdx (spectators room)) room
    | None => room
    end in
  let room :=
    match findSocket sock (players room) with
    | Some pIdx =>
        let room := set_players (delete pIdx (players room)) room in
        let room :=
          if (length (players room) <=? turn room)%nat then set_turn 0%nat room else room in
        let room := set_scores (delete pIdx (scores room)) room in
        set_stock (delete pIdx (stock room)) room
    | None => room
    end in
  let room := set_started false room in
  let room := set_gameOver false room in
  set_message MsgLeft room.

End Rev1.
(** ** The first revision (src/unnamed/part_000) *)

Module Rev0.

(** [tryEliminate(board, r, c, attSym, attPlayer)]: the board it leaves
    and the number it returns. *)
Definition tryEliminate (b : Board) (r c : Z) (attSym : Sym) (attPlayer : nat) : Board * Z :=
  if negb (inBounds r c) then (b, 0)
  else match cellAt b r c with
       | Piece p s =>
           if bool_decide (p = attPlayer) then (b, 0)
           else if bool_decide (WEAK_TO s = attSym) then (setCell b r c Empty, 1)
           else (b, 0)
       | _ => (b, 0)
       end.

(** [removed += tryEliminate(board, rr, cc, placed.sym, placed.player)] on
    the board and the counter. *)
Definition bump (placed : nat * Sym) (rr cc : Z) (st : Board * Z) : Board * Z :=
  let '(b, k) := tryEliminate st.1 rr cc placed.2 placed.1 in (b, st.2 + k).

(** The loop over [i]: every adjacent pair of [line] that contains
    [(r, c)] triggers the two attempts; there is no [break]. *)
Fixpoint pairScan (placed : nat * Sym) (r c dr dc : Z) (line : list Pos)
    (st : Board * Z) : Board * Z :=
  match line with
  | a :: (b :: _) as rest =>
      let includesNew :=
        (bool_decide (a.1 = r) && bool_decide (a.2 = c))
        || (bool_decide (b.1 = r) && bool_decide (b.2 = c)) in
      pairScan placed r c dr dc rest
        (if includesNew
         then bump placed (b.1 + dr) (b.2 + dc) (bump placed (a.1 - dr) (a.2 - dc) st)
         else st)
  | _ => st
  end.

(** One round of the loop over [deltas]; its two [while] loops are those
    of the latest revision, word for word. *)
Definition direction (placed : nat * Sym) (r c : Z) (st : Board * Z) (d : Z * Z)
    : Board * Z :=
  let '(dr, dc) := d in
  let line := Elim.backward Elim.fuel st.1 placed dr dc (r - dr) (c - dc) [(r, c)] in
  let line := Elim.forward Elim.fuel st.1 placed dr dc (r + dr) (c + dc) line in
  pairScan placed r c dr dc line st.

(** [resolveEliminationsFrom(board, r, c)]: the mutated board and
    [removed]. *)
Definition resolveEliminationsFrom (b : Board) (r c : Z) : Board * Z :=
  match cellAt b r c with
  | Piece p s => foldl (direction (p, s) r c) (b, 0) deltas
  | _ => (b, 0)
  end.

End Rev0.

(** The cells the first revision attempts in the direction [d]: those
    outside the pair that ends at [(r, c)], then those outside the pair
    that starts at it. *)
Definition candidates0 (b : Board) (p : nat) (s : Sym) (r c : Z) (d : Z * Z) : list Pos :=
  (if sameAt b (p, s) (r - d.1, c - d.2)
   then [(r - 2 * d.1, c - 2 * d.2); (r + d.1, c + d.2)] else []) ++
  (if sameAt b (p, s) (r + d.1, c + d.2)
   then [(r - d.1, c - d.2); (r + 2 * d.1, c + 2 * d.2)] else []).

Definition eliminated0 (b : Board) (p : nat) (s : Sym) (r c : Z) : list Pos :=
  filter (fun x => beaten b p s x = true) (d ← deltas; candidates0 b p s r c d).

(** The board and the counter of an elimination state. *)
Definition boardAndCount (st : Elim.St) : Board * Z := (Elim.board st, Elim.removed st).

(** Three Rocks of seat 0 from [(0, 0)] to [(0, 2)], the one in the middle
    placed last, and a Scissors of seat 1 at [(0, 3)]. *)
Definition midBoard : Board :=
  setCell
    (setCell
       (setCell (setCell createEmptyBoard 0 0 (Piece 0 Rock)) 0 2 (Piece 0 Rock))
       0 3 (Piece 1 Scissors))
    0 1 (Piece 0 Rock).
(** ** The first game (src/unnamed/part_002, first document)

    One game for the whole server, kept in [gameState].  The fields of the
    payloads are taken to be of the types the client sends: names and
    symbols are strings, rows and columns integers. *)

Module Proto.

(** A value kept in [scores]: a number, or the string that [+= 1] makes of
    a value that is not a number (its text plays no part). *)
Inductive Score : Type :=
  | Num (z : Z)
  | Text.

(** [gameState]: the board holds [null] or the symbol put there; [scores]
    is a plain object keyed by player name, and the map holds its own
    properties. *)
Record GameState : Type := mkGameState {
  board : list (list (option string));
  players : list string;
  scores : gmap string Score;
  currentPlayerIndex : nat
}.

(** The names that every object inherits from [Object.prototype].  Read
    on [scores] they give a function, or the prototype itself for
    [__proto__], unless [scores] has a property of its own under the name;
    a write makes a property of [scores], except under [__proto__], where
    the write of a number or a string is ignored. *)
Definition inherited : list string :=
  ["__proto__"; "constructor"; "hasOwnProperty"; "isPrototypeOf";
   "propertyIsEnumerable"; "toLocaleString"; "toString"; "valueOf";
   "__defineGetter__"; "__defineSetter__"; "__lookupGetter__"; "__lookupSetter__"].

(** [Array(8).fill(null).map(() => Array(8).fill(null))] *)
Definition emptyBoard : list (list (option string)) := replicate 8 (replicate 8 None).

(** The initial [gameState]. *)
Definition init : GameState := mkGameState emptyBoard [] ∅ 0.

(** [resetGame()] *)
Definition resetGame (st : GameState) : GameState := mkGameState emptyBoard [] ∅ 0.

Definition symbols : list string := ["O"; "X"; "■"].

(** The loop [row.forEach((cell) => { if (cell === symbol) count++ })]. *)
Definition countIn (row : list (option string)) (symbol : string) : nat :=
  length (filter (fun cell => cell = Some symbol) row).

(** [if (!scores[player]) scores[player] = 0; scores[player] += 1]: a
    number goes up by one and a name without a value starts at [0]; a
    string, a function and an object are not falsy, and [+= 1] appends to
    their text. *)
Definition bump (player : string) (sc : gmap string Score) : gmap string Score :=
  if bool_decide (player = "__proto__") then sc
  else match sc !! player with
       | Some (Num z) => <[player := Num (z + 1)]> sc
       | Some Text => <[player := Text]> sc
       | None =>
           if bool_decide (player ∈ inherited) then <[player := Text]> sc
           else <[player := Num 1]> sc
       end.

(** [checkRows(player)] on the scores. *)
Definition checkRows (player : string) (b : list (list (option string)))
    (sc : gmap string Score) : gmap string Score :=
  foldl (fun sc row =>
           foldl (fun sc symbol => if (countIn row symbol =? 3)%nat then bump player sc else sc)
             sc symbols)
    sc b.

(** What a handler does: nothing, a change of [gameState] that is sent to
    every socket, or a [TypeError]. *)
Inductive Outcome : Type :=
  | Ignored
  | Emitted (st : GameState)
  | Threw.

(** [socket.on('joinGame', (playerName) => ...)] *)
Definition joinGame (st : GameState) (playerName : string) : Outcome :=
  if bool_decide (playerName ∈ players st) then Emitted st
  else Emitted (mkGameState (board st) (players st ++ [playerName])
                  (if bool_decide (playerName = "__proto__") then scores st
                   else <[playerName := Num 0]> (scores st))
                  (currentPlayerIndex st)).

(** [socket.on('makeMove', ({ player, row, col, symbol }) => ...)]:
    [gameState.board[row]] is [undefined] for a row off the board, and
    reading [[col]] of it throws. *)
Definition makeMove (st : GameState) (player : string) (row col : Z) (symbol : string)
    : Outcome :=
  if negb ((0 <=? row) && (row <? 8)) then Threw
  else match board st !! Z.to_nat row with
       | None => Threw
       | Some cells =>
           if negb (0 <=? col) then Ignored
           else match cells !! Z.to_nat col with
                | Some None =>
                    if bool_decide (players st !! currentPlayerIndex st = Some player) then
                      let b :=
                        alter (fun cells => <[Z.to_nat col := Some symbol]> cells)
                          (Z.to_nat row) (board st) in
                      Emitted
                        (mkGameState b (players st) (checkRows player b (scores st))
                           ((currentPlayerIndex st + 1) mod length (players st))%nat)
                    else Ignored
                | _ => Ignored
                end
       end.

End Proto.

(** The rows and symbols that [checkRows] pays for: a row counts once for
    each of the three symbols it holds exactly three times. *)
Definition payingRows (b : list (list (option string))) : nat :=
  sum_list ((fun row =>
               length (filter (fun symbol => Proto.countIn row symbol = 3%nat) Proto.symbols))
            <$> b).

(** Ann and Bob join the first game; Ann puts three [X] in the top row
    while Bob puts two [O] in the bottom row; Bob then puts a third [O]
    in the row above it. *)
Definition protoPlay (st : Proto.GameState) (step : Proto.GameState -> Proto.Outcome)
    : Proto.GameState :=
  match step st with Proto.Emitted st' => st' | _ => st end.

Definition protoRow : Proto.GameState :=
  foldl protoPlay Proto.init
    [fun st => Proto.joinGame st "Ann"; fun st => Proto.joinGame st "Bob";
     fun st => Proto.makeMove st "Ann" 0 0 "X"; fun st => Proto.makeMove st "Bob" 7 0 "O";
     fun st => Proto.makeMove st "Ann" 0 1 "X"; fun st => Proto.makeMove st "Bob" 7 1 "O";
     fun st => Proto.makeMove st "Ann" 0 2 "X"].
(** ** Names *)

(** Every player and spectator has a name of 1 to 24 characters. *)
Definition names_ok (room : Room) : Prop :=
  Forall (fun pl => name pl <> EmptyString /\ (String.length (name pl) <= 24)%nat)
    (players room ++ spectators room).
(** ** Notions for what the moves do not read *)

(** A handler's result with [f] applied to the room it leaves. *)
Definition mapResult (f : Room -> Room) (res : Result) : Result :=
  match res with
  | Ignored => Ignored
  | Updated flash room => Updated flash (f room)
  | Deleted => Deleted
  | Threw room => Threw (f room)
  end.

(** [t] defeats [s]: a piece with [t] removes and outranks one with [s]. *)
Definition defeats (t s : Sym) : Prop := WEAK_TO s = t.
(** ** Notions for the scores after a placement *)

(** How many of the awards go to seat [i]. *)
Definition awardsTo (i : nat) (awards : list Mis.Award) : Z :=
  Z.of_nat (length (filter (fun a => Mis.player a = i) awards)).

(** Every seat has an integer score. *)
Definition scores_ok (room : Room) : Prop :=
  forall i, (i < length (players room))%nat -> exists z, hasScore room i z.
(** ** A game that one player finishes alone *)

(** Ann, Bob and Cat on the sockets [a], [b] and [c]; a game with two
    tiles of each symbol and no blocker; two rounds in which Cat puts Paper
    on [(0, 0)] and [(0, 2)] and nobody scores. *)
Definition trio : Room :=
  foldl (fun room e => play room (fun room => handle room e)) ensureRoom
    [JoinRoom "a" "Ann" false; JoinRoom "b" "Bob" false; JoinRoom "c" "Cat" false;
     NewGame (fun _ => 0%nat) "a" (JsInt 2) (JsInt 0) JsUndefined;
     PlacePiece "a" 7 0 "R"; PlacePiece "b" 7 2 "R"; PlacePiece "c" 0 0 "P";
     PlacePiece "a" 5 0 "P"; PlacePiece "b" 5 2 "P"; PlacePiece "c" 0 2 "P"].

(** Bob and Cat leave.  Ann puts her second Rock between the two Papers,
    which still carry Cat's seat, and then her two Scissors: she has one
    Paper left. *)
Definition alone : Room :=
  foldl (fun room e => play room (fun room => handle room e)) trio
    [LeaveRoom "b"; LeaveRoom "c";
     PlacePiece "a" 0 1 "R"; PlacePiece "a" 2 4 "S"; PlacePiece "a" 2 6 "S"].

(** ** A game that goes on after a player has left *)

(** Bob leaves the game of three; Ann and Cat each make a move. *)
Definition trioLeft : Room := play trio (fun room => leaveRoom room "b").
Definition trioOn1 : Room := play trioLeft (fun room => placePiece room "a" 2 4 "S").
Definition trioOn2 : Room := play trioOn1 (fun room => placePiece room "c" 3 1 "R").

(** Bob leaves the game that Ann has won; Ann places one more piece. *)
Definition reopened : Room := play sprintWon (fun room => leaveRoom room "b").
Definition replayed : Room := play reopened (fun room => placePiece room "a" 3 3 "P").

(** * Properties *)

(** ** The board *)

Lemma inBounds_spec r c :
  inBounds r c = true <-> 0 <= r < BOARD_SIZE /\ 0 <= c < BOARD_SIZE.
Proof. unfold inBounds, BOARD_SIZE. rewrite !andb_true_iff. lia. Qed.

Lemma inBounds_false r c :
  inBounds r c = false <-> ~ (0 <= r < BOARD_SIZE /\ 0 <= c < BOARD_SIZE).
Proof. rewrite <- inBounds_spec. destruct (inBounds r c); naive_solver. Qed.

Lemma createEmptyBoard_ok : board_ok createEmptyBoard.
Proof.
  split; [reflexivity|]. unfold createEmptyBoard.
  apply Forall_replicate. reflexivity.
Qed.

Lemma setCell_ok b r c v : board_ok b -> board_ok (setCell b r c v).
Proof.
  intros [Hlen Hrows]. split; unfold setCell.
  - by rewrite length_alter.
  - apply Forall_lookup. intros i row Hi.
    rewrite list_lookup_alter in Hi. case_decide as Hd.
    + destruct (b !! Z.to_nat r) as [row0|] eqn:E; simplify_eq/=.
      rewrite length_insert. by eapply (Forall_lookup_1 _ _ _ _ Hrows).
    + by eapply (Forall_lookup_1 _ _ _ _ Hrows).
Qed.

Lemma cellAt_setCell b r c v r' c' :
  board_ok b -> inBounds r c = true -> 0 <= r' -> 0 <= c' ->
  cellAt (setCell b r c v) r' c' =
    if decide (r' = r /\ c' = c) then v else cellAt b r' c'.
Proof.
  intros [Hlen Hrows] [Hr Hc]%inBounds_spec Hr' Hc'.
  unfold cellAt, setCell. rewrite list_lookup_alter.
  destruct (decide (Z.to_nat r = Z.to_nat r')) as [Heq|Hne].
  - assert (r' = r) as -> by lia.
    destruct (lookup_lt_is_Some_2 b (Z.to_nat r)) as [row Hrow]; [unfold BOARD_SIZE in *; lia|].
    rewrite Hrow. simpl.
    assert (length row = Z.to_nat BOARD_SIZE) as Hlr
      by (eapply (Forall_lookup_1 _ _ _ _ Hrows); eauto).
    rewrite list_lookup_insert.
    destruct (decide (Z.to_nat c = Z.to_nat c' /\ (Z.to_nat c < length row)%nat)) as [[? ?]|Hn].
    + assert (c' = c) as -> by lia. rewrite decide_True; done.
    + rewrite decide_False; [done|]. intros [_ ->]. apply Hn. unfold BOARD_SIZE in *. lia.
  - rewrite decide_False; [done|]. intros [-> _]. done.
Qed.

Lemma cellAt_setCell_eq b r c v :
  board_ok b -> inBounds r c = true -> cellAt (setCell b r c v) r c = v.
Proof.
  intros Hb Hin. pose proof Hin as [? ?]%inBounds_spec.
  rewrite cellAt_setCell by (done || lia). by rewrite decide_True.
Qed.

Lemma cellAt_setCell_ne b r c v r' c' :
  board_ok b -> inBounds r c = true -> 0 <= r' -> 0 <= c' -> (r', c') <> (r, c) ->
  cellAt (setCell b r c v) r' c' = cellAt b r' c'.
Proof.
  intros Hb Hin ? ? Hne. rewrite cellAt_setCell by done.
  rewrite decide_False; [done|]. intros [-> ->]. done.
Qed.

(** ** Elimination *)

Lemma tryEliminate_beaten placed byIdx x y st :
  Elim.tryEliminate placed byIdx x y st =
    if beaten (Elim.board st) placed.1 placed.2 (x, y) then
      Elim.mkSt (setCell (Elim.board st) x y Empty)
        (Elim.highlights st ++ [mkHighlight [(x, y)] byIdx]) (Elim.removed st + 1)
    else st.
Proof.
  unfold Elim.tryEliminate, beaten; simpl.
  destruct (inBounds x y); simpl; [|done].
  destruct (cellAt (Elim.board st) x y) as [| |q t]; try done.
  destruct (bool_decide (q = placed.1)); simpl; [done|].
  destruct (bool_decide (WEAK_TO t = placed.2)); done.
Qed.

(** An elimination never touches a cell of the run being followed. *)
Lemma sameAt_setCell_beaten b p s x y :
  board_ok b -> beaten b p s x = true ->
  sameAt (setCell b x.1 x.2 Empty) (p, s) y = sameAt b (p, s) y.
Proof.
  intros Hb Hbt. unfold sameAt, sameOwnerSym.
  destruct (inBounds y.1 y.2) eqn:Hy; simpl; [|done].
  apply andb_true_iff in Hbt as [Hx Hbt].
  apply inBounds_spec in Hy as Hy'.
  rewrite cellAt_setCell by (done || lia).
  case_decide as Hd; [|done].
  destruct Hd as [-> ->].
  destruct (cellAt b x.1 x.2) as [| |q t]; try done. simpl.
  apply andb_true_iff in Hbt as [Hq _].
  apply negb_true_iff, bool_decide_eq_false in Hq.
  rewrite (bool_decide_eq_false_2 (q = p)); done.
Qed.

Lemma tryEliminate_ok placed byIdx x y st :
  board_ok (Elim.board st) -> board_ok (Elim.board (Elim.tryEliminate placed byIdx x y st)).
Proof.
  intros Hb. rewrite tryEliminate_beaten.
  destruct (beaten _ _ _ _); [|done]. simpl. by apply setCell_ok.
Qed.

Lemma tryEliminate_sameAt p s byIdx x y st z :
  board_ok (Elim.board st) ->
  sameAt (Elim.board (Elim.tryEliminate (p, s) byIdx x y st)) (p, s) z
  = sameAt (Elim.board st) (p, s) z.
Proof.
  intros Hb. rewrite tryEliminate_beaten. simpl.
  destruct (beaten _ _ _ _) eqn:E; [|done]. simpl.
  by apply (sameAt_setCell_beaten _ _ _ (x, y)).
Qed.

(** The backward loop puts in front of [line] cells that lie strictly
    behind its starting point, the nearest one last. *)
Lemma backward_spec fuel b placed dr dc br bc line :
  exists L,
    Elim.backward fuel b placed dr dc br bc line = L ++ line /\
    Forall (fun x => exists j, 0 <= j /\ x = (br - j * dr, bc - j * dc)) L /\
    match fuel with
    | O => L = []
    | S _ => if sameAt b placed (br, bc) then exists L', L = L' ++ [(br, bc)] else L = []
    end.
Proof.
  revert br bc line. induction fuel as [|fuel IH]; intros br bc line; simpl.
  { exists []. done. }
  unfold sameAt; simpl.
  destruct (inBounds br bc && sameOwnerSym b br bc placed) eqn:E.
  - destruct (IH (br - dr) (bc - dc) ((br, bc) :: line)) as (L & -> & HL & _).
    exists (L ++ [(br, bc)]). split_and!.
    + by rewrite <- app_assoc.
    + apply Forall_app. split.
      * eapply Forall_impl; [exact HL|]. intros x (j & Hj & ->).
        exists (j + 1). split; [lia|]. f_equal; lia.
      * apply Forall_singleton. exists 0. split; [lia|]. f_equal; lia.
    + eauto.
  - exists []. done.
Qed.

Lemma forward_spec fuel b placed dr dc fr fc line :
  exists F,
    Elim.forward fuel b placed dr dc fr fc line = line ++ F /\
    Forall (fun x => exists j, 0 <= j /\ x = (fr + j * dr, fc + j * dc)) F /\
    match fuel with
    | O => F = []
    | S _ => if sameAt b placed (fr, fc) then exists F', F = (fr, fc) :: F' else F = []
    end.
Proof.
  revert fr fc line. induction fuel as [|fuel IH]; intros fr fc line; simpl.
  { exists []. by rewrite app_nil_r. }
  unfold sameAt; simpl.
  destruct (inBounds fr fc && sameOwnerSym b fr fc placed) eqn:E.
  - destruct (IH (fr + dr) (fc + dc) (line ++ [(fr, fc)])) as (F & -> & HF & _).
    exists ((fr, fc) :: F). split_and!.
    + by rewrite <- app_assoc.
    + apply Forall_cons. split.
      * exists 0. split; [lia|]. f_equal; lia.
      * eapply Forall_impl; [exact HF|]. intros x (j & Hj & ->).
        exists (j + 1). split; [lia|]. f_equal; lia.
    + eauto.
  - exists []. by rewrite app_nil_r.
Qed.

Lemma pairScan_cons2 placed byIdx r c dr dc a b rest st :
  Elim.pairScan placed byIdx r c dr dc (a :: b :: rest) st =
    if (bool_decide (a.1 = r) && bool_decide (a.2 = c))
       || (bool_decide (b.1 = r) && bool_decide (b.2 = c))
    then attempts placed byIdx st [(a.1 - dr, a.2 - dc); (b.1 + dr, b.2 + dc)]
    else Elim.pairScan placed byIdx r c dr dc (b :: rest) st.
Proof. reflexivity. Qed.

Lemma isNew_false (r c : Z) (y : Pos) :
  y <> (r, c) -> bool_decide (y.1 = r) && bool_decide (y.2 = c) = false.
Proof.
  destruct y as [y1 y2]. intros Hy. simpl. apply andb_false_iff.
  destruct (decide (y1 = r)) as [->|]; [right|left];
    apply bool_decide_eq_false_2; congruence.
Qed.

Lemma isNew_true (r c : Z) :
  bool_decide ((r, c).1 = r) && bool_decide ((r, c).2 = c) = true.
Proof. simpl. by rewrite !bool_decide_eq_true_2. Qed.

Lemma pairScan_behind placed byIdx r c dr dc L a rest st :
  Forall (fun x => x <> (r, c)) L -> a <> (r, c) ->
  Elim.pairScan placed byIdx r c dr dc (L ++ a :: (r, c) :: rest) st =
    attempts placed byIdx st [(a.1 - dr, a.2 - dc); (r + dr, c + dc)].
Proof.
  intros HL Ha. induction L as [|x L IH].
  - change ([] ++ a :: (r, c) :: rest) with (a :: (r, c) :: rest).
    rewrite pairScan_cons2, isNew_true, orb_true_r. done.
  - apply Forall_cons in HL as [Hx HL]. specialize (IH HL).
    destruct L as [|y L].
    + change ([x] ++ a :: (r, c) :: rest) with (x :: a :: (r, c) :: rest).
      rewrite pairScan_cons2, (isNew_false r c x), (isNew_false r c a) by done.
      exact IH.
    + apply Forall_cons in HL as [Hy _].
      change ((x :: y :: L) ++ a :: (r, c) :: rest)
        with (x :: y :: (L ++ a :: (r, c) :: rest)).
      rewrite pairScan_cons2, (isNew_false r c x), (isNew_false r c y) by done.
      exact IH.
Qed.

Lemma pairScan_ahead placed byIdx r c dr dc f rest st :
  Elim.pairScan placed byIdx r c dr dc ((r, c) :: f :: rest) st =
    attempts placed byIdx st [(r - dr, c - dc); (f.1 + dr, f.2 + dc)].
Proof. by rewrite pairScan_cons2, isNew_true. Qed.

(** One direction attempts exactly its candidates. *)
Lemma direction_candidates p s byIdx r c st d :
  d <> (0, 0) ->
  Elim.direction (p, s) byIdx r c st d =
    attempts (p, s) byIdx st (candidates (Elim.board st) p s r c d).
Proof.
  destruct d as [dr dc]. intros Hd. unfold Elim.direction, candidates, Elim.fuel.
  cbn [fst snd]. change (Z.to_nat BOARD_SIZE) with 8%nat.
  destruct (backward_spec 8 (Elim.board st) (p, s) dr dc (r - dr) (c - dc) [(r, c)])
    as (L & -> & HL & Hlast).
  destruct (forward_spec 8 (Elim.board st) (p, s) dr dc (r + dr) (c + dc) (L ++ [(r, c)]))
    as (F & -> & HF & Hfirst).
  destruct (sameAt (Elim.board st) (p, s) (r - dr, c - dc)).
  - destruct Hlast as [L' ->]. rewrite <- !app_assoc. simpl.
    rewrite pairScan_behind.
    + simpl. replace (r - dr - dr) with (r - 2 * dr) by lia.
      by replace (c - dc - dc) with (c - 2 * dc) by lia.
    + apply Forall_app in HL as [HL _].
      eapply Forall_impl; [exact HL|]. intros x (j & Hj & ->) [=].
      apply Hd. f_equal; nia.
    + intros [=]. apply Hd. f_equal; lia.
  - subst L. cbn [app]. destruct (sameAt (Elim.board st) (p, s) (r + dr, c + dc)).
    + destruct Hfirst as [F' ->]. cbn [app]. rewrite pairScan_ahead. simpl.
      replace (r + dr + dr) with (r + 2 * dr) by lia.
      by replace (c + dc + dc) with (c + 2 * dc) by lia.
    + subst F. done.
Qed.

Lemma attempts_ok placed byIdx st xs :
  board_ok (Elim.board st) -> board_ok (Elim.board (attempts placed byIdx st xs)).
Proof.
  revert st. induction xs as [|x xs IH]; intros st Hb; [done|].
  apply IH. by apply tryEliminate_ok.
Qed.

Lemma attempts_sameAt p s byIdx st xs z :
  board_ok (Elim.board st) ->
  sameAt (Elim.board (attempts (p, s) byIdx st xs)) (p, s) z = sameAt (Elim.board st) (p, s) z.
Proof.
  revert st. induction xs as [|x xs IH]; intros st Hb; [done|].
  change (attempts (p, s) byIdx st (x :: xs))
    with (attempts (p, s) byIdx (Elim.tryEliminate (p, s) byIdx x.1 x.2 st) xs).
  rewrite IH by by apply tryEliminate_ok.
  by apply tryEliminate_sameAt.
Qed.

Lemma candidates_ext b b' p s r c d :
  (forall z, sameAt b' (p, s) z = sameAt b (p, s) z) ->
  candidates b' p s r c d = candidates b p s r c d.
Proof. intros H. unfold candidates. by rewrite !H. Qed.

(** The whole pass attempts the candidates of the four directions, all
    of them read off the board as it was when the pass began. *)
Lemma resolve_attempts b r c byIdx p s :
  board_ok b -> cellAt b r c = Piece p s ->
  Elim.resolveEliminationsFrom b r c byIdx =
    attempts (p, s) byIdx (Elim.mkSt b [] 0) (d ← deltas; candidates b p s r c d).
Proof.
  intros Hb Hcell. unfold Elim.resolveEliminationsFrom. rewrite Hcell.
  assert (forall ds st, Forall (fun d => d <> (0, 0)) ds -> board_ok (Elim.board st) ->
            (forall z, sameAt (Elim.board st) (p, s) z = sameAt b (p, s) z) ->
            foldl (Elim.direction (p, s) byIdx r c) st ds =
              attempts (p, s) byIdx st (d ← ds; candidates b p s r c d)) as Hfold.
  { induction ds as [|d ds IH]; intros st Hds Hst Hsame; simpl; [done|].
    apply Forall_cons in Hds as [Hd Hds].
    rewrite direction_candidates by done.
    rewrite (candidates_ext b) by done.
    unfold attempts at 2. rewrite foldl_app. fold (attempts (p, s) byIdx st (candidates b p s r c d)).
    rewrite IH; [done|done|by apply attempts_ok|].
    intros z. rewrite attempts_sameAt by done. apply Hsame. }
  apply Hfold; [|done|done].
  unfold deltas. repeat constructor; done.
Qed.

Lemma beaten_tryEliminate_ne p s byIdx x y st :
  board_ok (Elim.board st) -> y <> x ->
  beaten (Elim.board (Elim.tryEliminate (p, s) byIdx x.1 x.2 st)) p s y
  = beaten (Elim.board st) p s y.
Proof.
  intros Hb Hne. rewrite tryEliminate_beaten. cbn [fst snd].
  destruct (beaten (Elim.board st) p s (x.1, x.2)) eqn:E; [|done].
  cbn [Elim.board]. unfold beaten.
  destruct (inBounds y.1 y.2) eqn:Hy; [|done]. cbn [andb].
  apply andb_true_iff in E as [Hx _]. cbn [fst snd] in Hx.
  apply inBounds_spec in Hy as Hy'.
  rewrite cellAt_setCell_ne; [done|done|done|lia|lia|].
  destruct x, y. simpl. congruence.
Qed.

Lemma filter_ext_elem {A} (P1 P2 : A -> Prop)
    `{!forall x, Decision (P1 x), !forall x, Decision (P2 x)} (l : list A) :
  (forall x, x ∈ l -> P1 x <-> P2 x) -> filter P1 l = filter P2 l.
Proof.
  induction l as [|a l IH]; intros Hext; [done|].
  rewrite !filter_cons.
  rewrite IH by (intros x Hx; apply Hext; by right).
  assert (P1 a <-> P2 a) as Ha by (apply Hext; by left).
  destruct (decide (P1 a)), (decide (P2 a)); first [done | tauto].
Qed.

(** A sequence of attempts on distinct cells empties exactly those that
    are beaten, and counts them. *)
Lemma attempts_spec p s byIdx xs st :
  board_ok (Elim.board st) -> NoDup xs ->
  (forall y, inBounds y.1 y.2 = true ->
     cellAt (Elim.board (attempts (p, s) byIdx st xs)) y.1 y.2 =
       if bool_decide (y ∈ xs) && beaten (Elim.board st) p s y then Empty
       else cellAt (Elim.board st) y.1 y.2) /\
  Elim.removed (attempts (p, s) byIdx st xs) =
    Elim.removed st
    + Z.of_nat (length (filter (fun x => beaten (Elim.board st) p s x = true) xs)).
Proof.
  revert st. induction xs as [|x xs IH]; intros st Hb Hnd.
  { split; [done|]. simpl. lia. }
  apply NoDup_cons in Hnd as [Hx Hnd].
  change (attempts (p, s) byIdx st (x :: xs))
    with (attempts (p, s) byIdx (Elim.tryEliminate (p, s) byIdx x.1 x.2 st) xs).
  set (st1 := Elim.tryEliminate (p, s) byIdx x.1 x.2 st).
  destruct (IH st1) as [IHc IHr]; [by apply tryEliminate_ok|done|].
  assert (forall y, y ∈ xs -> beaten (Elim.board st1) p s y = beaten (Elim.board st) p s y)
    as Hsame.
  { intros y Hy. apply beaten_tryEliminate_ne; [done|]. intros ->. done. }
  split.
  - intros y Hy. rewrite IHc by done.
    destruct (decide (y ∈ xs)) as [Hin|Hnin].
    + rewrite !bool_decide_eq_true_2 by (done || by apply elem_of_cons; right).
      rewrite Hsame by done. cbn [andb].
      destruct (beaten (Elim.board st) p s y) eqn:E; [done|].
      subst st1. rewrite tryEliminate_beaten. cbn [fst snd].
      destruct (beaten (Elim.board st) p s (x.1, x.2)) eqn:Ex; [|done].
      cbn [Elim.board]. apply andb_true_iff in Ex as [Hxin _]. cbn [fst snd] in Hxin.
      apply inBounds_spec in Hy as Hy'.
      rewrite cellAt_setCell_ne; [done|done|done|lia|lia|].
      intros Heq. apply Hx. destruct x, y; simpl in *. by simplify_eq.
    + rewrite (bool_decide_eq_false_2 (y ∈ xs)) by done. cbn [andb].
      subst st1. rewrite tryEliminate_beaten. cbn [fst snd].
      destruct (decide (y = x)) as [->|Hne].
      * rewrite bool_decide_eq_true_2 by (apply elem_of_cons; by left). cbn [andb].
        replace (x.1, x.2) with x by by destruct x.
        destruct (beaten (Elim.board st) p s x) eqn:Ex; [|done].
        cbn [Elim.board]. by rewrite cellAt_setCell_eq.
      * rewrite bool_decide_eq_false_2
          by (intros [?|?]%elem_of_cons; done). cbn [andb].
        destruct (beaten (Elim.board st) p s (x.1, x.2)) eqn:Ex; [|done].
        cbn [Elim.board]. apply andb_true_iff in Ex as [Hxin _]. cbn [fst snd] in Hxin.
        apply inBounds_spec in Hy as Hy'.
        rewrite cellAt_setCell_ne; [done|done|done|lia|lia|].
        destruct x, y; simpl in *. congruence.
  - rewrite IHr.
    assert (filter (fun x => beaten (Elim.board st1) p s x = true) xs
            = filter (fun x => beaten (Elim.board st) p s x = true) xs) as ->.
    { apply filter_ext_elem. intros y Hy. by rewrite Hsame. }
    rewrite filter_cons. subst st1. rewrite tryEliminate_beaten. cbn [fst snd].
    replace (x.1, x.2) with x by by destruct x.
    destruct (decide (beaten (Elim.board st) p s x = true)) as [E|E].
    + rewrite E. cbn [Elim.removed length]. lia.
    + apply not_true_is_false in E. rewrite E. lia.
Qed.

Lemma around_NoDup r c : NoDup (around r c).
Proof.
  unfold around, deltas. cbn [mbind list_bind app fst snd].
  repeat (apply NoDup_cons; split;
    [ let H := fresh in
      intros H;
      repeat (apply elem_of_cons in H as [H|H]; [injection H; lia|]);
      by apply elem_of_nil in H
    | ]).
  apply NoDup_nil_2.
Qed.

Lemma candidates_sublist b p s r c d :
  candidates b p s r c d `sublist_of`
    [(r - 2 * d.1, c - 2 * d.2); (r - d.1, c - d.2);
     (r + d.1, c + d.2); (r + 2 * d.1, c + 2 * d.2)].
Proof.
  unfold candidates.
  destruct (sameAt b (p, s) (r - d.1, c - d.2)); [|destruct (sameAt b (p, s) (r + d.1, c + d.2))].
  - apply sublist_skip, sublist_cons, sublist_skip, sublist_cons, sublist_nil.
  - apply sublist_cons, sublist_skip, sublist_cons, sublist_skip, sublist_nil.
  - apply sublist_nil_l.
Qed.

Lemma candidates_length b p s r c d : (length (candidates b p s r c d) <= 2)%nat.
Proof.
  unfold candidates.
  destruct (sameAt b (p, s) (r - d.1, c - d.2)); [|destruct (sameAt b (p, s) (r + d.1, c + d.2))];
    simpl; lia.
Qed.

Lemma all_candidates_NoDup b p s r c : NoDup (d ← deltas; candidates b p s r c d).
Proof.
  eapply sublist_NoDup; [apply (around_NoDup r c)|].
  unfold around, deltas. cbn [mbind list_bind].
  repeat (apply sublist_app; [apply candidates_sublist|]). done.
Qed.

Lemma all_candidates_length b p s r c :
  (length (d ← deltas; candidates b p s r c d) <= 8)%nat.
Proof.
  unfold deltas. cbn [mbind list_bind]. rewrite !length_app. simpl.
  pose proof (candidates_length b p s r c (0, 1)).
  pose proof (candidates_length b p s r c (1, 0)).
  pose proof (candidates_length b p s r c (1, 1)).
  pose proof (candidates_length b p s r c (1, -1)).
  lia.
Qed.

(** What the elimination pass does to a board on which [(r, c)] holds
    the piece [(p, s)]. *)
Lemma resolve_spec b r c byIdx p s :
  board_ok b -> cellAt b r c = Piece p s ->
  let out := Elim.resolveEliminationsFrom b r c byIdx in
  board_ok (Elim.board out) /\
  (forall y, inBounds y.1 y.2 = true ->
     cellAt (Elim.board out) y.1 y.2 =
       if bool_decide (y ∈ eliminated b p s r c) then Empty else cellAt b y.1 y.2) /\
  Elim.removed out = Z.of_nat (length (eliminated b p s r c)).
Proof.
  intros Hb Hcell out. subst out. rewrite (resolve_attempts b r c byIdx p s) by done.
  split; [by apply attempts_ok|].
  destruct (attempts_spec p s byIdx (d ← deltas; candidates b p s r c d) (Elim.mkSt b [] 0))
    as [Hc Hr]; [done|apply all_candidates_NoDup|].
  split.
  - intros y Hy. rewrite Hc by done. cbn [Elim.board]. unfold eliminated.
    destruct (decide (y ∈ (d ← deltas; candidates b p s r c d))) as [Hin|Hnin].
    + rewrite (bool_decide_eq_true_2 _ Hin). cbn [andb].
      destruct (beaten b p s y) eqn:E.
      * rewrite bool_decide_eq_true_2; [done|]. apply list_elem_of_filter. done.
      * rewrite bool_decide_eq_false_2; [done|].
        intros [Hbt _]%list_elem_of_filter. congruence.
    + rewrite (bool_decide_eq_false_2 _ Hnin). cbn [andb].
      rewrite bool_decide_eq_false_2; [done|].
      intros [_ ?]%list_elem_of_filter. done.
  - rewrite Hr. cbn [Elim.removed Elim.board]. unfold eliminated. lia.
Qed.

(** ** The placement handler, step by step *)

Lemma placePiece_accepts room sock r c sym p s :
  accepts room sock r c sym p s ->
  placePiece room sock r c sym =
    conclude (scorePlacement (place room p r c s) p r c) p.
Proof.
  intros (Hover & Hsock & Hturn & Hsym & Hin & Hcell & Hstock).
  unfold placePiece. rewrite Hover, Hsock, Hsym, Hin, Hcell, Hstock.
  by rewrite bool_decide_eq_true_2.
Qed.

Lemma conclude_not_Ignored room p : conclude room p <> Ignored.
Proof.
  unfold conclude, emitRoomStateOnce.
  repeat (case_match; try done).
Qed.

Lemma placePiece_not_Ignored room sock r c sym :
  placePiece room sock r c sym <> Ignored ->
  exists p s, accepts room sock r c sym p s.
Proof.
  unfold placePiece, accepts. intros H.
  destruct (gameOver room); [done|].
  destruct (findSocket sock (players room)) as [p|]; [|done].
  destruct (bool_decide (p = turn room)) eqn:Ht; [|done].
  apply bool_decide_eq_true in Ht.
  destruct (symOfKey sym) as [s|]; [|done].
  destruct (inBounds r c); [|done].
  destruct (bool_decide (cellAt (board room) r c = Empty)) eqn:Hc; [|done].
  apply bool_decide_eq_true in Hc.
  destruct (num_leb (stockOr0 (stock room) p s) (Int 0)) eqn:Hs; [done|].
  exists p, s. done.
Qed.

Lemma accepts_fun room sock r c sym p s p' s' :
  accepts room sock r c sym p s -> accepts room sock r c sym p' s' -> p = p' /\ s = s'.
Proof.
  intros (_ & H1 & _ & H2 & _) (_ & H1' & _ & H2' & _). split; congruence.
Qed.

(** [conclude] only writes [gameOver], [message], [turn] and
    [highlights]. *)
Lemma conclude_frame room p room' :
  roomAfter room (conclude room p) = Some room' ->
  settings room' = settings room /\ players room' = players room /\
  spectators room' = spectators room /\ lastPlayed room' = lastPlayed room /\
  scores room' = scores room /\ stock room' = stock room /\
  board room' = board room /\ started room' = started room.
Proof.
  unfold conclude, emitRoomStateOnce.
  repeat case_match; simpl; intros [= <-]; done.
Qed.

Lemma scorePlacement_board room p r c :
  board (scorePlacement room p r c) =
    Elim.board (Elim.resolveEliminationsFrom (board room) r c p).
Proof. unfold scorePlacement. repeat case_match; repeat split; reflexivity. Qed.

Lemma scorePlacement_scores room p r c :
  scores (scorePlacement room p r c) =
    credit p
      (Tri.points
         (Tri.scoreThreeInRow
            (Elim.board (Elim.resolveEliminationsFrom (board room) r c p)) r c p))
      (credit p (Elim.removed (Elim.resolveEliminationsFrom (board room) r c p))
         (foldl award (scores room) (Mis.awarded (Mis.scoreMisplacement (board room) r c)))).
Proof.
  unfold scorePlacement, credit. cbv zeta.
  destruct (0 <? Elim.removed _);
    cbn [board scores set_scores set_board set_highlights];
    destruct (0 <? Tri.points _); reflexivity.
Qed.

Lemma scorePlacement_frame room p r c :
  settings (scorePlacement room p r c) = settings room /\
  players (scorePlacement room p r c) = players room /\
  spectators (scorePlacement room p r c) = spectators room /\
  turn (scorePlacement room p r c) = turn room /\
  lastPlayed (scorePlacement room p r c) = lastPlayed room /\
  stock (scorePlacement room p r c) = stock room /\
  gameOver (scorePlacement room p r c) = gameOver room /\
  message (scorePlacement room p r c) = message room /\
  started (scorePlacement room p r c) = started room.
Proof. unfold scorePlacement. repeat case_match; repeat split; reflexivity. Qed.

Lemma place_board room p r c s :
  board (place room p r c s) = setCell (board room) r c (Piece p s).
Proof. reflexivity. Qed.

Lemma place_scores room p r c s : scores (place room p r c s) = scores room.
Proof. reflexivity. Qed.

(** What an accepted placement leaves in the room, whether the handler
    ends by sending the state or by throwing. *)
Lemma placePiece_after room sock r c sym p s room' :
  accepts room sock r c sym p s ->
  roomAfter room (placePiece room sock r c sym) = Some room' ->
  let b := setCell (board room) r c (Piece p s) in
  let out := Elim.resolveEliminationsFrom b r c p in
  board room' = Elim.board out /\
  scores room' =
    credit p (Tri.points (Tri.scoreThreeInRow (Elim.board out) r c p))
      (credit p (Elim.removed out)
         (foldl award (scores room) (Mis.awarded (Mis.scoreMisplacement b r c)))) /\
  stock room' = stock (place room p r c s) /\
  players room' = players room /\ spectators room' = spectators room /\
  settings room' = settings room /\ started room' = started room.
Proof.
  intros Hacc Hafter b out.
  rewrite (placePiece_accepts _ _ _ _ _ _ _ Hacc) in Hafter.
  set (scored := scorePlacement (place room p r c s) p r c) in *.
  assert (roomAfter scored (conclude scored p) = Some room') as Hafter'.
  { pose proof (conclude_not_Ignored scored p).
    destruct (conclude scored p); done. }
  apply conclude_frame in Hafter' as (Hset & Hpl & Hsp & _ & Hsc & Hst & Hb & Hstart).
  pose proof (scorePlacement_frame (place room p r c s) p r c)
    as (Fset & Fpl & Fsp & _ & _ & Fst & _ & _ & Fstart).
  fold scored in Fset, Fpl, Fsp, Fst, Fstart.
  split_and!.
  - rewrite Hb. apply scorePlacement_board.
  - rewrite Hsc. apply scorePlacement_scores.
  - by rewrite Hst, Fst.
  - by rewrite Hpl, Fpl.
  - by rewrite Hsp, Fsp.
  - by rewrite Hset, Fset.
  - by rewrite Hstart, Fstart.
Qed.

Lemma placePiece_Updated room sock r c sym flash room' :
  placePiece room sock r c sym = Updated flash room' ->
  exists p s, accepts room sock r c sym p s /\
    roomAfter room (placePiece room sock r c sym) = Some room'.
Proof.
  intros H. destruct (placePiece_not_Ignored room sock r c sym) as (p & s & Hacc).
  { by rewrite H. }
  exists p, s. split; [done|]. by rewrite H.
Qed.

Lemma beaten_not_own b p s t y :
  cellAt b y.1 y.2 = Piece p t -> beaten b p s y = false.
Proof.
  intros H. unfold beaten. rewrite H.
  rewrite (bool_decide_eq_true_2 (p = p)) by done. simpl. apply andb_false_r.
Qed.

Lemma game2_ok : board_ok (board game2).
Proof. split; [reflexivity|]. vm_compute. repeat constructor. Qed.

Lemma lonePiece_ok : board_ok (board lonePiece).
Proof. split; [vm_compute; reflexivity|]. vm_compute. repeat constructor. Qed.

Lemma pairReady_ok : board_ok (board pairReady).
Proof. split; [vm_compute; reflexivity|]. vm_compute. repeat constructor. Qed.

(** C1, as stated, fails: Ann plays Rock at [(0, 1)], next to Bob's
    Scissors at [(0, 0)].  The horizontal run through [(0, 1)] is that
    single cell, the cell just before it is [(0, 0)], on the board, not a
    blocker, of another owner and with a symbol that Rock defeats; yet the
    placement succeeds, the piece stays and nothing is credited. *)
Lemma C1_lone_piece_removes_nothing :
  let b := setCell (board lonePiece) 0 1 (Piece 0 Rock) in
  exists flash room',
    placePiece lonePiece "a" 0 1 "R" = Updated flash room' /\
    maximalRun b (0%nat, Rock) 0 1 (0, 1) 0 0 /\
    beaten b 0 Rock (0 - (0 + 1) * 0, 1 - (0 + 1) * 1) = true /\
    cellAt (board room') 0 0 = Piece 1 Scissors /\
    scores room' = scores lonePiece.
Proof.
  intros b. eexists _, _. split; [vm_compute; reflexivity|].
  split; [|split; [|split]]; try (vm_compute; reflexivity).
  unfold maximalRun. split; [lia|]. split; [lia|]. split.
  - intros j ? ?. lia.
  - split; vm_compute; reflexivity.
Qed.

(** ** The end of a placement *)

Lemma firstOutOfStock_Some room i :
  firstOutOfStock room = Some i <->
  outOfStock room i /\ forall j, (j < i)%nat -> ~ outOfStock room j.
Proof.
  unfold firstOutOfStock, outOfStock. split.
  - intros H. apply fmap_Some in H as ([k x] & Hfind & ->). simpl.
    apply list_find_Some in Hfind as (Hk & Hx & Hmin).
    apply lookup_seq in Hk as [-> Hlt]. simpl in *. split; [done|].
    intros j Hj [_ Hout]. eapply (Hmin j j); [|done|done].
    apply lookup_seq. split; [done|lia].
  - intros [[Hlt Hout] Hmin]. apply fmap_Some. exists (i, i). split; [|done].
    apply list_find_Some. split_and!; [by apply lookup_seq|done|].
    intros j y Hy Hj Hout'. apply lookup_seq in Hy as [-> ?]. simpl in *.
    apply (Hmin j Hj). split; [lia|done].
Qed.

Lemma firstOutOfStock_None room :
  firstOutOfStock room = None <-> forall i, ~ outOfStock room i.
Proof.
  unfold firstOutOfStock, outOfStock. rewrite fmap_None, list_find_None, Forall_forall.
  split.
  - intros H i [Hlt Hout]. apply (H i); [|done]. apply elem_of_seq. lia.
  - intros H i Hi Hout. apply (H i). split; [|done].
    apply elem_of_seq in Hi. lia.
Qed.

Lemma firstOutOfStock_ext room room' :
  players room' = players room -> stock room' = stock room ->
  firstOutOfStock room' = firstOutOfStock room.
Proof. intros Hp Hs. unfold firstOutOfStock. by rewrite Hp, Hs. Qed.

(** The four ways [conclude] ends when it does not throw. *)
Lemma conclude_Updated room p flash room' :
  conclude room p = Updated flash room' ->
  flash = highlights room /\
  let won := num_geb (scoreOr0 (scores room) p) (pointsToWin (settings room)) in
  (won = true /\
   room' = set_highlights []
             (set_message (MsgWinsByPoints (displayName (players room) p)
                             (pointsToWin (settings room)))
                (set_gameOver true room))) \/
  (won = false /\ exists i w ws,
     firstOutOfStock room = Some i /\ evaluateWinners (scores room) = w :: ws /\
     room' = set_highlights []
               (set_message (tilesMessage (displayName (players room) i) w ws)
                  (set_gameOver true room))) \/
  (won = false /\ firstOutOfStock room = None /\ boardFull (board room) = true /\
   exists w ws, evaluateWinners (scores room) = w :: ws /\
     room' = set_highlights [] (set_message (fullMessage w ws) (set_gameOver true room))) \/
  (won = false /\ firstOutOfStock room = None /\ boardFull (board room) = false /\
   room' = set_highlights []
             (set_turn ((turn room + 1) mod length (players room))%nat room)).
Proof.
  unfold conclude, emitRoomStateOnce. intros H.
  destruct (num_geb (scoreOr0 (scores room) p) (pointsToWin (settings room))) eqn:Hwon.
  { injection H as <- <-. split; [done|]. left. done. }
  destruct (firstOutOfStock room) as [i|] eqn:Hout.
  { cbn [scores set_gameOver] in H.
    destruct (evaluateWinners (scores room)) as [|w [|w2 ws]] eqn:Hw; [done| |];
      injection H as <- <-; (split; [done|]); right; left;
      (split; [done|]); eexists i, w, _; done. }
  destruct (boardFull (board room)) eqn:Hfull.
  { cbn [scores set_gameOver] in H.
    destruct (evaluateWinners (scores room)) as [|w [|w2 ws]] eqn:Hw; [done| |];
      injection H as <- <-; (split; [done|]); right; right; left;
      (split_and!; try done); eexists w, _; done. }
  injection H as <- <-. split; [done|]. right; right; right. done.
Qed.

(** [evaluateWinners] on integer scores. *)
Lemma spreadMax_from a zs :
  exists m,
    foldl (fun acc x => Math_max acc (default NaN x)) (Int a) (intScores zs) = Int m /\
    (m = a \/ m ∈ zs) /\ a <= m /\ forall z, z ∈ zs -> z <= m.
Proof.
  revert a. induction zs as [|z zs IH]; intros a; simpl.
  { exists a. split_and!; [done|by left|lia|]. intros z Hz. by apply elem_of_nil in Hz. }
  destruct (IH (Z.max a z)) as (m & -> & Hm & Hle & Hall).
  exists m. split_and!; [done| |lia|].
  - destruct Hm as [->|Hm]; [|right; by right].
    destruct (Z.max_spec a z) as [[_ ->]|[_ ->]]; [right; by left|by left].
  - intros z' [->|Hz']%elem_of_cons; [lia|by apply Hall].
Qed.

Lemma spreadMax_ints zs :
  zs <> [] ->
  exists m, spreadMax (intScores zs) = Int m /\ m ∈ zs /\ forall z, z ∈ zs -> z <= m.
Proof.
  destruct zs as [|z zs]; [done|]. intros _. unfold spreadMax. simpl.
  destruct (spreadMax_from z zs) as (m & -> & Hm & Hle & Hall).
  exists m. split_and!; [done| |].
  - destruct Hm as [->|Hm]; [by left|by right].
  - intros z' [->|Hz']%elem_of_cons; [lia|by apply Hall].
Qed.

Lemma winnersFrom_spec arr i0 max w :
  w ∈ winnersFrom i0 max arr <->
  exists k n, arr !! k = Some (Some n) /\ num_eqb n max = true /\
    w = mkWinner (i0 + k) (seatLabel (i0 + k)) n.
Proof.
  revert i0. induction arr as [|x arr IH]; intros i0; simpl.
  { split; [by intros ?%elem_of_nil|]. intros (k & n & Hk & _). done. }
  assert ((exists k n, (x :: arr) !! k = Some (Some n) /\ num_eqb n max = true /\
             w = mkWinner (i0 + k) (seatLabel (i0 + k)) n) <->
          (exists n, x = Some n /\ num_eqb n max = true /\
             w = mkWinner i0 (seatLabel i0) n) \/
          w ∈ winnersFrom (S i0) max arr) as Hsplit.
  { rewrite IH. split.
    - intros ([|k] & n & Hk & Hn & ->).
      + left. exists n. simpl in Hk. rewrite Nat.add_0_r. injection Hk as ->. done.
      + right. exists k, n. simpl in Hk. rewrite <- Nat.add_succ_comm. done.
    - intros [(n & -> & Hn & ->)|(k & n & Hk & Hn & ->)].
      + exists 0%nat, n. rewrite Nat.add_0_r. done.
      + exists (S k), n. rewrite <- Nat.add_succ_comm. done. }
  rewrite Hsplit. destruct x as [n|].
  - destruct (num_eqb n max) eqn:E.
    + rewrite elem_of_cons. split.
      * intros [->|?]; [left; eauto|by right].
      * intros [(n0 & [= <-] & _ & ->)|?]; [by left|by right].
    + split; [by right|]. intros [(n0 & [= <-] & Hn & _)|?]; [congruence|done].
  - split; [by right|]. intros [(n0 & ? & _)|?]; done.
Qed.

(** On integer scores the winners are the seats that hold the greatest
    score, each with its label and that score. *)
Lemma evaluateWinners_ints zs w :
  w ∈ evaluateWinners (intScores zs) <->
  exists i z, zs !! i = Some z /\ (forall z', z' ∈ zs -> z' <= z) /\
    w = mkWinner i (seatLabel i) (Int z).
Proof.
  unfold evaluateWinners. rewrite winnersFrom_spec.
  destruct (decide (zs = [])) as [->|Hne].
  { split; [intros (k & n & Hk & _)|intros (i & z & Hi & _)]; done. }
  destruct (spreadMax_ints zs Hne) as (m & -> & Hm & Hall).
  unfold intScores. split.
  - intros (k & n & Hk & Hn & ->). rewrite list_lookup_fmap in Hk.
    destruct (zs !! k) as [z|] eqn:Hz; [|done]. simpl in Hk. injection Hk as <-.
    simpl in Hn. apply Z.eqb_eq in Hn as ->. exists k, m. done.
  - intros (i & z & Hi & Hmax & ->). exists i, (Int z). rewrite list_lookup_fmap, Hi.
    split_and!; [done| |done]. simpl. apply Z.eqb_eq.
    apply list_elem_of_lookup_2 in Hi. specialize (Hall z Hi). specialize (Hmax m Hm). lia.
Qed.

(** What [conclude] leaves, read off the room it returns. *)
Lemma conclude_outcome room p flash room' :
  conclude room p = Updated flash room' ->
  let won := num_geb (scoreOr0 (scores room') p) (pointsToWin (settings room')) in
  (won = true ->
     gameOver room' = true /\ turn room' = turn room /\
     message room' =
       MsgWinsByPoints (displayName (players room') p) (pointsToWin (settings room'))) /\
  (won = false -> forall i,
     outOfStock room' i -> (forall j, (j < i)%nat -> ~ outOfStock room' j) ->
     gameOver room' = true /\ turn room' = turn room /\
     exists w ws, evaluateWinners (scores room') = w :: ws /\
       message room' = tilesMessage (displayName (players room') i) w ws) /\
  (won = false -> (forall i, ~ outOfStock room' i) -> boardFull (board room') = true ->
     gameOver room' = true /\ turn room' = turn room /\
     exists w ws, evaluateWinners (scores room') = w :: ws /\
       message room' = fullMessage w ws) /\
  (won = false -> (forall i, ~ outOfStock room' i) -> boardFull (board room') = false ->
     gameOver room' = gameOver room /\ message room' = message room /\
     turn room' = ((turn room + 1) mod length (players room'))%nat).
Proof.
  intros Hplace won.
  assert (roomAfter room (conclude room p) = Some room') as Hafter by by rewrite Hplace.
  apply conclude_frame in Hafter as (Hset & Hpl & _ & _ & Hsc & Hst & Hb & _).
  assert (firstOutOfStock room' = firstOutOfStock room) as Hfirst
    by by apply firstOutOfStock_ext.
  apply conclude_Updated in Hplace as [_ Hcases]. cbv zeta in Hcases.
  rewrite <- Hsc, <- Hset, <- Hfirst, <- Hb, <- Hpl in Hcases. fold won in Hcases.
  assert (forall x : Room, room' = x ->
            gameOver room' = gameOver x /\ turn room' = turn x /\ message room' = message x)
    as Hproj by (by intros x ->).
  split_and!.
  - intros Hwon. destruct Hcases as [[_ Hr]|[[E _]|[[E _]|[E _]]]]; [|congruence..].
    apply Hproj in Hr as (Hg & Ht & Hm).
    split_and!; [rewrite Hg|rewrite Ht|rewrite Hm]; reflexivity.
  - intros Hwon i Hi Hmin.
    assert (firstOutOfStock room' = Some i) as Hi' by by apply firstOutOfStock_Some.
    destruct Hcases as [[E _]|[(_ & i' & w & ws & Hi'' & Hw & Hr)|[(_ & E & _)|(_ & E & _)]]];
      [congruence| |congruence..].
    rewrite Hi' in Hi''. injection Hi'' as <-.
    apply Hproj in Hr as (Hg & Ht & Hm).
    split_and!; [rewrite Hg; reflexivity|rewrite Ht; reflexivity|].
    exists w, ws. split; [exact Hw|rewrite Hm; reflexivity].
  - intros Hwon Hnone Hfull.
    assert (firstOutOfStock room' = None) as Hn by by apply firstOutOfStock_None.
    destruct Hcases as [[E _]|[(_ & i' & w & ws & E & _)|[(_ & _ & _ & w & ws & Hw & Hr)|(_ & _ & E & _)]]];
      [congruence|congruence| |congruence].
    apply Hproj in Hr as (Hg & Ht & Hm).
    split_and!; [rewrite Hg; reflexivity|rewrite Ht; reflexivity|].
    exists w, ws. split; [exact Hw|rewrite Hm; reflexivity].
  - intros Hwon Hnone Hfull.
    assert (firstOutOfStock room' = None) as Hn by by apply firstOutOfStock_None.
    destruct Hcases as [[E _]|[(_ & i' & w & ws & E & _)|[(_ & _ & E & _)|(_ & _ & _ & Hr)]]];
      [congruence|congruence|congruence|].
    apply Hproj in Hr as (Hg & Ht & Hm).
    split_and!; [rewrite Hg|rewrite Hm|rewrite Ht]; reflexivity.
Qed.

(** The scoring passes and the placement before them leave the turn, the
    flag [gameOver] and the message alone. *)
Lemma scored_frame room p r c s :
  turn (scorePlacement (place room p r c s) p r c) = turn room /\
  gameOver (scorePlacement (place room p r c s) p r c) = gameOver room /\
  message (scorePlacement (place room p r c s) p r c) = message room.
Proof.
  pose proof (scorePlacement_frame (place room p r c s) p r c)
    as (_ & _ & _ & Fturn & _ & _ & Fover & Fmsg & _).
  rewrite Fturn, Fover, Fmsg. done.
Qed.

(** After a placement whose handler returns, the end conditions have been
    tried in this order, on the room as the scoring left it: the score of
    [p] has reached [pointsToWin] and [p] is announced as the winner; else a
    seat has no tile left; else the board is full, and in both cases the
    winners announced are the entries of the scores that hold the greatest
    score, named by their index; else the turn moves on by one modulo the
    number of players.  In the first three cases [gameOver] is set, a
    result message is set and the turn stays. *)
Theorem end_conditions_in_order room sock r c sym flash room' p :
  placePiece room sock r c sym = Updated flash room' ->
  findSocket sock (players room) = Some p ->
  let won := num_geb (scoreOr0 (scores room') p) (pointsToWin (settings room')) in
  (won = true ->
     gameOver room' = true /\ turn room' = turn room /\
     message room' =
       MsgWinsByPoints (displayName (players room') p) (pointsToWin (settings room'))) /\
  (won = false -> forall i,
     outOfStock room' i -> (forall j, (j < i)%nat -> ~ outOfStock room' j) ->
     gameOver room' = true /\ turn room' = turn room /\
     exists w ws, evaluateWinners (scores room') = w :: ws /\
       message room' = tilesMessage (displayName (players room') i) w ws) /\
  (won = false -> (forall i, ~ outOfStock room' i) -> boardFull (board room') = true ->
     gameOver room' = true /\ turn room' = turn room /\
     exists w ws, evaluateWinners (scores room') = w :: ws /\
       message room' = fullMessage w ws) /\
  (won = false -> (forall i, ~ outOfStock room' i) -> boardFull (board room') = false ->
     gameOver room' = false /\ message room' = message room /\
     turn room' = ((turn room + 1) mod length (players room'))%nat) /\
  (forall zs w, scores room' = intScores zs ->
     w ∈ evaluateWinners (scores room') <->
     exists i z, zs !! i = Some z /\ (forall z', z' ∈ zs -> z' <= z) /\
       w = mkWinner i (seatLabel i) (Int z)).
Proof.
  intros Hplace Hsock.
  destruct (placePiece_Updated _ _ _ _ _ _ _ Hplace) as (p' & s & Hacc & _).
  pose proof Hacc as (Hover & Hsock' & _). rewrite Hsock in Hsock'. injection Hsock' as <-.
  rewrite (placePiece_accepts _ _ _ _ _ _ _ Hacc) in Hplace.
  destruct (scored_frame room p r c s) as (Fturn & Fover & Fmsg).
  apply conclude_outcome in Hplace as (H1 & H2 & H3 & H4).
  rewrite Fturn in H1, H2, H3, H4. rewrite Fover, Fmsg, Hover in H4.
  intros won. split_and!; [exact H1|exact H2|exact H3|exact H4|].
  intros zs w Hzs. rewrite Hzs. exact (evaluateWinners_ints zs w).
Qed.

Lemma end_conditions_witness :
  placePiece sprintReady "a" 0 2 "R" = Updated [mkHighlight [(0, 0)] 0%nat] sprintWon /\
  findSocket "a" (players sprintReady) = Some 0%nat /\
  gameOver sprintWon = true /\ turn sprintWon = turn sprintReady /\
  message sprintWon = MsgWinsByPoints "Ann" (Int 1).
Proof.
  assert (placePiece sprintReady "a" 0 2 "R" = Updated [mkHighlight [(0, 0)] 0%nat] sprintWon)
    as Hplace by (vm_compute; reflexivity).
  assert (findSocket "a" (players sprintReady) = Some 0%nat)
    as Hsock by (vm_compute; reflexivity).
  destruct (end_conditions_in_order _ _ _ _ _ _ _ _ Hplace Hsock) as (Hwon & _).
  destruct Hwon as (Hover & Hturn & Hmsg); [vm_compute; reflexivity|].
  split; [exact Hplace|]. split; [exact Hsock|]. split; [exact Hover|].
  split; [exact Hturn|]. rewrite Hmsg. vm_compute. reflexivity.
Defined.

(** ** Misplacement *)

Lemma tilesOf_3 b x1 x2 x3 tiles :
  Mis.tilesOf b [x1; x2; x3] = Some tiles <->
  exists q1 t1 q2 t2 q3 t3,
    (inBounds x1.1 x1.2 = true /\ cellAt b x1.1 x1.2 = Piece q1 t1) /\
    (inBounds x2.1 x2.2 = true /\ cellAt b x2.1 x2.2 = Piece q2 t2) /\
    (inBounds x3.1 x3.2 = true /\ cellAt b x3.1 x3.2 = Piece q3 t3) /\
    tiles = [Mis.mkTile x1.1 x1.2 q1 t1; Mis.mkTile x2.1 x2.2 q2 t2;
             Mis.mkTile x3.1 x3.2 q3 t3].
Proof.
  destruct x1 as [r1 c1], x2 as [r2 c2], x3 as [r3 c3]. cbn [Mis.tilesOf fst snd].
  split.
  - destruct (inBounds r1 c1); [|done]. cbn [negb].
    destruct (cellAt b r1 c1) as [| |q1 t1]; [done|done|].
    destruct (inBounds r2 c2); [|done]. cbn [negb].
    destruct (cellAt b r2 c2) as [| |q2 t2]; [done|done|].
    destruct (inBounds r3 c3); [|done]. cbn [negb].
    destruct (cellAt b r3 c3) as [| |q3 t3]; [done|done|].
    cbn. intros [= <-]. exists q1, t1, q2, t2, q3, t3. split_and!; done.
  - intros (q1 & t1 & q2 & t2 & q3 & t3 & [-> ->] & [-> ->] & [-> ->] & ->). done.
Qed.

Lemma mis_isNew_pos r c x q t :
  Mis.isNew r c (Mis.mkTile x.1 x.2 q t) = bool_decide (x = (r, c)).
Proof.
  destruct x as [x1 x2]. unfold Mis.isNew. cbn.
  rewrite <- bool_decide_and. apply bool_decide_ext.
  split; [intros [-> ->]; done|intros [= -> ->]; done].
Qed.

(** The award test on two other tiles. *)
Lemma award_test p strong o0 o1 opp :
  (let bothStronger :=
     forallb (fun t => bool_decide (Mis.tsym t = strong)) [o0; o1]
     && forallb (fun t => negb (bool_decide (Mis.tplayer t = p))) [o0; o1] in
   let sameOpponentOwner := bothStronger && bool_decide (Mis.tplayer o0 = Mis.tplayer o1) in
   if bothStronger && sameOpponentOwner then Some (Mis.tplayer o0) else None) = Some opp <->
  Mis.tsym o0 = strong /\ Mis.tsym o1 = strong /\
  Mis.tplayer o0 = opp /\ Mis.tplayer o1 = opp /\ opp <> p.
Proof.
  cbn.
  destruct (decide (Mis.tsym o0 = strong)) as [E1|E1];
    [rewrite (bool_decide_eq_true_2 _ E1)|rewrite (bool_decide_eq_false_2 _ E1)];
    cbn; [|split; [done|tauto]].
  destruct (decide (Mis.tsym o1 = strong)) as [E2|E2];
    [rewrite (bool_decide_eq_true_2 _ E2)|rewrite (bool_decide_eq_false_2 _ E2)];
    cbn; [|split; [done|tauto]].
  destruct (decide (Mis.tplayer o0 = p)) as [E3|E3];
    [rewrite (bool_decide_eq_true_2 _ E3)|rewrite (bool_decide_eq_false_2 _ E3)];
    cbn; [split; [done|intros (_ & _ & ? & _ & ?); congruence]|].
  destruct (decide (Mis.tplayer o1 = p)) as [E4|E4];
    [rewrite (bool_decide_eq_true_2 _ E4)|rewrite (bool_decide_eq_false_2 _ E4)];
    cbn; [split; [done|intros (_ & _ & _ & ? & ?); congruence]|].
  destruct (decide (Mis.tplayer o0 = Mis.tplayer o1)) as [E5|E5];
    [rewrite (bool_decide_eq_true_2 _ E5)|rewrite (bool_decide_eq_false_2 _ E5)];
    cbn; [|split; [done|intros (_ & _ & ? & ? & _); congruence]].
  split.
  - intros [= <-]. split_and!; (done || congruence).
  - intros (_ & _ & <- & _). done.
Qed.

Local Ltac new_or_not :=
  rewrite mis_isNew_pos;
  first [rewrite bool_decide_eq_false_2 by done | rewrite bool_decide_eq_true_2 by done];
  cbn; tauto.

Lemma windowAward_spec b r c p s x1 x2 x3 opp :
  (x1 <> (r, c) /\ x2 <> (r, c) /\ x3 = (r, c)) \/
  (x1 <> (r, c) /\ x2 = (r, c) /\ x3 <> (r, c)) \/
  (x1 = (r, c) /\ x2 <> (r, c) /\ x3 <> (r, c)) ->
  Mis.windowAward b r c p (WEAK_TO s) [x1; x2; x3] = Some opp <->
  qualifies b r c p s [x1; x2; x3] opp.
Proof.
  intros Hshape. unfold Mis.windowAward, qualifies.
  destruct (Mis.tilesOf b [x1; x2; x3]) as [tiles|] eqn:Htiles.
  - apply tilesOf_3 in Htiles
      as (q1 & t1 & q2 & t2 & q3 & t3 & [Hi1 Hc1] & [Hi2 Hc2] & [Hi3 Hc3] & ->).
    assert (Forall (fun x => inBounds x.1 x.2 = true /\ exists q t, cellAt b x.1 x.2 = Piece q t)
              [x1; x2; x3]) as Hall.
    { repeat constructor; eauto. }
    cbn [existsb]. rewrite !mis_isNew_pos.
    destruct Hshape as [(N1 & N2 & E3)|[(N1 & E2 & N3)|(E1 & N2 & N3)]].
    + rewrite (bool_decide_eq_false_2 _ N1), (bool_decide_eq_false_2 _ N2),
        (bool_decide_eq_true_2 _ E3). cbn [orb negb].
      rewrite filter_cons_True, filter_cons_True, filter_cons_False, filter_nil by new_or_not.
      rewrite award_test. cbn [Mis.tsym Mis.tplayer]. split.
      * intros [-> (-> & -> & -> & Hne)]. split_and!; [set_solver|done|done|].
        intros x Hx Hxn. apply elem_of_cons in Hx as [Hx|Hx]; [by subst|].
        apply elem_of_cons in Hx as [Hx|Hx]; [by subst|].
        apply list_elem_of_singleton in Hx. by subst.
      * intros (_ & _ & Hne & Hoth).
        pose proof (Hoth x1 ltac:(set_solver) N1) as H1.
        pose proof (Hoth x2 ltac:(set_solver) N2) as H2.
        rewrite Hc1 in H1. rewrite Hc2 in H2. injection H1 as -> ->. injection H2 as -> ->.
        done.
    + rewrite (bool_decide_eq_false_2 _ N1), (bool_decide_eq_false_2 _ N3),
        (bool_decide_eq_true_2 _ E2). cbn [orb negb].
      rewrite filter_cons_True, filter_cons_False, filter_cons_True, filter_nil by new_or_not.
      rewrite award_test. cbn [Mis.tsym Mis.tplayer]. split.
      * intros [-> (-> & -> & -> & Hne)]. split_and!; [set_solver|done|done|].
        intros x Hx Hxn. apply elem_of_cons in Hx as [Hx|Hx]; [by subst|].
        apply elem_of_cons in Hx as [Hx|Hx]; [by subst|].
        apply list_elem_of_singleton in Hx. by subst.
      * intros (_ & _ & Hne & Hoth).
        pose proof (Hoth x1 ltac:(set_solver) N1) as H1.
        pose proof (Hoth x3 ltac:(set_solver) N3) as H3.
        rewrite Hc1 in H1. rewrite Hc3 in H3. injection H1 as -> ->. injection H3 as -> ->.
        done.
    + rewrite (bool_decide_eq_false_2 _ N2), (bool_decide_eq_false_2 _ N3),
        (bool_decide_eq_true_2 _ E1). cbn [orb negb].
      rewrite filter_cons_False, filter_cons_True, filter_cons_True, filter_nil by new_or_not.
      rewrite award_test. cbn [Mis.tsym Mis.tplayer]. split.
      * intros [-> (-> & -> & -> & Hne)]. split_and!; [set_solver|done|done|].
        intros x Hx Hxn. apply elem_of_cons in Hx as [Hx|Hx]; [by subst|].
        apply elem_of_cons in Hx as [Hx|Hx]; [by subst|].
        apply list_elem_of_singleton in Hx. by subst.
      * intros (_ & _ & Hne & Hoth).
        pose proof (Hoth x2 ltac:(set_solver) N2) as H2.
        pose proof (Hoth x3 ltac:(set_solver) N3) as H3.
        rewrite Hc2 in H2. rewrite Hc3 in H3. injection H2 as -> ->. injection H3 as -> ->.
        done.
  - split; [done|]. intros (_ & Hall & _). exfalso.
    apply Forall_cons in Hall as [(Hi1 & q1 & t1 & Hc1) Hall].
    apply Forall_cons in Hall as [(Hi2 & q2 & t2 & Hc2) Hall].
    apply Forall_cons in Hall as [(Hi3 & q3 & t3 & Hc3) _].
    assert (is_Some (Mis.tilesOf b [x1; x2; x3])) as [tiles Ht]; [|congruence].
    eexists. apply tilesOf_3. exists q1, t1, q2, t2, q3, t3. done.
Qed.

Lemma scanWindows_awarded_flag b r c p strong wins out :
  Mis.scanWindows b r c p strong wins true out = out.
Proof. by destruct wins. Qed.

(** The loop over the windows of a direction stops at the first window
    that awards. *)
Lemma scanWindows_first b r c p strong wins out :
  (exists k win opp,
     wins !! k = Some win /\ Mis.windowAward b r c p strong win = Some opp /\
     (forall j win', (j < k)%nat -> wins !! j = Some win' ->
        Mis.windowAward b r c p strong win' = None) /\
     Mis.scanWindows b r c p strong wins false out =
       Mis.mkOut (Mis.awarded out ++ [Mis.mkAward opp 1])
         (Mis.highlights out ++ [mkHighlight win opp])) \/
  ((forall j win', wins !! j = Some win' -> Mis.windowAward b r c p strong win' = None) /\
   Mis.scanWindows b r c p strong wins false out = out).
Proof.
  induction wins as [|win wins IH].
  { right. split; [intros j win' H; done|done]. }
  cbn [Mis.scanWindows].
  destruct (Mis.windowAward b r c p strong win) as [opp|] eqn:Hw.
  - left. exists 0%nat, win, opp. split_and!; [done|done| |].
    + intros j win' Hj. lia.
    + by rewrite scanWindows_awarded_flag.
  - destruct IH as [(k & win' & opp & Hk & Hwin & Hmin & Hres)|[Hnone Hres]].
    + left. exists (S k), win', opp. split_and!; [done|done| |done].
      intros [|j] w Hj Hjw; [by simplify_eq/=|]. apply (Hmin j); [lia|done].
    + right. split; [|done]. intros [|j] w Hjw; [by simplify_eq/=|by apply (Hnone j)].
Qed.

Lemma window_shape r c d k win :
  d <> (0, 0) -> Mis.windows r c d.1 d.2 !! k = Some win ->
  exists x1 x2 x3, win = [x1; x2; x3] /\
    ((x1 <> (r, c) /\ x2 <> (r, c) /\ x3 = (r, c)) \/
     (x1 <> (r, c) /\ x2 = (r, c) /\ x3 <> (r, c)) \/
     (x1 = (r, c) /\ x2 <> (r, c) /\ x3 <> (r, c))).
Proof.
  destruct d as [dr dc]. intros Hd Hk. cbn [fst snd] in Hk. unfold Mis.windows in Hk.
  assert (forall a e : Z, a <> 0 -> (r - a * dr, c - a * dc) <> (r, c) /\
                                   (r + a * dr, c + a * dc) <> (r, c)) as Hne.
  { intros a e Ha. split; intros [= H1 H2]; apply Hd; f_equal; nia. }
  destruct k as [|[|[|k]]]; [| | |done]; injection Hk as <-; eexists _, _, _;
    (split; [reflexivity|]).
  - left. split_and!; [apply (Hne 2 0)|apply (Hne 1 0)|]; done.
  - right; left. split_and!; [apply (Hne 1 0)| |apply (Hne 1 0)]; done.
  - right; right. split_and!; [|apply (Hne 1 0)|apply (Hne 2 0)]; done.
Qed.

Lemma delta_nonzero d : d ∈ deltas -> d <> (0, 0).
Proof.
  unfold deltas. intros Hd ->.
  repeat (apply elem_of_cons in Hd as [Hd|Hd]; [done|]). by apply elem_of_nil in Hd.
Qed.

(** One direction awards at most once, to the opponent of the first of
    its windows that qualifies. *)
Lemma directionAward_spec b r c p s d :
  d <> (0, 0) ->
  (length (directionAward b r c p s d) <= 1)%nat /\
  forall a, a ∈ directionAward b r c p s d <->
    Mis.points a = 1 /\
    exists k win,
      Mis.windows r c d.1 d.2 !! k = Some win /\
      qualifies b r c p s win (Mis.player a) /\
      forall j win' opp', (j < k)%nat -> Mis.windows r c d.1 d.2 !! j = Some win' ->
        ~ qualifies b r c p s win' opp'.
Proof.
  intros Hd. unfold directionAward, Mis.direction.
  assert (forall k win opp, Mis.windows r c d.1 d.2 !! k = Some win ->
            Mis.windowAward b r c p (WEAK_TO s) win = Some opp <->
            qualifies b r c p s win opp) as Hq.
  { intros k win opp Hk.
    destruct (window_shape r c d k win Hd Hk) as (x1 & x2 & x3 & -> & Hshape).
    by apply windowAward_spec. }
  destruct (scanWindows_first b r c p (WEAK_TO s) (Mis.windows r c d.1 d.2) (Mis.mkOut [] []))
    as [(k & win & opp & Hk & Hwin & Hmin & ->)|[Hnone ->]]; cbn [Mis.awarded app length].
  - split; [lia|]. intros a. rewrite list_elem_of_singleton. split.
    + intros ->. cbn. split; [done|]. exists k, win. split_and!; [done|by apply (Hq k)|].
      intros j win' opp' Hj Hjw Hqual. apply (Hq j) in Hqual; [|done].
      rewrite (Hmin j win' Hj Hjw) in Hqual. done.
    + intros (Hpts & k' & win' & Hk' & Hqual & Hmin').
      destruct a as [pl pts]. cbn in *. subst pts.
      apply (Hq k') in Hqual as Haw; [|done].
      destruct (Nat.lt_trichotomy k k') as [Hlt|[<-|Hgt]].
      * exfalso. apply (Hmin' k win opp Hlt Hk). by apply (Hq k).
      * rewrite Hk in Hk'. injection Hk' as <-. rewrite Hwin in Haw. by injection Haw as ->.
      * rewrite (Hmin k' win' Hgt Hk') in Haw. done.
  - split; [lia|]. intros a. split; [by intros ?%elem_of_nil|].
    intros (_ & k & win & Hk & Hqual & _). apply (Hq k) in Hqual; [|done].
    rewrite (Hnone k win Hk) in Hqual. done.
Qed.

Lemma direction_awarded b r c p strong out d :
  Mis.awarded (Mis.direction b r c p strong out d) =
    Mis.awarded out ++ Mis.awarded (Mis.direction b r c p strong (Mis.mkOut [] []) d).
Proof.
  unfold Mis.direction.
  destruct (scanWindows_first b r c p strong (Mis.windows r c d.1 d.2) out)
    as [(k & win & opp & Hk & Hwin & Hmin & ->)|[Hnone ->]];
  destruct (scanWindows_first b r c p strong (Mis.windows r c d.1 d.2) (Mis.mkOut [] []))
    as [(k' & win' & opp' & Hk' & Hwin' & Hmin' & ->)|[Hnone' ->]]; cbn [Mis.awarded app].
  - destruct (Nat.lt_trichotomy k k') as [Hlt|[<-|Hgt]].
    + rewrite (Hmin' k win Hlt Hk) in Hwin. done.
    + rewrite Hk in Hk'. injection Hk' as <-. rewrite Hwin in Hwin'. by injection Hwin' as ->.
    + rewrite (Hmin k' win' Hgt Hk') in Hwin'. done.
  - rewrite (Hnone' k win Hk) in Hwin. done.
  - rewrite (Hnone k' win' Hk') in Hwin'. done.
  - by rewrite app_nil_r.
Qed.

(** The awards of the whole pass, direction after direction. *)
Lemma scoreMisplacement_awarded b r c p s :
  cellAt b r c = Piece p s ->
  Mis.awarded (Mis.scoreMisplacement b r c) = d ← deltas; directionAward b r c p s d.
Proof.
  intros Hcell. unfold Mis.scoreMisplacement. rewrite Hcell.
  assert (forall ds out,
            Mis.awarded (foldl (Mis.direction b r c p (WEAK_TO s)) out ds) =
              Mis.awarded out ++ (d ← ds; directionAward b r c p s d)) as Hfold.
  { induction ds as [|d ds IH]; intros out; cbn [foldl mbind list_bind].
    - by rewrite app_nil_r.
    - rewrite IH, direction_awarded. unfold directionAward. by rewrite <- app_assoc. }
  apply (Hfold deltas (Mis.mkOut [] [])).
Qed.

(** ** Three in a row *)

Lemma tri_backward_step fuel b pl sy dr dc br bc seg :
  Tri.backward (S fuel) b pl sy dr dc br bc seg =
    if sameAt b (pl, sy) (br, bc)
    then Tri.backward fuel b pl sy dr dc (br - dr) (bc - dc) ((br, bc) :: seg)
    else seg.
Proof.
  cbn [Tri.backward]. unfold sameAt, sameOwnerSym. cbn [fst snd].
  destruct (inBounds br bc); [|done]. cbn [andb].
  destruct (cellAt b br bc) as [| |tp ts]; cbn [Tri.isPiece];
    try destruct (bool_decide (tp = pl) && bool_decide (ts = sy)); reflexivity.
Qed.

Lemma tri_forward_step fuel b pl sy dr dc fr fc seg :
  Tri.forward (S fuel) b pl sy dr dc fr fc seg =
    if sameAt b (pl, sy) (fr, fc)
    then Tri.forward fuel b pl sy dr dc (fr + dr) (fc + dc) (seg ++ [(fr, fc)])
    else seg.
Proof.
  cbn [Tri.forward]. unfold sameAt, sameOwnerSym. cbn [fst snd].
  destruct (inBounds fr fc); [|done]. cbn [andb].
  destruct (cellAt b fr fc) as [| |tp ts]; cbn [Tri.isPiece];
    try destruct (bool_decide (tp = pl) && bool_decide (ts = sy)); reflexivity.
Qed.

(** The backward loop prepends [k] cells, all in the run; it stopped on
    its condition unless the fuel ran out. *)
Lemma tri_backward_len fuel b pl sy dr dc br bc seg :
  exists k : nat,
    (k <= fuel)%nat /\
    length (Tri.backward fuel b pl sy dr dc br bc seg) = (k + length seg)%nat /\
    (forall j, 0 <= j < Z.of_nat k ->
       sameAt b (pl, sy) (br - j * dr, bc - j * dc) = true) /\
    ((k < fuel)%nat ->
       sameAt b (pl, sy) (br - Z.of_nat k * dr, bc - Z.of_nat k * dc) = false).
Proof.
  revert br bc seg. induction fuel as [|fuel IH]; intros br bc seg.
  { exists 0%nat. split_and!; [lia|done|intros; lia|intros; lia]. }
  rewrite tri_backward_step.
  destruct (sameAt b (pl, sy) (br, bc)) eqn:E.
  - destruct (IH (br - dr) (bc - dc) ((br, bc) :: seg)) as (k & Hk & Hlen & Hrun & Hstop).
    exists (S k). split_and!; [lia|cbn [length] in Hlen; lia| |].
    + intros j Hj. destruct (decide (j = 0)) as [->|Hj0].
      * replace (br - 0 * dr) with br by lia. replace (bc - 0 * dc) with bc by lia. done.
      * specialize (Hrun (j - 1) ltac:(lia)).
        replace (br - dr - (j - 1) * dr) with (br - j * dr) in Hrun by lia.
        replace (bc - dc - (j - 1) * dc) with (bc - j * dc) in Hrun by lia. done.
    + intros Hlt. specialize (Hstop ltac:(lia)).
      replace (br - dr - Z.of_nat k * dr) with (br - Z.of_nat (S k) * dr) in Hstop by lia.
      replace (bc - dc - Z.of_nat k * dc) with (bc - Z.of_nat (S k) * dc) in Hstop by lia.
      done.
  - exists 0%nat. split_and!; [lia|done|intros; lia|].
    intros _. replace (br - Z.of_nat 0 * dr) with br by lia.
    replace (bc - Z.of_nat 0 * dc) with bc by lia. done.
Qed.

Lemma tri_forward_len fuel b pl sy dr dc fr fc seg :
  exists k : nat,
    (k <= fuel)%nat /\
    length (Tri.forward fuel b pl sy dr dc fr fc seg) = (k + length seg)%nat /\
    (forall j, 0 <= j < Z.of_nat k ->
       sameAt b (pl, sy) (fr + j * dr, fc + j * dc) = true) /\
    ((k < fuel)%nat ->
       sameAt b (pl, sy) (fr + Z.of_nat k * dr, fc + Z.of_nat k * dc) = false).
Proof.
  revert fr fc seg. induction fuel as [|fuel IH]; intros fr fc seg.
  { exists 0%nat. split_and!; [lia|done|intros; lia|intros; lia]. }
  rewrite tri_forward_step.
  destruct (sameAt b (pl, sy) (fr, fc)) eqn:E.
  - destruct (IH (fr + dr) (fc + dc) (seg ++ [(fr, fc)])) as (k & Hk & Hlen & Hrun & Hstop).
    exists (S k). split_and!; [lia|rewrite length_app in Hlen; cbn [length] in Hlen; lia| |].
    + intros j Hj. destruct (decide (j = 0)) as [->|Hj0].
      * replace (fr + 0 * dr) with fr by lia. replace (fc + 0 * dc) with fc by lia. done.
      * specialize (Hrun (j - 1) ltac:(lia)).
        replace (fr + dr + (j - 1) * dr) with (fr + j * dr) in Hrun by lia.
        replace (fc + dc + (j - 1) * dc) with (fc + j * dc) in Hrun by lia. done.
    + intros Hlt. specialize (Hstop ltac:(lia)).
      replace (fr + dr + Z.of_nat k * dr) with (fr + Z.of_nat (S k) * dr) in Hstop by lia.
      replace (fc + dc + Z.of_nat k * dc) with (fc + Z.of_nat (S k) * dc) in Hstop by lia.
      done.
  - exists 0%nat. split_and!; [lia|done|intros; lia|].
    intros _. replace (fr + Z.of_nat 0 * dr) with fr by lia.
    replace (fc + Z.of_nat 0 * dc) with fc by lia. done.
Qed.

(** A run cannot leave the board: from a cell of the board, fewer than
    [BOARD_SIZE] steps along a direction stay on it. *)
Lemma steps_on_board b ref r c d (k : Z) (sign : Z) :
  d ∈ deltas -> inBounds r c = true -> (sign = 1 \/ sign = -1) -> 0 < k ->
  sameAt b ref (r + sign * k * d.1, c + sign * k * d.2) = true -> k < BOARD_SIZE.
Proof.
  intros Hd [Hr Hc]%inBounds_spec Hsign Hk Hsame.
  apply andb_true_iff in Hsame as [[Hr' Hc']%inBounds_spec _]. cbn [fst snd] in *.
  unfold BOARD_SIZE in *. unfold deltas in Hd.
  repeat (apply elem_of_cons in Hd as [->|Hd]; [cbn [fst snd] in *; nia|]).
  by apply elem_of_nil in Hd.
Qed.

Lemma maximalRun_unique b ref r c d kb kf kb' kf' :
  maximalRun b ref r c d kb kf -> maximalRun b ref r c d kb' kf' ->
  kb = kb' /\ kf = kf'.
Proof.
  intros (Hb & Hf & Hrun & Hsb & Hsf) (Hb' & Hf' & Hrun' & Hsb' & Hsf').
  split.
  - destruct (Z.lt_trichotomy kb kb') as [Hlt|[->|Hgt]]; [|done|]; exfalso.
    + specialize (Hrun' (- (kb + 1)) ltac:(lia) ltac:(lia)).
      replace (r + - (kb + 1) * d.1) with (r - (kb + 1) * d.1) in Hrun' by lia.
      replace (c + - (kb + 1) * d.2) with (c - (kb + 1) * d.2) in Hrun' by lia.
      congruence.
    + specialize (Hrun (- (kb' + 1)) ltac:(lia) ltac:(lia)).
      replace (r + - (kb' + 1) * d.1) with (r - (kb' + 1) * d.1) in Hrun by lia.
      replace (c + - (kb' + 1) * d.2) with (c - (kb' + 1) * d.2) in Hrun by lia.
      congruence.
  - destruct (Z.lt_trichotomy kf kf') as [Hlt|[->|Hgt]]; [|done|]; exfalso.
    + specialize (Hrun' (kf + 1) ltac:(lia) ltac:(lia)). congruence.
    + specialize (Hrun (kf' + 1) ltac:(lia) ltac:(lia)). congruence.
Qed.

(** The segment that [scoreThreeInRow] collects is the maximal run. *)
Lemma tri_segment_run b pl sy r c d :
  d ∈ deltas -> inBounds r c = true ->
  exists kb kf,
    maximalRun b (pl, sy) r c d kb kf /\
    Z.of_nat (length (Tri.segment b pl sy r c d)) = 1 + kb + kf.
Proof.
  intros Hd Hin. destruct d as [dr dc]. unfold Tri.segment, Tri.fuel.
  change (Z.to_nat BOARD_SIZE) with 8%nat.
  destruct (tri_backward_len 8 b pl sy dr dc (r - dr) (c - dc) [(r, c)])
    as (kb & Hkb & Hlenb & Hrunb & Hstopb).
  destruct (tri_forward_len 8 b pl sy dr dc (r + dr) (c + dc)
              (Tri.backward 8 b pl sy dr dc (r - dr) (c - dc) [(r, c)]))
    as (kf & Hkf & Hlenf & Hrunf & Hstopf).
  assert (forall j, 0 < j <= Z.of_nat kb ->
            sameAt b (pl, sy) (r - j * dr, c - j * dc) = true) as Hb.
  { intros j Hj. specialize (Hrunb (j - 1) ltac:(lia)).
    replace (r - dr - (j - 1) * dr) with (r - j * dr) in Hrunb by lia.
    replace (c - dc - (j - 1) * dc) with (c - j * dc) in Hrunb by lia. done. }
  assert (forall j, 0 < j <= Z.of_nat kf ->
            sameAt b (pl, sy) (r + j * dr, c + j * dc) = true) as Hf.
  { intros j Hj. specialize (Hrunf (j - 1) ltac:(lia)).
    replace (r + dr + (j - 1) * dr) with (r + j * dr) in Hrunf by lia.
    replace (c + dc + (j - 1) * dc) with (c + j * dc) in Hrunf by lia. done. }
  assert (Z.of_nat kb < BOARD_SIZE) as Hkb8.
  { destruct (decide (kb = 0%nat)) as [->|Hne]; [done|].
    apply (steps_on_board b (pl, sy) r c (dr, dc) (Z.of_nat kb) (-1)); [done|done|lia|lia|].
    cbn [fst snd]. specialize (Hb (Z.of_nat kb) ltac:(lia)).
    replace (r + -1 * Z.of_nat kb * dr) with (r - Z.of_nat kb * dr) by lia.
    replace (c + -1 * Z.of_nat kb * dc) with (c - Z.of_nat kb * dc) by lia. done. }
  assert (Z.of_nat kf < BOARD_SIZE) as Hkf8.
  { destruct (decide (kf = 0%nat)) as [->|Hne]; [done|].
    apply (steps_on_board b (pl, sy) r c (dr, dc) (Z.of_nat kf) 1); [done|done|lia|lia|].
    cbn [fst snd]. specialize (Hf (Z.of_nat kf) ltac:(lia)).
    replace (r + 1 * Z.of_nat kf * dr) with (r + Z.of_nat kf * dr) by lia.
    replace (c + 1 * Z.of_nat kf * dc) with (c + Z.of_nat kf * dc) by lia. done. }
  unfold BOARD_SIZE in Hkb8, Hkf8.
  exists (Z.of_nat kb), (Z.of_nat kf). split.
  - unfold maximalRun. cbn [fst snd]. split_and!; [lia|lia| | |].
    + intros j Hj Hj0. destruct (decide (j < 0)) as [Hneg|Hpos].
      * specialize (Hb (- j) ltac:(lia)).
        replace (r - - j * dr) with (r + j * dr) in Hb by lia.
        replace (c - - j * dc) with (c + j * dc) in Hb by lia. done.
      * apply Hf. lia.
    + specialize (Hstopb ltac:(lia)).
      replace (r - dr - Z.of_nat kb * dr) with (r - (Z.of_nat kb + 1) * dr) in Hstopb by lia.
      replace (c - dc - Z.of_nat kb * dc) with (c - (Z.of_nat kb + 1) * dc) in Hstopb by lia.
      done.
    + specialize (Hstopf ltac:(lia)).
      replace (r + dr + Z.of_nat kf * dr) with (r + (Z.of_nat kf + 1) * dr) in Hstopf by lia.
      replace (c + dc + Z.of_nat kf * dc) with (c + (Z.of_nat kf + 1) * dc) in Hstopf by lia.
      done.
  - rewrite Hlenf, Hlenb. cbn [length]. lia.
Qed.

Lemma tri_direction_points b pl sy byIdx r c out d :
  Tri.points (Tri.direction b pl sy byIdx r c out d) =
    Tri.points out + if 3 <=? Z.of_nat (length (Tri.segment b pl sy r c d)) then 1 else 0.
Proof.
  unfold Tri.direction.
  destruct (3 <=? Z.of_nat (length (Tri.segment b pl sy r c d))); cbn [Tri.points]; lia.
Qed.

(** A direction is worth one point when its run has three cells or more,
    whatever its length, and nothing otherwise. *)
Lemma directionPoints_run b p s r c d kb kf :
  d ∈ deltas -> inBounds r c = true -> maximalRun b (p, s) r c d kb kf ->
  directionPoints b p s r c d = if 3 <=? 1 + kb + kf then 1 else 0.
Proof.
  intros Hd Hin Hrun. unfold directionPoints. rewrite tri_direction_points.
  destruct (tri_segment_run b p s r c d Hd Hin) as (kb' & kf' & Hrun' & ->).
  destruct (maximalRun_unique _ _ _ _ _ _ _ _ _ Hrun Hrun') as [<- <-].
  cbn [Tri.points]. destruct (3 <=? 1 + kb + kf); lia.
Qed.

Lemma scoreThreeInRow_points b r c p s byIdx :
  cellAt b r c = Piece p s ->
  Tri.points (Tri.scoreThreeInRow b r c byIdx) = sumZ (directionPoints b p s r c <$> deltas).
Proof.
  intros Hcell. unfold Tri.scoreThreeInRow. rewrite Hcell.
  assert (forall ds out,
            Tri.points (foldl (Tri.direction b p s byIdx r c) out ds) =
              Tri.points out + sumZ (directionPoints b p s r c <$> ds)) as Hfold.
  { induction ds as [|d ds IH]; intros out; cbn [foldl fmap list_fmap sumZ foldr]; [lia|].
    rewrite IH, tri_direction_points. unfold directionPoints at 2.
    rewrite tri_direction_points. cbn [Tri.points].
    fold (sumZ (directionPoints b p s r c <$> ds)).
    destruct (3 <=? Z.of_nat (length (Tri.segment b p s r c d))); lia. }
  rewrite Hfold. cbn [Tri.points]. lia.
Qed.

(** The new piece is still there when the eliminations are done. *)
Lemma placed_piece_stays b r c p s byIdx :
  board_ok b -> inBounds r c = true -> cellAt b r c = Piece p s ->
  cellAt (Elim.board (Elim.resolveEliminationsFrom b r c byIdx)) r c = Piece p s.
Proof.
  intros Hok Hin Hcell.
  destruct (resolve_spec b r c byIdx p s Hok Hcell) as (_ & Hcells & _).
  pose proof (Hcells (r, c) Hin) as H0. cbn [fst snd] in H0. rewrite H0.
  rewrite bool_decide_eq_false_2; [done|].
  unfold eliminated. intros [Hbt _]%list_elem_of_filter.
  rewrite (beaten_not_own b p s s (r, c) Hcell) in Hbt. done.
Qed.

Lemma directionPoints_01 b p s r c d : 0 <= directionPoints b p s r c d <= 1.
Proof.
  unfold directionPoints. rewrite tri_direction_points. cbn [Tri.points].
  destruct (3 <=? _); lia.
Qed.

(** C5.  On the empty board Ann plays Rock at [(0, 0)], Bob Scissors at
    [(0, 1)] and Ann Rock at [(0, 2)]: the three placements succeed and
    Bob's Scissors is still at [(0, 1)] afterwards, with nobody scoring.
    The run through [(0, 2)] along the row is that single cell, so the row
    has no candidate for elimination. *)
Theorem C5_flanking_does_not_eliminate :
  placePiece game2 "a" 0 0 "R" = Updated [] flank1 /\
  placePiece flank1 "b" 0 1 "S" = Updated [] flank2 /\
  placePiece flank2 "a" 0 2 "R" = Updated [] flank3 /\
  cellAt (board flank2) 0 0 = Piece 0 Rock /\
  cellAt (board flank2) 0 1 = Piece 1 Scissors /\
  cellAt (board flank3) 0 1 = Piece 1 Scissors /\
  beaten (board flank3) 0 Rock (0, 1) = true /\
  candidates (setCell (board flank2) 0 2 (Piece 0 Rock)) 0 Rock 0 2 (0, 1) = [] /\
  scores flank3 = [Some (Int 0); Some (Int 0)].
Proof. split_and!; vm_compute; reflexivity. Qed.

(** ** The checks of a placement *)

Lemma placePiece_Ignored_iff room sock r c sym :
  placePiece room sock r c sym = Ignored <-> ~ exists p s, accepts room sock r c sym p s.
Proof.
  split.
  - intros Hign (p & s & Hacc).
    rewrite (placePiece_accepts _ _ _ _ _ _ _ Hacc) in Hign.
    by apply conclude_not_Ignored in Hign.
  - intros Hno. destruct (placePiece room sock r c sym) eqn:E; [done|exfalso..];
      apply Hno, placePiece_not_Ignored; rewrite E; done.
Qed.

Lemma stockGet_stockSet s v st : stockGet s (stockSet s v st) = v.
Proof. by destruct s. Qed.

Lemma stockGet_stockSet_ne s s' v st : s' <> s -> stockGet s' (stockSet s v st) = stockGet s' st.
Proof. by destruct s, s'. Qed.

(** The stock after an accepted placement. *)
Lemma place_stock room p r c s i s' :
  stockOr0 (stock (place room p r c s)) i s' =
    if bool_decide (i = p /\ s' = s)
    then match stock room !! p with
         | Some st => num_add (stockGet s st) (Int (-1))
         | None => Int 0
         end
    else stockOr0 (stock room) i s'.
Proof.
  unfold stockOr0. cbn [place stock set_highlights set_lastPlayed set_stock set_board].
  rewrite list_lookup_alter.
  destruct (decide (p = i)) as [->|Hne].
  - destruct (stock room !! i) as [st|] eqn:Hst; cbn [fmap option_fmap option_map].
    + destruct (decide (s' = s)) as [->|Hs].
      * rewrite bool_decide_eq_true_2 by done. apply stockGet_stockSet.
      * rewrite bool_decide_eq_false_2 by (intros [_ ?]; done).
        by apply stockGet_stockSet_ne.
    + destruct (bool_decide (i = i /\ s' = s)); done.
  - rewrite bool_decide_eq_false_2 by (intros [-> _]; done). done.
Qed.

Lemma conclude_roomAfter room p before :
  exists room', roomAfter before (conclude room p) = Some room'.
Proof.
  unfold conclude, emitRoomStateOnce. repeat case_match; cbn [roomAfter]; eauto.
Qed.

(** In a room whose stock counts are integers that are not negative,
    [placePiece] leaves the room as it was exactly when a check fails: the
    game is over, the socket holds no seat, it is not that seat's turn, the
    symbol is not R, P or S, the cell is off the board or not empty, or the
    seat has none of that symbol left.  Otherwise the handler goes on, and
    the seat's count of the placed symbol goes down by exactly 1 and stays
    at 0 or more, the other counts being untouched. *)
Theorem rejected_iff_a_check_fails room sock r c sym :
  stock_ok room ->
  (roomAfter room (placePiece room sock r c sym) = Some room <-> rejects room sock r c sym) /\
  (placePiece room sock r c sym = Ignored <-> rejects room sock r c sym) /\
  (~ rejects room sock r c sym ->
   exists p s z room',
     findSocket sock (players room) = Some p /\ symOfKey sym = Some s /\
     roomAfter room (placePiece room sock r c sym) = Some room' /\
     stockOr0 (stock room) p s = Int z /\
     stockOr0 (stock room') p s = Int (z - 1) /\ 0 <= z - 1 /\
     forall i s', (i, s') <> (p, s) ->
       stockOr0 (stock room') i s' = stockOr0 (stock room) i s').
Proof.
  intros Hstock.
  assert (forall p s, exists z, stockOr0 (stock room) p s = Int z /\ 0 <= z) as Hint.
  { intros p s. unfold stockOr0. destruct (stock room !! p) as [st|] eqn:E.
    - by apply (Hstock p).
    - exists 0. done. }
  assert (placePiece room sock r c sym = Ignored <-> rejects room sock r c sym) as Hrej.
  { rewrite placePiece_Ignored_iff. unfold rejects, accepts. split.
    - intros Hno.
      destruct (gameOver room) eqn:Hover; [by left|right].
      destruct (findSocket sock (players room)) as [p|] eqn:Hsock; [right|by left].
      destruct (decide (p = turn room)) as [Hturn|Hturn]; [right|left; by exists p].
      destruct (symOfKey sym) as [s|] eqn:Hsym; [right|by left].
      destruct (inBounds r c) eqn:Hin; [right|by left].
      destruct (decide (cellAt (board room) r c = Empty)) as [Hcell|Hcell]; [right|by left].
      exists p, s. split_and!; [done|done|].
      destruct (Hint p s) as (z & Hz & Hz0). rewrite Hz.
      destruct (decide (z = 0)) as [->|Hnz]; [done|]. exfalso. apply Hno.
      exists p, s. split_and!; try done. rewrite Hz. cbn. apply Z.leb_gt. lia.
    - intros Hrej (p & s & Hover & Hsock & Hturn & Hsym & Hin & Hcell & Hleb).
      destruct Hrej as [H|[H|[(p' & H & Hne)|[H|[H|[H|(p' & s' & H1 & H2 & H3)]]]]]];
        try congruence.
      assert (p' = p) as -> by congruence. assert (s' = s) as -> by congruence.
      rewrite H3 in Hleb. done. }
  assert (forall p s room', accepts room sock r c sym p s ->
            roomAfter room (placePiece room sock r c sym) = Some room' ->
            exists z, stockOr0 (stock room) p s = Int z /\
              stockOr0 (stock room') p s = Int (z - 1) /\ 0 <= z - 1 /\
              forall i s', (i, s') <> (p, s) ->
                stockOr0 (stock room') i s' = stockOr0 (stock room) i s') as Hdec.
  { intros p s room' Hacc Hafter.
    destruct (placePiece_after _ _ _ _ _ _ _ _ Hacc Hafter) as (_ & _ & Hst & _).
    destruct Hacc as (_ & _ & _ & _ & _ & _ & Hleb).
    destruct (Hint p s) as (z & Hz & Hz0). exists z. rewrite Hz in Hleb. cbn in Hleb.
    apply Z.leb_gt in Hleb. rewrite Hst. split_and!; [done| |lia|].
    - rewrite place_stock, bool_decide_eq_true_2 by done.
      unfold stockOr0 in Hz. destruct (stock room !! p) as [st|]; [|injection Hz as <-; lia].
      rewrite Hz. cbn. f_equal; lia.
    - intros i s' Hne. rewrite place_stock, bool_decide_eq_false_2; [done|].
      intros [-> ->]. done. }
  split_and!.
  - split.
    + intros Hsame. apply Hrej.
      remember (placePiece room sock r c sym) as res eqn:E.
      destruct res as [|flash x| |x]; [done| |done|]; exfalso; cbn in Hsame;
        injection Hsame as ->;
        (destruct (placePiece_not_Ignored room sock r c sym) as (p & s & Hacc);
           [by rewrite <- E|]);
        (destruct (Hdec p s room Hacc) as (z & Hz & Hz' & _); [reflexivity|]);
        rewrite Hz in Hz'; injection Hz'; lia.
    + intros H. apply Hrej in H. rewrite H. done.
  - exact Hrej.
  - intros Hnot.
    destruct (placePiece_not_Ignored room sock r c sym) as (p & s & Hacc).
    { intros H. apply Hnot, Hrej, H. }
    assert (exists room', roomAfter room (placePiece room sock r c sym) = Some room')
      as [room' Hafter].
    { rewrite (placePiece_accepts _ _ _ _ _ _ _ Hacc). apply conclude_roomAfter. }
    destruct (Hdec p s room' Hacc Hafter) as (z & Hz & Hz' & Hz0 & Hother).
    pose proof Hacc as (_ & Hsock & _ & Hsym & _).
    exists p, s, z, room'. done.
Qed.

Lemma game2_stock_ok : stock_ok game2.
Proof.
  intros i st s Hi. vm_compute in Hi.
  destruct i as [|[|i]]; [| |destruct i; discriminate Hi];
    injection Hi as <-; destruct s; cbn; eexists; (split; [reflexivity|lia]).
Qed.

Lemma rejected_iff_witness :
  stock_ok game2 /\
  rejects game2 "b" 0 0 "R" /\
  ~ rejects game2 "a" 0 0 "R" /\
  stockOr0 (stock game2) 0 Rock = Int 10 /\
  stockOr0 (stock flank1) 0 Rock = Int 9.
Proof.
  pose proof game2_stock_ok as Hok.
  destruct (rejected_iff_a_check_fails game2 "b" 0 0 "R" Hok) as (_ & Hb & _).
  destruct (rejected_iff_a_check_fails game2 "a" 0 0 "R" Hok) as (_ & Ha & Hgo).
  assert (~ rejects game2 "a" 0 0 "R") as Hnot.
  { intros H. apply Ha in H. vm_compute in H. discriminate H. }
  split; [exact Hok|]. split; [apply Hb; vm_compute; reflexivity|]. split; [exact Hnot|].
  destruct (Hgo Hnot) as (p & s & z & room' & Hp & Hs & Hafter & Hz & Hz' & _).
  vm_compute in Hp. injection Hp as <-. vm_compute in Hs. injection Hs as <-.
  assert (roomAfter game2 (placePiece game2 "a" 0 0 "R") = Some flank1) as Hflank
    by (vm_compute; reflexivity).
  rewrite Hflank in Hafter. injection Hafter as <-.
  assert (stockOr0 (stock game2) 0 Rock = Int 10) as H10 by (vm_compute; reflexivity).
  rewrite H10 in Hz. injection Hz as <-.
  split; [exact H10|exact Hz'].
Defined.

(** ** Turn order *)

(** C7 fails on [disconnect].  With two players and Bob's turn ([turn]
    is 1), Ann's socket drops: her seat is spliced out and [turn] stays 1
    with one player left, so [turn < players.length] no longer holds and no
    placement or blocker move by Bob is accepted any more.  [leaveRoom] in
    the same room resets [turn] to 0. *)
Theorem C7_disconnect_keeps_stale_turn :
  turn flank1 = 1%nat /\ length (players flank1) = 2%nat /\
  disconnect flank1 "a" = Updated [] dropped /\
  players dropped = [mkPlayer "b" "Bob"] /\
  turn dropped = 1%nat /\
  ~ (turn dropped < length (players dropped))%nat /\
  (forall r c sym, placePiece dropped "b" r c sym = Ignored) /\
  (forall from to, moveBlocker dropped "b" from to = Ignored) /\
  (exists room', leaveRoom flank1 "a" = Updated [] room' /\
     players room' = [mkPlayer "b" "Bob"] /\ turn room' = 0%nat).
Proof.
  split_and!; try (vm_compute; reflexivity).
  - vm_compute. lia.
  - eexists. split_and!; vm_compute; reflexivity.
Qed.

(** ** New game *)

(** C9 fails on a value that does not parse: [parseInt] gives [NaN],
    which [Math.min] and [Math.max] hand on, so the setting is [NaN] and so
    is every stock count of the game that starts. *)
Theorem C9_unparsable_setting_is_NaN :
  parseInt (nullish (JsString "abc") 10) = NaN /\
  clampSetting 1 99 10 (JsString "abc") = NaN /\
  clampSetting 0 (BOARD_SIZE * BOARD_SIZE) 8 (JsString "abc") = NaN /\
  clampSetting 1 999 7 (JsString "abc") = NaN /\
  is_Some (findSocket "a" (players lobby2)) /\
  newGame (fun _ => 0%nat) lobby2 "a" (JsString "abc") (JsInt 0) JsUndefined
    = Updated [] nanGame /\
  tilesPerSymbol (settings nanGame) = NaN /\
  stock nanGame = [mkStock NaN NaN NaN; mkStock NaN NaN NaN].
Proof. split_and!; try (vm_compute; reflexivity). vm_compute. eauto. Qed.

(** ** Blocker moves *)

Lemma moveBlocker_cases room sock from to :
  (exists f t, from = Some f /\ to = Some t /\ legalMove room sock f t /\
     moveBlocker room sock from to =
       Updated []
         (set_highlights []
            (set_turn ((turn room + 1) mod length (players room))%nat
               (set_highlights []
                  (set_board (setCell (setCell (board room) t.1 t.2 Blocker) f.1 f.2 Empty)
                     room))))) \/
  ((~ exists f t, from = Some f /\ to = Some t /\ legalMove room sock f t) /\
   moveBlocker room sock from to = Ignored).
Proof.
  unfold moveBlocker, legalMove.
  destruct (gameOver room) eqn:Hover.
  { right. split; [|done]. intros (f & t & _ & _ & ? & _). done. }
  destruct (findSocket sock (players room)) as [p|] eqn:Hsock.
  2: { right. split; [|done]. intros (f & t & _ & _ & _ & ? & _). done. }
  destruct (decide (p = turn room)) as [->|Hturn].
  2: { rewrite bool_decide_eq_false_2 by done. right. split; [|done].
       intros (f & t & _ & _ & _ & ? & _). congruence. }
  rewrite bool_decide_eq_true_2 by done. cbn [negb].
  destruct from as [[fr fc]|].
  2: { right. split; [|done]. intros (f & t & ? & _). done. }
  destruct to as [[tr tc]|].
  2: { right. split; [|done]. intros (f & t & _ & ? & _). done. }
  destruct (inBounds fr fc) eqn:Hf.
  2: { right. split; [|done]. intros (f & t & [= <-] & [= <-] & _ & _ & ? & _).
       cbn in *. congruence. }
  destruct (inBounds tr tc) eqn:Ht.
  2: { right. split; [|done]. intros (f & t & [= <-] & [= <-] & _ & _ & _ & ? & _).
       cbn in *. congruence. }
  cbn [negb orb].
  destruct (decide (cellAt (board room) fr fc = Blocker)) as [Hfb|Hfb].
  2: { rewrite (bool_decide_eq_false_2 _ Hfb). right. split; [|done].
       intros (f & t & [= <-] & [= <-] & _ & _ & _ & _ & ? & _). done. }
  rewrite (bool_decide_eq_true_2 _ Hfb). cbn [negb].
  destruct (decide (cellAt (board room) tr tc = Empty)) as [Hte|Hte].
  2: { rewrite (bool_decide_eq_false_2 _ Hte). right. split; [|done].
       intros (f & t & [= <-] & [= <-] & _ & _ & _ & _ & _ & ? & _). done. }
  rewrite (bool_decide_eq_true_2 _ Hte). cbn [negb].
  destruct ((Z.abs (fr - tr) =? 0) && (Z.abs (fc - tc) =? 0) || (1 <? Z.abs (fr - tr))
            || (1 <? Z.abs (fc - tc))) eqn:Hd.
  - right. split; [|done].
    intros (f & t & [= <-] & [= <-] & _ & _ & _ & _ & _ & _ & Hmax). cbn in Hmax.
    apply orb_true_iff in Hd as [Hd|Hd]; [apply orb_true_iff in Hd as [Hd|Hd]|].
    + apply andb_true_iff in Hd as [?%Z.eqb_eq ?%Z.eqb_eq]. lia.
    + apply Z.ltb_lt in Hd. lia.
    + apply Z.ltb_lt in Hd. lia.
  - left. exists (fr, fc), (tr, tc). split_and!; try done.
    apply orb_false_iff in Hd as [Hd H3]. apply orb_false_iff in Hd as [H1 H2].
    apply Z.ltb_ge in H2, H3. apply andb_false_iff in H1. cbn.
    destruct H1 as [H1|H1]; apply Z.eqb_neq in H1; lia.
Qed.

(** C8 (amended).  [moveBlocker] succeeds exactly when the game is not
    over (the flag [started] is not looked at), the socket holds the seat
    whose turn it is, both cells are on the board, [from] holds a blocker,
    [to] is empty and [to] is at Chebyshev distance 1 of [from]; any other
    request is ignored and changes nothing.  When it succeeds the blocker is
    at [to], [from] is empty, the other cells are as before, the highlights
    are empty, the turn has moved on by one modulo the number of players,
    and scores, stock, seats and flags are as before. *)
Theorem C8_blocker_moves_one_step room sock from to :
  board_ok (board room) ->
  (moveBlocker room sock from to <> Ignored <->
   exists f t, from = Some f /\ to = Some t /\ legalMove room sock f t) /\
  (moveBlocker room sock from to = Ignored ->
   roomAfter room (moveBlocker room sock from to) = Some room) /\
  (forall f t, from = Some f -> to = Some t -> legalMove room sock f t ->
   exists room',
     moveBlocker room sock from to = Updated [] room' /\
     cellAt (board room') t.1 t.2 = Blocker /\
     cellAt (board room') f.1 f.2 = Empty /\
     (forall y, inBounds y.1 y.2 = true -> y <> f -> y <> t ->
        cellAt (board room') y.1 y.2 = cellAt (board room) y.1 y.2) /\
     highlights room' = [] /\
     turn room' = ((turn room + 1) mod length (players room))%nat /\
     scores room' = scores room /\ stock room' = stock room /\
     players room' = players room /\ spectators room' = spectators room /\
     settings room' = settings room /\ gameOver room' = gameOver room /\
     started room' = started room /\ message room' = message room /\
     lastPlayed room' = lastPlayed room).
Proof.
  intros Hok. split_and!.
  - destruct (moveBlocker_cases room sock from to) as [(f & t & Hf & Ht & Hleg & ->)|[Hno ->]].
    + split; [intros _; eauto|done].
    + split; [done|]. intros H. by apply Hno in H.
  - intros ->. done.
  - intros f t -> -> Hleg.
    destruct (moveBlocker_cases room sock (Some f) (Some t))
      as [(f' & t' & [= <-] & [= <-] & _ & ->)|[Hno _]].
    2: { exfalso. apply Hno. eauto. }
    eexists. split; [reflexivity|].
    destruct Hleg as (_ & _ & Hfin & Htin & Hfb & Hte & Hmax).
    cbn [board highlights turn scores stock players spectators settings gameOver started
           message lastPlayed set_highlights set_turn set_board].
    assert (f <> t) as Hne.
    { intros ->. rewrite !Z.sub_diag in Hmax. cbn in Hmax. lia. }
    assert (board_ok (setCell (board room) t.1 t.2 Blocker)) as Hok' by by apply setCell_ok.
    apply inBounds_spec in Hfin as Hf'. apply inBounds_spec in Htin as Ht'.
    split_and!; try reflexivity.
    + rewrite cellAt_setCell_ne, cellAt_setCell_eq; [done|done|done|done|done|lia|lia|].
      destruct f, t; cbn in *. congruence.
    + by rewrite cellAt_setCell_eq.
    + intros y Hy Hyf Hyt. apply inBounds_spec in Hy as Hy'.
      rewrite !cellAt_setCell_ne; [done|done|done|lia|lia| |done|done|lia|lia|].
      * destruct y, t; cbn in *. congruence.
      * destruct y, f; cbn in *. congruence.
Qed.

(** C8, as stated, fails: Bob has left, which reset [started], and Ann
    still moves the blocker. *)
Lemma C8_blocker_moves_in_a_room_not_started :
  started abandoned = false /\ gameOver abandoned = false /\
  cellAt (board abandoned) 0 0 = Blocker /\
  moveBlocker abandoned "a" (Some (0, 0)) (Some (1, 1)) = Updated [] pushed /\
  cellAt (board pushed) 1 1 = Blocker /\ cellAt (board pushed) 0 0 = Empty.
Proof. split_and!; vm_compute; reflexivity. Qed.

Lemma C8_witness :
  board_ok (board abandoned) /\
  moveBlocker abandoned "a" (Some (0, 0)) (Some (1, 1)) <> Ignored /\
  moveBlocker abandoned "a" (Some (0, 0)) (Some (2, 2)) = Ignored.
Proof.
  assert (board_ok (board abandoned)) as Hok.
  { split; [vm_compute; reflexivity|]. vm_compute. repeat constructor. }
  destruct (C8_blocker_moves_one_step abandoned "a" (Some (0, 0)) (Some (1, 1)) Hok)
    as (H1 & _).
  split; [exact Hok|]. split.
  - apply H1. exists (0, 0), (1, 1). split; [reflexivity|]. split; [reflexivity|].
    unfold legalMove. split_and!; vm_compute; reflexivity.
  - destruct (moveBlocker abandoned "a" (Some (0, 0)) (Some (2, 2))) eqn:E;
      [reflexivity|exfalso..]; vm_compute in E; discriminate E.
Defined.

(** * Further properties *)

(** ** The loops leave through their condition *)

Lemma off_board_after_7 b ref r c d (j sign : Z) :
  d ∈ deltas -> inBounds r c = true -> (sign = 1 \/ sign = -1) -> BOARD_SIZE <= j ->
  sameAt b ref (r + sign * j * d.1, c + sign * j * d.2) = false.
Proof.
  intros Hd Hin Hsign Hj.
  destruct (sameAt b ref (r + sign * j * d.1, c + sign * j * d.2)) eqn:E; [|done].
  pose proof (steps_on_board b ref r c d j sign Hd Hin Hsign ltac:(unfold BOARD_SIZE in *; lia) E).
  lia.
Qed.

Lemma elim_backward_stable fuel extra b placed dr dc br bc line :
  (forall j, Z.of_nat fuel <= j -> sameAt b placed (br - j * dr, bc - j * dc) = false) ->
  Elim.backward (fuel + extra) b placed dr dc br bc line =
    Elim.backward fuel b placed dr dc br bc line.
Proof.
  revert br bc line. induction fuel as [|fuel IH]; intros br bc line Hout.
  - specialize (Hout 0 ltac:(lia)).
    replace (br - 0 * dr) with br in Hout by lia. replace (bc - 0 * dc) with bc in Hout by lia.
    destruct extra as [|extra]; [done|]. cbn [Nat.add Elim.backward].
    unfold sameAt in Hout. cbn [fst snd] in Hout. by rewrite Hout.
  - cbn [Nat.add Elim.backward].
    destruct (inBounds br bc && sameOwnerSym b br bc placed); [|done].
    apply IH. intros j Hj. specialize (Hout (j + 1) ltac:(lia)).
    replace (br - dr - j * dr) with (br - (j + 1) * dr) by lia.
    replace (bc - dc - j * dc) with (bc - (j + 1) * dc) by lia. done.
Qed.

Lemma elim_forward_stable fuel extra b placed dr dc fr fc line :
  (forall j, Z.of_nat fuel <= j -> sameAt b placed (fr + j * dr, fc + j * dc) = false) ->
  Elim.forward (fuel + extra) b placed dr dc fr fc line =
    Elim.forward fuel b placed dr dc fr fc line.
Proof.
  revert fr fc line. induction fuel as [|fuel IH]; intros fr fc line Hout.
  - specialize (Hout 0 ltac:(lia)).
    replace (fr + 0 * dr) with fr in Hout by lia. replace (fc + 0 * dc) with fc in Hout by lia.
    destruct extra as [|extra]; [done|]. cbn [Nat.add Elim.forward].
    unfold sameAt in Hout. cbn [fst snd] in Hout. by rewrite Hout.
  - cbn [Nat.add Elim.forward].
    destruct (inBounds fr fc && sameOwnerSym b fr fc placed); [|done].
    apply IH. intros j Hj. specialize (Hout (j + 1) ltac:(lia)).
    replace (fr + dr + j * dr) with (fr + (j + 1) * dr) by lia.
    replace (fc + dc + j * dc) with (fc + (j + 1) * dc) by lia. done.
Qed.

(** The two [while] loops of [resolveEliminationsFrom] stop on their own
    within [BOARD_SIZE] rounds: a larger bound on the rounds builds the same
    line. *)
Theorem backward_more_fuel b placed r c d line extra :
  d ∈ deltas -> inBounds r c = true ->
  Elim.backward (Elim.fuel + extra) b placed d.1 d.2 (r - d.1) (c - d.2) line =
    Elim.backward Elim.fuel b placed d.1 d.2 (r - d.1) (c - d.2) line.
Proof.
  intros Hd Hin. apply elim_backward_stable. intros j Hj.
  pose proof (off_board_after_7 b placed r c d (j + 1) (-1) Hd Hin ltac:(lia)) as H.
  replace (r + -1 * (j + 1) * d.1) with (r - d.1 - j * d.1) in H by lia.
  replace (c + -1 * (j + 1) * d.2) with (c - d.2 - j * d.2) in H by lia.
  apply H. unfold Elim.fuel, BOARD_SIZE in *. lia.
Qed.

Theorem forward_more_fuel b placed r c d line extra :
  d ∈ deltas -> inBounds r c = true ->
  Elim.forward (Elim.fuel + extra) b placed d.1 d.2 (r + d.1) (c + d.2) line =
    Elim.forward Elim.fuel b placed d.1 d.2 (r + d.1) (c + d.2) line.
Proof.
  intros Hd Hin. apply elim_forward_stable. intros j Hj.
  pose proof (off_board_after_7 b placed r c d (j + 1) 1 Hd Hin ltac:(lia)) as H.
  replace (r + 1 * (j + 1) * d.1) with (r + d.1 + j * d.1) in H by lia.
  replace (c + 1 * (j + 1) * d.2) with (c + d.2 + j * d.2) in H by lia.
  apply H. unfold Elim.fuel, BOARD_SIZE in *. lia.
Qed.

Lemma tri_backward_stable fuel extra b pl sy dr dc br bc seg :
  (forall j, Z.of_nat fuel <= j -> sameAt b (pl, sy) (br - j * dr, bc - j * dc) = false) ->
  Tri.backward (fuel + extra) b pl sy dr dc br bc seg =
    Tri.backward fuel b pl sy dr dc br bc seg.
Proof.
  revert br bc seg. induction fuel as [|fuel IH]; intros br bc seg Hout.
  - specialize (Hout 0 ltac:(lia)).
    replace (br - 0 * dr) with br in Hout by lia. replace (bc - 0 * dc) with bc in Hout by lia.
    destruct extra as [|extra]; [done|]. cbn [Nat.add]. by rewrite tri_backward_step, Hout.
  - cbn [Nat.add]. rewrite !tri_backward_step.
    destruct (sameAt b (pl, sy) (br, bc)); [|done].
    apply IH. intros j Hj. specialize (Hout (j + 1) ltac:(lia)).
    replace (br - dr - j * dr) with (br - (j + 1) * dr) by lia.
    replace (bc - dc - j * dc) with (bc - (j + 1) * dc) by lia. done.
Qed.

Lemma tri_forward_stable fuel extra b pl sy dr dc fr fc seg :
  (forall j, Z.of_nat fuel <= j -> sameAt b (pl, sy) (fr + j * dr, fc + j * dc) = false) ->
  Tri.forward (fuel + extra) b pl sy dr dc fr fc seg =
    Tri.forward fuel b pl sy dr dc fr fc seg.
Proof.
  revert fr fc seg. induction fuel as [|fuel IH]; intros fr fc seg Hout.
  - specialize (Hout 0 ltac:(lia)).
    replace (fr + 0 * dr) with fr in Hout by lia. replace (fc + 0 * dc) with fc in Hout by lia.
    destruct extra as [|extra]; [done|]. cbn [Nat.add]. by rewrite tri_forward_step, Hout.
  - cbn [Nat.add]. rewrite !tri_forward_step.
    destruct (sameAt b (pl, sy) (fr, fc)); [|done].
    apply IH. intros j Hj. specialize (Hout (j + 1) ltac:(lia)).
    replace (fr + dr + j * dr) with (fr + (j + 1) * dr) by lia.
    replace (fc + dc + j * dc) with (fc + (j + 1) * dc) by lia. done.
Qed.

(** X1.  The four run-following loops of the scoring passes stop on their own
    within [BOARD_SIZE] rounds, for every direction and every cell of the
    board they start from: any larger bound on the rounds gives the same
    list of cells. *)
Theorem run_loops_stop_by_themselves b p s r c d line extra :
  d ∈ deltas -> inBounds r c = true ->
  Elim.backward (Elim.fuel + extra) b (p, s) d.1 d.2 (r - d.1) (c - d.2) line =
    Elim.backward Elim.fuel b (p, s) d.1 d.2 (r - d.1) (c - d.2) line /\
  Elim.forward (Elim.fuel + extra) b (p, s) d.1 d.2 (r + d.1) (c + d.2) line =
    Elim.forward Elim.fuel b (p, s) d.1 d.2 (r + d.1) (c + d.2) line /\
  Tri.backward (Tri.fuel + extra) b p s d.1 d.2 (r - d.1) (c - d.2) line =
    Tri.backward Tri.fuel b p s d.1 d.2 (r - d.1) (c - d.2) line /\
  Tri.forward (Tri.fuel + extra) b p s d.1 d.2 (r + d.1) (c + d.2) line =
    Tri.forward Tri.fuel b p s d.1 d.2 (r + d.1) (c + d.2) line.
Proof.
  intros Hd Hin.
  assert (forall j, Z.of_nat Elim.fuel <= j ->
            sameAt b (p, s) (r - d.1 - j * d.1, c - d.2 - j * d.2) = false) as Hback.
  { intros j Hj.
    pose proof (off_board_after_7 b (p, s) r c d (j + 1) (-1) Hd Hin ltac:(lia)) as H.
    replace (r + -1 * (j + 1) * d.1) with (r - d.1 - j * d.1) in H by lia.
    replace (c + -1 * (j + 1) * d.2) with (c - d.2 - j * d.2) in H by lia.
    apply H. unfold Elim.fuel, BOARD_SIZE in *. lia. }
  assert (forall j, Z.of_nat Elim.fuel <= j ->
            sameAt b (p, s) (r + d.1 + j * d.1, c + d.2 + j * d.2) = false) as Hfwd.
  { intros j Hj.
    pose proof (off_board_after_7 b (p, s) r c d (j + 1) 1 Hd Hin ltac:(lia)) as H.
    replace (r + 1 * (j + 1) * d.1) with (r + d.1 + j * d.1) in H by lia.
    replace (c + 1 * (j + 1) * d.2) with (c + d.2 + j * d.2) in H by lia.
    apply H. unfold Elim.fuel, BOARD_SIZE in *. lia. }
  split_and!.
  - by apply elim_backward_stable.
  - by apply elim_forward_stable.
  - by apply tri_backward_stable.
  - by apply tri_forward_stable.
Qed.

Lemma run_loops_stop_witness :
  (0, 1) ∈ deltas /\ inBounds 0 2 = true /\
  Elim.backward (Elim.fuel + 5) (board pairStruck) (0%nat, Rock) 0 1 0 1 [(0, 2)] =
    [(0, 1); (0, 2)].
Proof.
  assert ((0, 1) ∈ deltas) as Hd by (unfold deltas; repeat constructor).
  assert (inBounds 0 2 = true) as Hin by reflexivity.
  destruct (run_loops_stop_by_themselves (board pairStruck) 0%nat Rock 0 2 (0, 1)
              [(0, 2)] 5 Hd Hin) as (H & _).
  split; [exact Hd|]. split; [exact Hin|].
  cbn [fst snd] in H. etrans; [exact H|]. vm_compute. reflexivity.
Defined.
(** ** Empty cells and blockers *)

Lemma elem_of_allCells x : x ∈ allCells <-> inBounds x.1 x.2 = true.
Proof.
  unfold allCells. rewrite inBounds_spec. destruct x as [r c]. cbn [fst snd].
  rewrite list_elem_of_bind. split.
  - intros (r' & (c' & Hx & Hc)%list_elem_of_bind & Hr).
    apply list_elem_of_singleton in Hx. simplify_eq.
    apply elem_of_seqZ in Hr, Hc. lia.
  - intros [Hr Hc]. exists r. split; [|apply elem_of_seqZ; lia].
    apply list_elem_of_bind. exists c. split; [by apply list_elem_of_singleton|].
    apply elem_of_seqZ; lia.
Qed.

Lemma allCells_NoDup : NoDup allCells.
Proof. apply (bool_decide_unpack _). vm_compute. reflexivity. Qed.

Lemma bind_filter_cells (P : Pos -> Prop) `{!forall x, Decision (P x)} (rs cs : list Z) :
  (r ← rs; c ← cs; if bool_decide (P (r, c)) then [(r, c)] else []) =
    filter P (r ← rs; c ← cs; [(r, c)]).
Proof.
  induction rs as [|r rs IH]; [reflexivity|].
  cbn [mbind list_bind]. rewrite filter_app. f_equal; [|exact IH].
  clear IH. induction cs as [|c cs IH]; [reflexivity|].
  cbn [mbind list_bind app]. rewrite filter_cons, <- IH.
  by case_bool_decide; case_decide.
Qed.

Lemma emptyCells_filter b :
  emptyCells b = filter (fun x => cellAt b x.1 x.2 = Empty) allCells.
Proof.
  unfold emptyCells, allCells.
  exact (bind_filter_cells (fun x => cellAt b x.1 x.2 = Empty) _ _).
Qed.

Lemma elem_of_emptyCells b x :
  x ∈ emptyCells b <-> inBounds x.1 x.2 = true /\ cellAt b x.1 x.2 = Empty.
Proof.
  rewrite emptyCells_filter, list_elem_of_filter, elem_of_allCells. tauto.
Qed.

Lemma elem_of_cellsHolding v b x :
  x ∈ cellsHolding v b <-> inBounds x.1 x.2 = true /\ cellAt b x.1 x.2 = v.
Proof.
  unfold cellsHolding. rewrite list_elem_of_filter, elem_of_allCells. tauto.
Qed.

(** Changing what one position of a list without duplicates satisfies
    changes the count by one. *)
Lemma filter_length_gain {A} (P Q : A -> Prop) `{!forall x, Decision (P x)}
    `{!forall x, Decision (Q x)} (l : list A) (x : A) :
  NoDup l -> x ∈ l -> ~ P x -> Q x -> (forall y, y ∈ l -> y <> x -> (P y <-> Q y)) ->
  length (filter Q l) = S (length (filter P l)).
Proof.
  intros Hnd Hx HP HQ Hsame. induction Hnd as [|a l Ha Hnd IH]; [by apply elem_of_nil in Hx|].
  rewrite !filter_cons. apply elem_of_cons in Hx as [<-|Hx].
  - rewrite decide_True, decide_False by done. cbn [length]. f_equal. f_equal.
    apply filter_ext_elem. intros y Hy. symmetry. apply Hsame; [by right|].
    intros ->. done.
  - assert (a <> x) as Hne by (intros ->; done).
    specialize (IH Hx ltac:(intros y Hy ?; apply Hsame; [by right|done])).
    destruct (Hsame a ltac:(by left) Hne) as [H1 H2].
    destruct (decide (P a)), (decide (Q a)); cbn [length]; rewrite ?IH; tauto || done.
Qed.


Lemma randomEmptyCell_Some x b r c :
  randomEmptyCell x b = Some (r, c) -> (r, c) ∈ emptyCells b.
Proof.
  unfold randomEmptyCell. case_bool_decide; [done|]. apply list_elem_of_lookup_2.
Qed.

Lemma randomEmptyCell_None x b :
  randomEmptyCell x b = None <-> emptyCells b = [].
Proof.
  unfold randomEmptyCell. case_bool_decide as Hlen.
  - split; [|done]. intros _. by apply length_zero_iff_nil.
  - split.
    + intros Hnone%lookup_ge_None_1.
      pose proof (Nat.mod_upper_bound x (length (emptyCells b)) Hlen). lia.
    + intros E. by rewrite E in Hlen.
Qed.

Lemma boardFull_emptyCells b :
  board_ok b -> boardFull b = true <-> emptyCells b = [].
Proof.
  intros [Hlen Hrows]. unfold boardFull. rewrite forallb_forall. split.
  - intros Hfull. apply elem_of_nil_inv. intros [r c] [Hin Hcell]%elem_of_emptyCells.
    cbn [fst snd] in *. apply inBounds_spec in Hin as [Hr Hc]. unfold cellAt in Hcell.
    destruct (b !! Z.to_nat r) as [row|] eqn:Er.
    + destruct (row !! Z.to_nat c) as [v|] eqn:Ec.
      * simpl in Hcell. subst v.
        assert (In row b) as Hrow by (apply list_elem_of_In; by eapply list_elem_of_lookup_2).
        specialize (Hfull row Hrow). rewrite forallb_forall in Hfull.
        assert (In Empty row) as Hv by (apply list_elem_of_In; by eapply list_elem_of_lookup_2).
        specialize (Hfull Empty Hv). by rewrite bool_decide_eq_true_2 in Hfull.
      * apply lookup_ge_None_1 in Ec.
        pose proof (Forall_lookup_1 _ _ _ _ Hrows Er) as Hl. cbn beta in Hl.
        unfold BOARD_SIZE in *. lia.
    + apply lookup_ge_None_1 in Er. unfold BOARD_SIZE in *. lia.
  - intros Hnil row Hrow%list_elem_of_In. rewrite forallb_forall.
    intros v Hv%list_elem_of_In. apply negb_true_iff, bool_decide_eq_false_2. intros ->.
    apply list_elem_of_lookup_1 in Hrow as [i Hi], Hv as [j Hj].
    pose proof (lookup_lt_Some _ _ _ Hi). pose proof (lookup_lt_Some _ _ _ Hj).
    pose proof (Forall_lookup_1 _ _ _ _ Hrows Hi) as Hl. cbn beta in Hl.
    assert ((Z.of_nat i, Z.of_nat j) ∈ emptyCells b) as Hel.
    { apply elem_of_emptyCells. cbn [fst snd]. split.
      - apply inBounds_spec. unfold BOARD_SIZE in *. lia.
      - unfold cellAt. by rewrite !Nat2Z.id, Hi, Hj. }
    rewrite Hnil in Hel. by apply elem_of_nil in Hel.
Qed.

Lemma setCell_Blocker_counts b r c :
  board_ok b -> (r, c) ∈ emptyCells b ->
  length (cellsHolding Blocker (setCell b r c Blocker)) = S (length (cellsHolding Blocker b)) /\
  length (emptyCells b) = S (length (emptyCells (setCell b r c Blocker))).
Proof.
  intros Hok [Hin Hcell]%elem_of_emptyCells. cbn [fst snd] in *.
  assert (forall y, y ∈ allCells -> y <> (r, c) ->
            cellAt (setCell b r c Blocker) y.1 y.2 = cellAt b y.1 y.2) as Hother.
  { intros [r' c'] [Hr Hc]%elem_of_allCells%inBounds_spec Hne. cbn [fst snd] in *.
    apply cellAt_setCell_ne; [done|done|lia|lia|done]. }
  assert ((r, c) ∈ allCells) as Hel by (by apply elem_of_allCells).
  split.
  - unfold cellsHolding.
    apply (filter_length_gain _ _ _ (r, c) allCells_NoDup Hel); cbn [fst snd].
    + by rewrite Hcell.
    + by apply cellAt_setCell_eq.
    + intros y Hy Hne. by rewrite Hother.
  - rewrite !emptyCells_filter.
    apply (filter_length_gain _ _ _ (r, c) allCells_NoDup Hel); cbn [fst snd].
    + by rewrite cellAt_setCell_eq.
    + done.
    + intros y Hy Hne. by rewrite Hother.
Qed.

(** X2.  [randomEmptyCell] answers [null] exactly on a full board, and
    otherwise with a cell of the board that is empty, whatever
    [Math.random()] gives. *)
Theorem randomEmptyCell_picks_an_empty_cell x b :
  board_ok b ->
  (randomEmptyCell x b = None <-> boardFull b = true) /\
  (boardFull b = false -> exists r c, randomEmptyCell x b = Some (r, c)) /\
  (forall r c, randomEmptyCell x b = Some (r, c) ->
     inBounds r c = true /\ cellAt b r c = Empty).
Proof.
  intros Hok. split_and!.
  - by rewrite randomEmptyCell_None, boardFull_emptyCells.
  - intros Hfull. destruct (randomEmptyCell x b) as [[r c]|] eqn:E; [by eauto|].
    apply randomEmptyCell_None, (boardFull_emptyCells b Hok) in E. congruence.
  - intros r c Hsome%randomEmptyCell_Some. by apply elem_of_emptyCells in Hsome.
Qed.

Lemma randomEmptyCell_witness :
  board_ok (board pairStruck) /\
  randomEmptyCell 70 (board pairStruck) = Some (1, 2) /\
  cellAt (board pairStruck) 1 2 = Empty.
Proof.
  assert (board_ok (board pairStruck)) as Hok.
  { split; [reflexivity|]. vm_compute. repeat constructor. }
  split; [exact Hok|].
  assert (randomEmptyCell 70 (board pairStruck) = Some (1, 2)) as E
    by (vm_compute; reflexivity).
  split; [exact E|].
  destruct (randomEmptyCell_picks_an_empty_cell 70 (board pairStruck) Hok) as (_ & _ & H).
  exact (proj2 (H 1 2 E)).
Defined.

Lemma placeRandomBlockers_spec rnd k b todo :
  board_ok b ->
  let b' := placeRandomBlockers rnd k b todo in
  board_ok b' /\
  (forall r c, inBounds r c = true ->
     cellAt b' r c = cellAt b r c \/ (cellAt b r c = Empty /\ cellAt b' r c = Blocker)) /\
  length (cellsHolding Blocker b') =
    (length (cellsHolding Blocker b) + Nat.min todo (length (emptyCells b)))%nat /\
  length (emptyCells b') = (length (emptyCells b) - todo)%nat.
Proof.
  revert k b. induction todo as [|todo IH]; intros k b Hok; cbn zeta.
  { cbn [placeRandomBlockers]. split_and!; [done|by left|lia|lia]. }
  cbn [placeRandomBlockers].
  destruct (randomEmptyCell (rnd k) b) as [[r c]|] eqn:E.
  - pose proof (randomEmptyCell_Some _ _ _ _ E) as Hel.
    pose proof Hel as [Hin Hcell]%elem_of_emptyCells. cbn [fst snd] in Hin, Hcell.
    destruct (setCell_Blocker_counts b r c Hok Hel) as [Hbl Hem].
    destruct (IH (S k) (setCell b r c Blocker) (setCell_ok _ _ _ _ Hok))
      as (Hok' & Hcells & Hcount & Hempty).
    split_and!; [done| | |].
    + intros r' c' Hin'. pose proof Hin' as [? ?]%inBounds_spec.
      destruct (Hcells r' c' Hin') as [Hsame|[Hwas Hnow]].
      * rewrite Hsame. rewrite cellAt_setCell by (done || lia).
        case_decide as Hd; [|by left]. destruct Hd as [-> ->]. by right.
      * rewrite cellAt_setCell in Hwas by (done || lia).
        case_decide; [done|]. by right.
    + rewrite Hcount, Hbl. lia.
    + rewrite Hempty. lia.
  - apply randomEmptyCell_None in E. rewrite E. cbn [length].
    split_and!; [done|by left|lia|lia].
Qed.

(** X3.  [placeRandomBlockers(board, count)] turns exactly [count] empty cells
    into blockers, or all of them when fewer are empty, and changes no
    other cell, whatever [Math.random()] gives. *)
Theorem placeRandomBlockers_fills_empty_cells rnd k b todo :
  board_ok b ->
  let b' := placeRandomBlockers rnd k b todo in
  board_ok b' /\
  (forall r c, inBounds r c = true ->
     cellAt b' r c = cellAt b r c \/ (cellAt b r c = Empty /\ cellAt b' r c = Blocker)) /\
  length (cellsHolding Blocker b') =
    (length (cellsHolding Blocker b) + Nat.min todo (length (emptyCells b)))%nat /\
  length (emptyCells b') = (length (emptyCells b) - todo)%nat.
Proof. apply placeRandomBlockers_spec. Qed.

Lemma placeRandomBlockers_witness :
  board_ok createEmptyBoard /\
  length (cellsHolding Blocker (placeRandomBlockers (fun k => (7 * k)%nat) 0 createEmptyBoard 8))
    = 8%nat.
Proof.
  split; [exact createEmptyBoard_ok|].
  destruct (placeRandomBlockers_fills_empty_cells (fun k => (7 * k)%nat) 0 createEmptyBoard 8
              createEmptyBoard_ok) as (_ & _ & H & _).
  etrans; [exact H|]. vm_compute. reflexivity.
Defined.
(** ** Settings of a new game *)

Lemma digitsFrom_not_NegInf s acc : digitsFrom s acc <> NegInf.
Proof.
  revert acc. induction s as [|a s IH]; intros acc; cbn [digitsFrom].
  - by destruct acc.
  - destruct (digitOf a); [apply IH|by destruct acc].
Qed.

Lemma parseInt_not_NegInf v : parseInt v <> NegInf.
Proof.
  destruct v as [| |z|s]; cbn [parseInt]; try done.
  assert (forall t, num_opp (digitsFrom t None) <> NegInf) as Hopp.
  { intros t. pose proof (digitsFrom_not_NegInf t None).
    by destruct (digitsFrom t None). }
  repeat case_match; subst; auto using digitsFrom_not_NegInf.
Qed.

Lemma clampSetting_Int lo hi d v z :
  parseInt (nullish v d) = Int z -> clampSetting lo hi d v = Int (Z.max lo (Z.min hi z)).
Proof. unfold clampSetting. by intros ->. Qed.

(** X4.  A setting of [newGame] that [parseInt] can read ends between its two
    bounds; one that is missing or [null] ends at its default; and the only
    other outcome is [NaN], for a value [parseInt] cannot read. *)
Theorem clampSetting_in_range lo hi d v :
  lo <= hi ->
  (forall z, parseInt (nullish v d) = Int z ->
     clampSetting lo hi d v = Int (Z.max lo (Z.min hi z)) /\
     lo <= Z.max lo (Z.min hi z) <= hi /\
     (lo <= z <= hi -> clampSetting lo hi d v = Int z)) /\
  (v = JsUndefined \/ v = JsNull -> clampSetting lo hi d v = Int (Z.max lo (Z.min hi d))) /\
  (clampSetting lo hi d v = NaN <-> parseInt (nullish v d) = NaN) /\
  clampSetting lo hi d v <> NegInf.
Proof.
  intros Hle. split_and!.
  - intros z Hz. rewrite (clampSetting_Int _ _ _ _ _ Hz). split; [done|]. split; [lia|].
    intros ?. f_equal. lia.
  - by intros [-> | ->].
  - unfold clampSetting. pose proof (parseInt_not_NegInf (nullish v d)).
    by destruct (parseInt (nullish v d)).
  - unfold clampSetting. by destruct (parseInt (nullish v d)).
Qed.

Lemma clampSetting_witness :
  0 <= BOARD_SIZE * BOARD_SIZE /\
  clampSetting 0 (BOARD_SIZE * BOARD_SIZE) 8 (JsString " 70 blockers") = Int 64.
Proof.
  assert (0 <= BOARD_SIZE * BOARD_SIZE) as Hle by (unfold BOARD_SIZE; lia).
  split; [exact Hle|].
  destruct (clampSetting_in_range 0 (BOARD_SIZE * BOARD_SIZE) 8 (JsString " 70 blockers") Hle)
    as (H & _).
  destruct (H 70 ltac:(vm_compute; reflexivity)) as (E & _).
  etrans; [exact E|]. reflexivity.
Defined.

(** ** New game *)

Lemma createEmptyBoard_cells r c : cellAt createEmptyBoard r c = Empty.
Proof.
  unfold cellAt, createEmptyBoard.
  destruct (replicate _ _ !! Z.to_nat r) as [row|] eqn:Er; [|done].
  apply lookup_replicate in Er as [-> _].
  destruct (replicate _ _ !! Z.to_nat c) as [v|] eqn:Ec; [|done].
  by apply lookup_replicate in Ec as [-> _].
Qed.

Lemma dealt_board rnd (n : num) :
  n = NaN \/ (exists count, n = Int count /\ 0 <= count <= BOARD_SIZE * BOARD_SIZE) ->
  let bd :=
    match n with
    | Int count =>
        if 0 <? count then placeRandomBlockers rnd 0 createEmptyBoard (Z.to_nat count)
        else createEmptyBoard
    | _ => createEmptyBoard
    end in
  board_ok bd /\
  (forall r c, inBounds r c = true -> cellAt bd r c = Empty \/ cellAt bd r c = Blocker) /\
  (forall count, n = Int count -> length (cellsHolding Blocker bd) = Z.to_nat count) /\
  (n = NaN -> bd = createEmptyBoard).
Proof.
  assert (length (cellsHolding Blocker createEmptyBoard) = 0%nat) as Hnone
    by (vm_compute; reflexivity).
  assert (length (emptyCells createEmptyBoard) = 64%nat) as Hall
    by (vm_compute; reflexivity).
  intros [->|(count & -> & Hcount)]; cbn zeta.
  { split_and!; [apply createEmptyBoard_ok| |done|done].
    intros r c _. left. apply createEmptyBoard_cells. }
  destruct (0 <? count) eqn:Hpos.
  - destruct (placeRandomBlockers_spec rnd 0 createEmptyBoard (Z.to_nat count)
                createEmptyBoard_ok) as (Hok & Hcells & Hbl & _).
    split_and!; [done| | |done].
    + intros r c Hin. destruct (Hcells r c Hin) as [E|[_ E]]; [|by right].
      left. rewrite E. apply createEmptyBoard_cells.
    + intros ? [= <-]. rewrite Hbl, Hnone, Hall. unfold BOARD_SIZE in *. lia.
  - apply Z.ltb_ge in Hpos. split_and!; [apply createEmptyBoard_ok| | |done].
    + intros r c _. left. apply createEmptyBoard_cells.
    + intros ? [= <-]. rewrite Hnone. lia.
Qed.

Lemma newGame_Updated rnd room sock t b p :
  bool_decide (is_Some (findSocket sock (players room)))
  || bool_decide (is_Some (findSocket sock (spectators room))) = true ->
  newGame rnd room sock t b p =
    emitRoomStateOnce
      {| settings :=
           mkSettings (clampSetting 1 99 10 t)
             (clampSetting 0 (BOARD_SIZE * BOARD_SIZE) 8 b) (clampSetting 1 999 7 p);
         players := players room; spectators := spectators room;
         turn := 0%nat; lastPlayed := ∅; scores := freshScores (length (players room));
         stock := freshStock (length (players room)) (clampSetting 1 99 10 t);
         board :=
           match clampSetting 0 (BOARD_SIZE * BOARD_SIZE) 8 b with
           | Int count =>
               if 0 <? count
               then placeRandomBlockers rnd 0 createEmptyBoard (Z.to_nat count)
               else createEmptyBoard
           | _ => createEmptyBoard
           end;
         gameOver := false; message := MsgNewGame; started := true; highlights := [] |}.
Proof. intros Hmem. unfold newGame. rewrite Hmem. reflexivity. Qed.

Lemma newGame_spec rnd room sock t b p flash room' :
  newGame rnd room sock t b p = Updated flash room' ->
  (is_Some (findSocket sock (players room)) \/ is_Some (findSocket sock (spectators room))) /\
  flash = [] /\
  players room' = players room /\ spectators room' = spectators room /\
  turn room' = 0%nat /\ started room' = true /\ gameOver room' = false /\
  lastPlayed room' = ∅ /\ highlights room' = [] /\ message room' = MsgNewGame /\
  scores room' = freshScores (length (players room)) /\
  stock room' = freshStock (length (players room)) (tilesPerSymbol (settings room')) /\
  board_ok (board room') /\
  (forall r c, inBounds r c = true ->
     cellAt (board room') r c = Empty \/ cellAt (board room') r c = Blocker) /\
  (forall count, blockers (settings room') = Int count ->
     0 <= count <= BOARD_SIZE * BOARD_SIZE /\
     length (cellsHolding Blocker (board room')) = Z.to_nat count) /\
  (blockers (settings room') = NaN -> board room' = createEmptyBoard).
Proof.
  intros H.
  destruct (bool_decide (is_Some (findSocket sock (players room)))
            || bool_decide (is_Some (findSocket sock (spectators room)))) eqn:Hmem.
  2: { unfold newGame in H. rewrite Hmem in H. discriminate H. }
  rewrite (newGame_Updated _ _ _ _ _ _ Hmem) in H. unfold emitRoomStateOnce in H.
  injection H as <- <-.
  cbn [settings players spectators turn lastPlayed scores stock board gameOver message
       started highlights set_highlights tilesPerSymbol blockers].
  assert (clampSetting 0 (BOARD_SIZE * BOARD_SIZE) 8 b = NaN \/
          exists count, clampSetting 0 (BOARD_SIZE * BOARD_SIZE) 8 b = Int count /\
            0 <= count <= BOARD_SIZE * BOARD_SIZE) as Hcases.
  { unfold clampSetting. pose proof (parseInt_not_NegInf (nullish b 8)).
    destruct (parseInt (nullish b 8)) as [| |z]; [by left|done|right].
    eexists. split; [reflexivity|]. unfold BOARD_SIZE. lia. }
  destruct (dealt_board rnd _ Hcases) as (Hok & Hcells & Hcount & Hnan).
  split_and!; try done.
  - apply orb_true_iff in Hmem as [Hm|Hm]; apply bool_decide_eq_true in Hm; [by left|by right].
  - intros count E. split; [|by apply Hcount].
    destruct Hcases as [Hc|(count' & Hc & ?)]; rewrite Hc in E; [done|]. by injection E as <-.
Qed.

(** X5.  [newGame] is open to the players and the spectators of the room only.
    It keeps the seats, gives the turn to the first seat, resets every
    score to [0] and every stock to the tile setting, and deals a board
    that holds nothing but blockers: as many as the blocker setting says,
    none when that setting is [NaN]. *)
Theorem newGame_deals_a_fresh_board rnd room sock t b p flash room' :
  newGame rnd room sock t b p = Updated flash room' ->
  (is_Some (findSocket sock (players room)) \/ is_Some (findSocket sock (spectators room))) /\
  flash = [] /\
  players room' = players room /\ spectators room' = spectators room /\
  turn room' = 0%nat /\ started room' = true /\ gameOver room' = false /\
  lastPlayed room' = ∅ /\ highlights room' = [] /\ message room' = MsgNewGame /\
  scores room' = freshScores (length (players room)) /\
  stock room' = freshStock (length (players room)) (tilesPerSymbol (settings room')) /\
  board_ok (board room') /\
  (forall r c, inBounds r c = true ->
     cellAt (board room') r c = Empty \/ cellAt (board room') r c = Blocker) /\
  (forall count, blockers (settings room') = Int count ->
     0 <= count <= BOARD_SIZE * BOARD_SIZE /\
     length (cellsHolding Blocker (board room')) = Z.to_nat count) /\
  (blockers (settings room') = NaN -> board room' = createEmptyBoard).
Proof. apply newGame_spec. Qed.

Lemma newGame_witness :
  exists room',
    newGame (fun k => (5 * k)%nat) lobby2 "b" (JsString "12") JsNull (JsInt 3)
      = Updated [] room' /\
    length (cellsHolding Blocker (board room')) = 8%nat /\
    stock room' = freshStock 2 (Int 12).
Proof.
  destruct (newGame (fun k => (5 * k)%nat) lobby2 "b" (JsString "12") JsNull (JsInt 3))
    as [|flash room'| |] eqn:E; try (exfalso; vm_compute in E; discriminate E).
  destruct (newGame_deals_a_fresh_board _ _ _ _ _ _ _ _ E)
    as (_ & -> & _ & _ & _ & _ & _ & _ & _ & _ & _ & Hstock & _ & _ & Hcount & _).
  exists room'. split; [reflexivity|].
  assert (settings room' = mkSettings (Int 12) (Int 8) (Int 3)) as Hset.
  { vm_compute in E. injection E as <-. reflexivity. }
  rewrite Hset in Hcount, Hstock. split.
  - exact (proj2 (Hcount 8 eq_refl)).
  - exact Hstock.
Defined.
(** ** What every room of the registry satisfies *)

Lemma reachableBy_play allowed room e :
  reachableBy allowed room -> allowed e ->
  reachableBy allowed (play room (fun room => handle room e)).
Proof.
  intros Hr He. unfold play.
  destruct (roomAfter room (handle room e)) as [room'|] eqn:E; [|done].
  by eapply reach_step.
Qed.

Lemma reachableBy_ind_inv allowed (I : Room -> Prop) :
  I ensureRoom ->
  (forall room e room', I room -> allowed e ->
     roomAfter room (handle room e) = Some room' -> I room') ->
  forall room, reachableBy allowed room -> I room.
Proof. intros H0 Hstep room Hr. induction Hr; eauto. Qed.

(** *** What each handler leaves untouched *)

Lemma joinRoom_after room sock name asSpectator room' :
  roomAfter room (joinRoom room sock name asSpectator) = Some room' ->
  board room' = board room /\ turn room' = turn room /\ settings room' = settings room /\
  ((started room = false /\ asSpectator = false /\ (length (players room) < 4)%nat /\
    players room' =
      players room ++ [mkPlayer sock (nameOr name (seatLabel (length (players room))))] /\
    spectators room' = spectators room /\
    scores room' = freshScores (S (length (players room))) /\
    stock room' = freshStock (S (length (players room))) (tilesPerSymbol (settings room))) \/
   ((started room = true \/ asSpectator = true \/ (4 <= length (players room))%nat) /\
    players room' = players room /\
    spectators room' = spectators room ++ [mkPlayer sock (nameOr name "Spectator")] /\
    scores room' = scores room /\ stock room' = stock room)).
Proof.
  unfold joinRoom.
  destruct (started room) eqn:Hst; cbn [negb andb].
  { intros [= <-]. split_and!; [done..|]. right. split_and!; auto. }
  destruct asSpectator; cbn [negb andb].
  { intros [= <-]. split_and!; [done..|]. right. split_and!; auto. }
  destruct (length (players room) <? 4)%nat eqn:Hlen.
  - apply Nat.ltb_lt in Hlen.
    cbn [started set_players]. rewrite Hst. cbn [negb].
    intros [= <-]. split_and!; [done..|]. left.
    cbn [players spectators scores stock settings set_players set_stock set_scores
         set_highlights emitRoomStateOnce].
    rewrite length_app. cbn [length]. rewrite Nat.add_1_r. split_and!; done.
  - apply Nat.ltb_ge in Hlen.
    intros [= <-]. split_and!; [done..|]. right. split_and!; auto.
Qed.

Lemma leaveRoom_after room sock room' :
  roomAfter room (leaveRoom room sock) = Some room' ->
  board room' = board room /\ settings room' = settings room /\
  ((exists pIdx, findSocket sock (players room) = Some pIdx /\
      players room' = delete pIdx (players room) /\
      scores room' = delete pIdx (scores room) /\
      stock room' = delete pIdx (stock room) /\
      turn room' =
        if (length (delete pIdx (players room)) <=? turn room)%nat then 0%nat else turn room) \/
   (findSocket sock (players room) = None /\
      players room' = players room /\ scores room' = scores room /\
      stock room' = stock room /\ turn room' = turn room)) /\
  players room' <> [].
Proof.
  unfold leaveRoom.
  destruct (findSocket sock (spectators room)) as [sIdx|];
    cbn [players set_spectators];
    (destruct (findSocket sock (players room)) as [pIdx|];
     cbn [players set_spectators set_players set_turn set_scores set_stock turn scores stock];
     [destruct (length (delete pIdx (players room)) <=? turn room)%nat eqn:Hturn|];
     cbn [players set_spectators set_players set_turn set_scores set_stock turn scores stock];
     case_bool_decide as Hlen; try done;
     intros [= <-];
     cbn [players scores stock turn board settings set_highlights set_message set_gameOver
          set_started set_stock set_scores set_turn set_players set_spectators];
     (split_and!; [done|done| |by intros E; rewrite E in Hlen]);
     first [ left; exists pIdx; by rewrite ?Hturn | by right ]).
Qed.

Lemma disconnect_after room sock room' :
  roomAfter room (disconnect room sock) = Some room' ->
  board room' = board room /\ settings room' = settings room /\ turn room' = turn room /\
  started room' = started room /\ gameOver room' = gameOver room /\
  message room' = message room /\ lastPlayed room' = lastPlayed room /\
  ((exists pIdx, findSocket sock (players room) = Some pIdx /\
      players room' = delete pIdx (players room) /\
      scores room' = delete pIdx (scores room) /\
      stock room' = delete pIdx (stock room)) \/
   (findSocket sock (players room) = None /\
      players room' = players room /\ scores room' = scores room /\
      stock room' = stock room)) /\
  spectators room' =
    match findSocket sock (spectators room) with
    | Some sIdx => delete sIdx (spectators room)
    | None => spectators room
    end /\
  players room' <> [].
Proof.
  unfold disconnect.
  destruct (findSocket sock (players room)) as [pIdx|];
    cbn [spectators set_players set_scores set_stock];
    destruct (findSocket sock (spectators room)) as [sIdx|];
    cbn [players set_spectators set_players set_scores set_stock];
    case_bool_decide as Hlen; try done;
    intros [= <-];
    cbn [players scores stock turn board settings spectators started gameOver message
         lastPlayed set_highlights set_stock set_scores set_players set_spectators];
    (split_and!; try done; [|by intros E; rewrite E in Hlen]);
    first [ left; by exists pIdx | by right ].
Qed.

Lemma conclude_turn room p before room' :
  roomAfter before (conclude room p) = Some room' ->
  turn room' = turn room \/
  turn room' = ((turn room + 1) mod length (players room))%nat.
Proof.
  pose proof (conclude_not_Ignored room p) as Hni.
  unfold conclude in *. repeat case_match; try done; intros [= <-]; auto.
Qed.

Lemma findSocket_lt sock arr i : findSocket sock arr = Some i -> (i < length arr)%nat.
Proof.
  unfold findSocket. destruct (list_find _ arr) as [[j x]|] eqn:E; [|done].
  intros [= <-]. apply list_find_Some in E as (Hj & _). by eapply lookup_lt_Some.
Qed.

Lemma placePiece_cases room sock r c sym room' :
  roomAfter room (placePiece room sock r c sym) = Some room' ->
  room' = room \/
  exists p s, accepts room sock r c sym p s /\
    (turn room' = turn room \/
     turn room' = ((turn room + 1) mod length (players room))%nat).
Proof.
  intros Hafter.
  destruct (placePiece room sock r c sym) as [|flash room''| |room''] eqn:E.
  - left. by injection Hafter as <-.
  - right. destruct (placePiece_not_Ignored room sock r c sym) as (p & s & Hacc);
      [by rewrite E|].
    exists p, s. split; [done|].
    rewrite (placePiece_accepts _ _ _ _ _ _ _ Hacc) in E.
    pose proof (scored_frame room p r c s) as (Ht & _).
    pose proof (scorePlacement_frame (place room p r c s) p r c) as (_ & Hpl & _).
    destruct (conclude_turn (scorePlacement (place room p r c s) p r c) p room room')
      as [H|H]; [by rewrite E| |].
    + left. by rewrite H, Ht.
    + right. by rewrite H, Ht, Hpl.
  - done.
  - right. destruct (placePiece_not_Ignored room sock r c sym) as (p & s & Hacc);
      [by rewrite E|].
    exists p, s. split; [done|].
    rewrite (placePiece_accepts _ _ _ _ _ _ _ Hacc) in E.
    pose proof (scored_frame room p r c s) as (Ht & _).
    pose proof (scorePlacement_frame (place room p r c s) p r c) as (_ & Hpl & _).
    destruct (conclude_turn (scorePlacement (place room p r c s) p r c) p room room')
      as [H|H]; [by rewrite E| |].
    + left. by rewrite H, Ht.
    + right. by rewrite H, Ht, Hpl.
Qed.

Lemma moveBlocker_after room sock from to room' :
  roomAfter room (moveBlocker room sock from to) = Some room' ->
  room' = room \/
  exists f t, legalMove room sock f t /\
    room' = set_highlights []
              (set_turn ((turn room + 1) mod length (players room))%nat
                 (set_highlights []
                    (set_board (setCell (setCell (board room) t.1 t.2 Blocker) f.1 f.2 Empty)
                       room))).
Proof.
  destruct (moveBlocker_cases room sock from to) as [(f & t & _ & _ & Hlegal & ->)|[_ ->]].
  - intros [= <-]. right. by exists f, t.
  - intros [= <-]. by left.
Qed.

Lemma newGame_after rnd room sock t b p room' :
  roomAfter room (newGame rnd room sock t b p) = Some room' ->
  room' = room \/ exists flash, newGame rnd room sock t b p = Updated flash room'.
Proof.
  destruct (newGame rnd room sock t b p) as [|flash room''| |room''] eqn:E.
  - intros [= <-]. by left.
  - intros [= <-]. right. by exists flash.
  - done.
  - unfold newGame in E. by case_match.
Qed.

(** *** The board *)

Lemma handle_board_ok room e room' :
  board_ok (board room) -> roomAfter room (handle room e) = Some room' ->
  board_ok (board room').
Proof.
  intros Hok. destruct e as [sock name sp|sock|rnd sock t b p|sock r c sym|sock from to|sock];
    cbn [handle]; intros Hafter.
  - apply joinRoom_after in Hafter as (-> & _). done.
  - apply leaveRoom_after in Hafter as (-> & _). done.
  - apply newGame_after in Hafter as [->|[flash E]]; [done|].
    by apply newGame_spec in E as (_ & _ & _ & _ & _ & _ & _ & _ & _ & _ & _ & _ & H & _).
  - pose proof Hafter as Hafter'.
    apply placePiece_cases in Hafter as [->|(p & s & Hacc & _)]; [done|].
    destruct (placePiece_after _ _ _ _ _ _ _ _ Hacc Hafter') as (-> & _).
    pose proof Hacc as (_ & _ & _ & _ & Hin & _).
    eapply resolve_spec; [by apply setCell_ok|by apply cellAt_setCell_eq].
  - apply moveBlocker_after in Hafter as [->|(f & t & _ & ->)]; [done|].
    cbn [board set_highlights set_turn set_board]. by do 2 apply setCell_ok.
  - apply disconnect_after in Hafter as (-> & _). done.
Qed.

(** X6.  Every room of the registry holds a board of eight rows of eight
    cells, whatever the sockets send. *)
Theorem every_room_has_a_full_board room :
  reachableBy anyEvent room -> board_ok (board room).
Proof.
  revert room. apply (reachableBy_ind_inv anyEvent (fun room => board_ok (board room))).
  - apply createEmptyBoard_ok.
  - intros r e r' Hok _. by apply handle_board_ok.
Qed.

Lemma every_room_has_a_full_board_witness : board_ok (board misplaced).
Proof.
  apply every_room_has_a_full_board. unfold misplaced, flanked, game2, lobby2.
  apply (reachableBy_play _ _ (PlacePiece "a" 0 1 "R")); [|done].
  apply (reachableBy_play _ _ (PlacePiece "b" 0 2 "P")); [|done].
  apply (reachableBy_play _ _ (PlacePiece "a" 7 5 "R")); [|done].
  apply (reachableBy_play _ _ (PlacePiece "b" 0 0 "P")); [|done].
  apply (reachableBy_play _ _ (PlacePiece "a" 7 7 "R")); [|done].
  apply (reachableBy_play _ _ (NewGame (fun _ => 0%nat) "a" JsUndefined (JsInt 0) JsUndefined));
    [|done].
  apply (reachableBy_play _ _ (JoinRoom "b" "Bob" false)); [|done].
  apply (reachableBy_play _ _ (JoinRoom "a" "Ann" false)); [|done].
  apply reach_new.
Defined.

(** *** The seats *)

Lemma length_arraySet arr i v : (length arr <= length (arraySet arr i v))%nat.
Proof.
  unfold arraySet. case_decide.
  - by rewrite length_insert.
  - rewrite length_app. lia.
Qed.

Lemma length_credit p k arr : (length arr <= length (credit p k arr))%nat.
Proof. unfold credit, addScore. case_match; [apply length_arraySet|done]. Qed.

Lemma length_awards arr awards : (length arr <= length (foldl award arr awards))%nat.
Proof.
  revert arr. induction awards as [|a awards IH]; intros arr; [done|].
  cbn [foldl]. etrans; [|apply IH]. apply length_arraySet.
Qed.

Lemma place_stock_length room p r c s :
  length (stock (place room p r c s)) = length (stock room).
Proof. unfold place. cbn [stock set_highlights set_lastPlayed set_stock set_board].
  by rewrite length_alter. Qed.

Lemma handle_seats_ok room e room' :
  seats_ok room -> roomAfter room (handle room e) = Some room' -> seats_ok room'.
Proof.
  unfold seats_ok. intros (Hfour & Hstock & Hscores).
  destruct e as [sock name sp|sock|rnd sock t b p|sock r c sym|sock from to|sock];
    cbn [handle]; intros Hafter.
  - apply joinRoom_after in Hafter
      as (_ & _ & _ & [(_ & _ & Hlt & -> & _ & -> & ->)|(_ & -> & _ & -> & ->)]);
      [|done].
    unfold freshScores, freshStock.
    rewrite length_app, !length_replicate. cbn [length]. lia.
  - apply leaveRoom_after in Hafter
      as (_ & _ & [(pIdx & Hp%findSocket_lt & -> & -> & -> & _)|(_ & -> & -> & -> & _)] & _);
      [|done].
    rewrite !length_delete by (apply lookup_lt_is_Some; lia). lia.
  - apply newGame_after in Hafter as [->|[flash E]]; [done|].
    apply newGame_spec in E as (_ & _ & -> & _ & _ & _ & _ & _ & _ & _ & -> & -> & _).
    unfold freshScores, freshStock. rewrite !length_replicate. lia.
  - pose proof Hafter as Hafter'.
    apply placePiece_cases in Hafter as [->|(p & s & Hacc & _)]; [done|].
    destruct (placePiece_after _ _ _ _ _ _ _ _ Hacc Hafter') as (_ & -> & -> & -> & _).
    rewrite place_stock_length. split_and!; [done..|].
    etrans; [exact Hscores|]. etrans; [apply length_awards|].
    etrans; [apply length_credit|]. apply length_credit.
  - apply moveBlocker_after in Hafter as [->|(f & t & _ & ->)]; done.
  - apply disconnect_after in Hafter
      as (_ & _ & _ & _ & _ & _ & _ &
          [(pIdx & Hp%findSocket_lt & -> & -> & ->)|(_ & -> & -> & ->)] & _);
      [|done].
    rewrite !length_delete by (apply lookup_lt_is_Some; lia). lia.
Qed.

(** X7.  Whatever the sockets send, a room never seats more than four players,
    keeps one stock entry for each seat, and has a score entry for each
    seat. *)
Theorem every_room_keeps_its_seats_in_order room :
  reachableBy anyEvent room -> seats_ok room.
Proof.
  revert room. apply (reachableBy_ind_inv anyEvent seats_ok).
  - unfold seats_ok. cbn. lia.
  - intros r e r' Hok _. by apply handle_seats_ok.
Qed.

Lemma every_room_keeps_its_seats_in_order_witness : seats_ok dropped.
Proof.
  apply every_room_keeps_its_seats_in_order. unfold dropped, flank1, game2, lobby2.
  apply (reachableBy_play _ _ (Disconnect "a")); [|done].
  apply (reachableBy_play _ _ (PlacePiece "a" 0 0 "R")); [|done].
  apply (reachableBy_play _ _ (NewGame (fun _ => 0%nat) "a" JsUndefined (JsInt 0) JsUndefined));
    [|done].
  apply (reachableBy_play _ _ (JoinRoom "b" "Bob" false)); [|done].
  apply (reachableBy_play _ _ (JoinRoom "a" "Ann" false)); [|done].
  apply reach_new.
Defined.

(** *** The turn *)

Lemma handle_turn_ok room e room' :
  notDisconnect e -> turn_ok room -> roomAfter room (handle room e) = Some room' ->
  turn_ok room'.
Proof.
  unfold turn_ok. intros He Hturn.
  destruct e as [sock name sp|sock|rnd sock t b p|sock r c sym|sock from to|sock];
    cbn [handle]; intros Hafter.
  - apply joinRoom_after in Hafter
      as (_ & -> & _ & [(_ & _ & _ & -> & _)|(_ & -> & _)]); [|done].
    left. rewrite length_app. cbn [length]. destruct Hturn as [?|[_ ->]]; lia.
  - apply leaveRoom_after in Hafter
      as (_ & _ & [(pIdx & _ & -> & _ & _ & ->)|(_ & -> & _ & _ & ->)] & Hne).
    + left. destruct (length (delete pIdx (players room)) <=? turn room)%nat eqn:E.
      * destruct (delete pIdx (players room)); [done|]. cbn [length]. lia.
      * by apply Nat.leb_gt in E.
    + destruct Hturn as [?|[? _]]; [by left|done].
  - apply newGame_after in Hafter as [->|[flash E]]; [done|].
    apply newGame_spec in E as (_ & _ & -> & _ & -> & _).
    destruct (players room); [by right|]. left. cbn [length]. lia.
  - pose proof Hafter as Hafter'.
    apply placePiece_cases in Hafter as [->|(p & s & Hacc & Ht)]; [done|].
    pose proof Hacc as (_ & Hp%findSocket_lt & Hpt & _).
    destruct (placePiece_after _ _ _ _ _ _ _ _ Hacc Hafter') as (_ & _ & _ & -> & _).
    left. destruct Ht as [-> | ->]; [by rewrite <- Hpt|].
    apply Nat.mod_upper_bound. lia.
  - apply moveBlocker_after in Hafter as [->|(f & t & Hlegal & ->)]; [done|].
    destruct Hlegal as (_ & Hp%findSocket_lt & _).
    left. cbn [turn players set_highlights set_turn set_board].
    apply Nat.mod_upper_bound. lia.
  - done.
Qed.

(** X8.  As long as no socket disconnects, the turn of a room with players is
    on one of its seats: joining, leaving, a new game, a placement and a
    blocker move all keep it there. *)
Theorem turn_stays_on_a_seat room :
  reachableBy notDisconnect room ->
  turn_ok room /\
  (players room <> [] -> exists pl, players room !! turn room = Some pl).
Proof.
  intros Hr. assert (turn_ok room) as Hok.
  { revert room Hr. apply (reachableBy_ind_inv notDisconnect turn_ok).
    - right. done.
    - intros r e r' Hok He. by apply handle_turn_ok. }
  split; [done|]. intros Hne. apply lookup_lt_is_Some. by destruct Hok as [?|[? _]].
Qed.

Lemma turn_stays_on_a_seat_witness :
  turn_ok flank3 /\ players flank3 !! turn flank3 = Some (mkPlayer "b" "Bob").
Proof.
  assert (reachableBy notDisconnect flank3) as Hr.
  { unfold flank3, flank2, flank1, game2, lobby2.
    apply (reachableBy_play _ _ (PlacePiece "a" 0 2 "R")); [|done].
    apply (reachableBy_play _ _ (PlacePiece "b" 0 1 "S")); [|done].
    apply (reachableBy_play _ _ (PlacePiece "a" 0 0 "R")); [|done].
    apply (reachableBy_play _ _
             (NewGame (fun _ => 0%nat) "a" JsUndefined (JsInt 0) JsUndefined)); [|done].
    apply (reachableBy_play _ _ (JoinRoom "b" "Bob" false)); [|done].
    apply (reachableBy_play _ _ (JoinRoom "a" "Ann" false)); [|done].
    apply reach_new. }
  split; [exact (proj1 (turn_stays_on_a_seat flank3 Hr))|].
  vm_compute. reflexivity.
Defined.

(** *** The stock *)

Lemma stock_ok_delete room room' i :
  stock_ok room -> stock room' = delete i (stock room) -> stock_ok room'.
Proof.
  intros Hok E j st s Hj. rewrite E in Hj.
  destruct (decide (j < i)%nat).
  - rewrite list_lookup_delete_lt in Hj by done. by eapply Hok.
  - rewrite list_lookup_delete_ge in Hj by lia. by eapply Hok.
Qed.

Lemma stock_ok_fresh room' n z :
  0 <= z -> stock room' = freshStock n (Int z) -> stock_ok room'.
Proof.
  intros Hz E j st s Hj. rewrite E in Hj. apply lookup_replicate in Hj as [-> _].
  exists z. by destruct s.
Qed.

Lemma stock_ok_same room room' : stock_ok room -> stock room' = stock room -> stock_ok room'.
Proof. intros Hok E j st s Hj. rewrite E in Hj. by eapply Hok. Qed.

Lemma stock_ok_place room p r c s :
  stock_ok room -> num_leb (stockOr0 (stock room) p s) (Int 0) = false ->
  stock_ok (place room p r c s).
Proof.
  intros Hok Hpos j st s' Hj.
  unfold place in Hj. cbn [stock set_highlights set_lastPlayed set_stock set_board] in Hj.
  rewrite list_lookup_alter in Hj. case_decide as Hd; [|by eapply Hok].
  subst j. destruct (stock room !! p) as [st0|] eqn:E; [|done].
  cbn in Hj. injection Hj as <-.
  unfold stockOr0 in Hpos. rewrite E in Hpos.
  destruct (decide (s' = s)) as [->|Hne].
  - rewrite stockGet_stockSet. destruct (Hok p st0 s E) as (z & Hz & Hz0).
    rewrite Hz in *. cbn in Hpos. apply Z.leb_gt in Hpos.
    exists (z + -1). split; [done|lia].
  - rewrite stockGet_stockSet_ne by done. by eapply Hok.
Qed.

Lemma handle_stock_ok room e room' :
  tilesParsable e -> stock_ok room /\ tiles_ok room ->
  roomAfter room (handle room e) = Some room' ->
  stock_ok room' /\ tiles_ok room'.
Proof.
  unfold tiles_ok. intros He [Hstock (z & Hz & Hz0)].
  destruct e as [sock name sp|sock|rnd sock t b p|sock r c sym|sock from to|sock];
    cbn [handle]; intros Hafter.
  - apply joinRoom_after in Hafter
      as (_ & _ & -> & [(_ & _ & _ & _ & _ & _ & E)|(_ & _ & _ & _ & E)]).
    + split; [|by eauto]. rewrite Hz in E. by eapply stock_ok_fresh.
    + split; [|by eauto]. by eapply stock_ok_same.
  - apply leaveRoom_after in Hafter
      as (_ & -> & [(pIdx & _ & _ & _ & E & _)|(_ & _ & _ & E & _)] & _).
    + split; [|by eauto]. by eapply stock_ok_delete.
    + split; [|by eauto]. by eapply stock_ok_same.
  - apply newGame_after in Hafter as [->|[flash E]]; [by eauto|].
    pose proof E as E'.
    apply newGame_spec in E as (Hmem & _ & _ & _ & _ & _ & _ & _ & _ & _ & _ & Est & _).
    assert (tilesPerSymbol (settings room') = clampSetting 1 99 10 t) as Ht.
    { rewrite newGame_Updated in E'.
      - unfold emitRoomStateOnce in E'. by injection E' as _ <-.
      - apply orb_true_iff. destruct Hmem; [left|right]; by apply bool_decide_eq_true. }
    cbn [tilesParsable] in He.
    destruct (parseInt (nullish t 10)) as [| |z'] eqn:Ep;
      [done|by apply parseInt_not_NegInf in Ep|].
    rewrite (clampSetting_Int _ _ _ _ _ Ep) in Ht. rewrite Ht in *.
    split; [|eexists; split; [done|lia]].
    eapply stock_ok_fresh; [|exact Est]. lia.
  - pose proof Hafter as Hafter'.
    apply placePiece_cases in Hafter as [->|(p & s & Hacc & _)]; [by eauto|].
    destruct (placePiece_after _ _ _ _ _ _ _ _ Hacc Hafter') as (_ & _ & E & _ & _ & -> & _).
    split; [|by eauto].
    destruct Hacc as (_ & _ & _ & _ & _ & _ & Hpos).
    eapply stock_ok_same; [|exact E]. by apply stock_ok_place.
  - apply moveBlocker_after in Hafter as [->|(f & t' & _ & ->)]; by eauto.
  - apply disconnect_after in Hafter
      as (_ & -> & _ & _ & _ & _ & _ & [(pIdx & _ & _ & _ & E)|(_ & _ & _ & E)] & _).
    + split; [|by eauto]. by eapply stock_ok_delete.
    + split; [|by eauto]. by eapply stock_ok_same.
Qed.

(** X9.  When every [newGame] comes with a tile setting that [parseInt] can
    read, or with none, every stock count of every room is an integer that
    is not negative, and so is the tile setting. *)
Theorem stock_never_negative room :
  reachableBy tilesParsable room -> stock_ok room /\ tiles_ok room.
Proof.
  revert room.
  apply (reachableBy_ind_inv tilesParsable (fun room => stock_ok room /\ tiles_ok room)).
  - split; [by intros i st s ?|]. exists 10. split; [done|lia].
  - intros r e r' Hok He. by apply handle_stock_ok.
Qed.

Lemma stock_never_negative_witness :
  stock_ok pairStruck /\ tiles_ok pairStruck.
Proof.
  apply stock_never_negative. unfold pairStruck, pairReady, game2, lobby2.
  apply (reachableBy_play _ _ (PlacePiece "a" 0 2 "R")); [|done].
  apply (reachableBy_play _ _ (PlacePiece "b" 0 0 "S")); [|done].
  apply (reachableBy_play _ _ (PlacePiece "a" 0 1 "R")); [|done].
  apply (reachableBy_play _ _
           (NewGame (fun _ => 0%nat) "a" JsUndefined (JsInt 0) JsUndefined)); [|done].
  apply (reachableBy_play _ _ (JoinRoom "b" "Bob" false)); [|done].
  apply (reachableBy_play _ _ (JoinRoom "a" "Ann" false)); [|done].
  apply reach_new.
Defined.
(** ** Joining *)

Lemma substring_length n s :
  String.length (String.substring 0 n s) = Nat.min n (String.length s).
Proof.
  revert s. induction n as [|n IH]; intros [|a s]; cbn; try done. by rewrite IH.
Qed.

Lemma nameOr_short name fallback : (String.length (nameOr name fallback) <= 24)%nat.
Proof. unfold nameOr. rewrite substring_length. lia. Qed.

Lemma nameOr_keeps name fallback :
  name <> EmptyString -> (String.length name <= 24)%nat -> nameOr name fallback = name.
Proof.
  intros Hne Hlen. unfold nameOr. rewrite bool_decide_eq_false_2 by done.
  revert Hlen. generalize 24%nat. clear Hne. induction name as [|a s IH]; intros n Hlen.
  - by destruct n.
  - destruct n as [|n]; cbn in *; [lia|]. rewrite IH; [done|lia].
Qed.

Lemma joinRoom_Updated room sock name asSpectator :
  exists room',
    joinRoom room sock name asSpectator = Updated (highlights room) room' /\
    highlights room' = [] /\ lastPlayed room' = lastPlayed room /\
    gameOver room' = gameOver room /\ started room' = started room /\
    message room' = message room.
Proof.
  unfold joinRoom.
  destruct (started room) eqn:Hst; cbn [negb andb].
  { eexists. split; [reflexivity|]. cbn. by rewrite Hst. }
  destruct asSpectator; cbn [negb andb].
  { eexists. split; [reflexivity|]. cbn. by rewrite Hst. }
  destruct (length (players room) <? 4)%nat.
  - cbn [started set_players]. rewrite Hst. cbn [negb].
    eexists. split; [reflexivity|]. cbn. by rewrite Hst.
  - eexists. split; [reflexivity|]. cbn. by rewrite Hst.
Qed.

(** X10.  [joinRoom] always lets the socket in.  It takes a seat when the room
    has not started, the socket does not ask to watch and fewer than four
    seats are taken: then every score goes back to [0] and every stock to
    the tile setting.  In every other case it becomes a spectator, and the
    seats, scores and stocks stay as they are.  Either way the name kept
    has at most 24 characters. *)
Theorem joinRoom_seats_or_watches room sock nick asSpectator :
  let n := length (players room) in
  let sits := negb (started room) && negb asSpectator && (n <? 4)%nat in
  exists room',
    joinRoom room sock nick asSpectator = Updated (highlights room) room' /\
    highlights room' = [] /\
    board room' = board room /\ turn room' = turn room /\
    settings room' = settings room /\ lastPlayed room' = lastPlayed room /\
    gameOver room' = gameOver room /\ started room' = started room /\
    message room' = message room /\
    (sits = true ->
       players room' = players room ++ [mkPlayer sock (nameOr nick (seatLabel n))] /\
       spectators room' = spectators room /\
       scores room' = freshScores (S n) /\
       stock room' = freshStock (S n) (tilesPerSymbol (settings room))) /\
    (sits = false ->
       players room' = players room /\
       spectators room' = spectators room ++ [mkPlayer sock (nameOr nick "Spectator")] /\
       scores room' = scores room /\ stock room' = stock room) /\
    (forall pl, pl ∈ players room' ++ spectators room' ->
       pl ∈ players room ++ spectators room \/ (String.length (name pl) <= 24)%nat).
Proof.
  intros n sits.
  destruct (joinRoom_Updated room sock nick asSpectator)
    as (room' & E & Hh & Hlp & Hgo & Hst & Hmsg).
  exists room'. split; [done|].
  destruct (joinRoom_after room sock nick asSpectator room' ltac:(by rewrite E))
    as (Hb & Ht & Hset & Hcases).
  split_and!; try done.
  - intros Hsits. subst sits n. apply andb_true_iff in Hsits as [[Hs Hsp]%andb_true_iff Hlt].
    apply negb_true_iff in Hs, Hsp. apply Nat.ltb_lt in Hlt.
    destruct Hcases as [(_ & _ & _ & ? & ? & ? & ?)|([?|[?|?]] & _)];
      [done|congruence|congruence|lia].
  - intros Hsits. subst sits n.
    destruct Hcases as [(Hs & -> & Hlt%Nat.ltb_lt & _)|(_ & ? & ? & ? & ?)]; [|done].
    rewrite Hs, Hlt in Hsits. done.
  - intros pl Hpl. rewrite elem_of_app.
    destruct Hcases as [(_ & _ & _ & Ep & Es & _)|(_ & Ep & Es & _)];
      rewrite Ep, Es in Hpl; rewrite !elem_of_app, list_elem_of_singleton in Hpl.
    + destruct Hpl as [[?| ->]|?]; [by auto| |by auto]. right. apply nameOr_short.
    + destruct Hpl as [?|[?| ->]]; [by auto|by auto|]. right. apply nameOr_short.
Qed.

Lemma findSocket_Some sock arr i :
  findSocket sock arr = Some i <->
  exists pl, arr !! i = Some pl /\ socketId pl = sock /\
    forall j pl', (j < i)%nat -> arr !! j = Some pl' -> socketId pl' <> sock.
Proof.
  unfold findSocket. split.
  - destruct (list_find _ arr) as [[j x]|] eqn:E; [|done]. intros [= <-].
    apply list_find_Some in E as (Hj & Hx & Hmin). exists x. split_and!; [done..|].
    intros k pl' Hk Hpl'. by eapply Hmin.
  - intros (pl & Hi & Hs & Hmin).
    assert (list_find (fun p => socketId p = sock) arr = Some (i, pl)) as ->; [|done].
    apply list_find_Some. split_and!; [done..|]. intros k pl' Hpl' Hk. by eapply Hmin.
Qed.

Lemma no_move_off_turn room sock r c sym from to :
  findSocket sock (players room) <> Some (turn room) ->
  placePiece room sock r c sym = Ignored /\ moveBlocker room sock from to = Ignored.
Proof.
  intros Hne. unfold placePiece, moveBlocker.
  destruct (gameOver room); [done|].
  destruct (findSocket sock (players room)) as [p|]; [|done].
  rewrite bool_decide_eq_false_2; [done|]. congruence.
Qed.

(** X11.  [joinRoom] does not look whether the socket already has a seat: a
    socket that joins twice as a player holds two seats.  The handlers find
    a socket at its first seat only, so once the turn is on a later seat
    of the same socket, every placement and every blocker move of every
    socket is ignored. *)
Theorem second_seat_of_a_socket_blocks_the_game room sock i pl :
  findSocket sock (players room) = Some i ->
  players room !! turn room = Some pl -> socketId pl = sock -> i <> turn room ->
  forall sock' r c sym from to,
    placePiece room sock' r c sym = Ignored /\
    moveBlocker room sock' from to = Ignored.
Proof.
  intros Hfirst Hturn Hsock Hne sock' r c sym from to.
  apply no_move_off_turn. intros Hfind. pose proof Hfind as Hfind'.
  apply findSocket_Some in Hfind as (pl' & Hpl' & Hs' & _).
  assert (pl' = pl) as -> by congruence. subst sock'. congruence.
Qed.

Lemma second_seat_witness :
  players twice = [mkPlayer "a" "Ann"; mkPlayer "a" "Ann"] /\
  turn twiceMoved = 1%nat /\
  placePiece twiceMoved "a" 3 3 "R" = Ignored /\
  moveBlocker twiceMoved "b" (Some (0, 0)) (Some (0, 1)) = Ignored.
Proof.
  split; [vm_compute; reflexivity|]. split; [vm_compute; reflexivity|].
  assert (findSocket "a" (players twiceMoved) = Some 0%nat) as H1 by (vm_compute; reflexivity).
  assert (players twiceMoved !! turn twiceMoved = Some (mkPlayer "a" "Ann")) as H2
    by (vm_compute; reflexivity).
  assert (0%nat <> turn twiceMoved) as H3 by (vm_compute; discriminate).
  pose proof (second_seat_of_a_socket_blocks_the_game twiceMoved "a" 0 _ H1 H2 eq_refl H3)
    as H.
  split; [exact (proj1 (H "a" 3 3 "R" None None))|].
  exact (proj2 (H "b" 0 0 "R" (Some (0, 0)) (Some (0, 1)))).
Defined.

(** ** Leaving and dropping *)

Lemma leaveRoom_rest room sock room' :
  roomAfter room (leaveRoom room sock) = Some room' ->
  spectators room' =
    match findSocket sock (spectators room) with
    | Some sIdx => delete sIdx (spectators room)
    | None => spectators room
    end /\
  lastPlayed room' = lastPlayed room /\
  started room' = false /\ gameOver room' = false /\ message room' = MsgLeft /\
  highlights room' = [].
Proof.
  unfold leaveRoom.
  destruct (findSocket sock (spectators room)) as [sIdx|];
    cbn [players set_spectators];
    (destruct (findSocket sock (players room)) as [pIdx|];
     cbn [players set_spectators set_players set_turn set_scores set_stock turn scores stock];
     [destruct (length (delete pIdx (players room)) <=? turn room)%nat eqn:Hturn|];
     cbn [players set_spectators set_players set_turn set_scores set_stock turn scores stock];
     case_bool_decide as Hlen; try done;
     intros [= <-]; done).
Qed.

Lemma leaveRoom_Deleted room sock :
  leaveRoom room sock = Deleted <->
  match findSocket sock (players room) with
  | Some pIdx => delete pIdx (players room) = []
  | None => players room = []
  end.
Proof.
  unfold leaveRoom.
  destruct (findSocket sock (spectators room)) as [sIdx|];
    cbn [players set_spectators];
    (destruct (findSocket sock (players room)) as [pIdx|];
     cbn [players set_spectators set_players set_turn set_scores set_stock turn scores stock];
     [destruct (length (delete pIdx (players room)) <=? turn room)%nat eqn:Hturn|];
     cbn [players set_spectators set_players set_turn set_scores set_stock turn scores stock];
     rewrite <- length_zero_iff_nil; case_bool_decide as Hlen; done).
Qed.

Lemma disconnect_Deleted room sock :
  disconnect room sock = Deleted <->
  match findSocket sock (players room) with
  | Some pIdx => delete pIdx (players room) = []
  | None => players room = []
  end.
Proof.
  unfold disconnect.
  destruct (findSocket sock (players room)) as [pIdx|];
    cbn [spectators set_players set_scores set_stock];
    destruct (findSocket sock (spectators room)) as [sIdx|];
    cbn [players set_spectators set_players set_scores set_stock];
    rewrite <- length_zero_iff_nil; case_bool_decide as Hlen; done.
Qed.

(** X12.  A socket that drops is taken out of the room as one that leaves is:
    both handlers delete the room in the same cases, and otherwise leave
    the same players, spectators, scores, stocks and board.  They differ in
    that [leaveRoom] puts the room back before its start ([started] and
    [gameOver] false, the turn kept or set to [0]), where [disconnect]
    keeps [started], [gameOver], the message and the turn as they were. *)
Theorem disconnect_removes_what_leaveRoom_removes room sock :
  (disconnect room sock = Deleted <-> leaveRoom room sock = Deleted) /\
  (forall dropped left,
     roomAfter room (disconnect room sock) = Some dropped ->
     roomAfter room (leaveRoom room sock) = Some left ->
     players dropped = players left /\ spectators dropped = spectators left /\
     scores dropped = scores left /\ stock dropped = stock left /\
     board dropped = board left /\ settings dropped = settings left /\
     lastPlayed dropped = lastPlayed left /\
     started dropped = started room /\ gameOver dropped = gameOver room /\
     message dropped = message room /\ turn dropped = turn room /\
     started left = false /\ gameOver left = false /\ message left = MsgLeft /\
     (turn left = turn room \/ turn left = 0%nat)).
Proof.
  split; [by rewrite disconnect_Deleted, leaveRoom_Deleted|].
  intros dropped left Hd Hl.
  pose proof (leaveRoom_rest _ _ _ Hl) as (Ls & Llp & Lst & Lgo & Lmsg & _).
  apply leaveRoom_after in Hl as (Lb & Lset & Lcases & _).
  apply disconnect_after in Hd
    as (Db & Dset & Dt & Dst & Dgo & Dmsg & Dlp & Dcases & Ds & _).
  rewrite Db, Lb, Dset, Lset, Dlp, Llp, Ds, Ls, Dst, Dgo, Dmsg, Dt, Lst, Lgo, Lmsg.
  destruct Dcases as [(pIdx & Hp & -> & -> & ->)|(Hp & -> & -> & ->)];
    destruct Lcases as [(pIdx' & Hp' & -> & -> & -> & Lt)|(Hp' & -> & -> & -> & Lt)];
    rewrite Hp in Hp'; try done.
  - injection Hp' as <-. split_and!; try done. rewrite Lt.
    destruct (length (delete pIdx (players room)) <=? turn room)%nat; auto.
  - split_and!; try done. auto.
Qed.

Lemma disconnect_removes_witness :
  players dropped = players left1 /\ scores dropped = scores left1 /\
  turn dropped = turn flank1 /\ started left1 = false.
Proof.
  destruct (disconnect_removes_what_leaveRoom_removes flank1 "a") as [_ H].
  assert (roomAfter flank1 (disconnect flank1 "a") = Some dropped) as Hd
    by (vm_compute; reflexivity).
  assert (roomAfter flank1 (leaveRoom flank1 "a") = Some left1) as Hl
    by (vm_compute; reflexivity).
  destruct (H dropped left1 Hd Hl)
    as (Hp & _ & Hs & _ & _ & _ & _ & _ & _ & _ & Ht & Hst & _).
  exact (conj Hp (conj Hs (conj Ht Hst))).
Defined.
(** ** What a placement flashes *)

Lemma attempts_highlights p s byIdx xs st :
  board_ok (Elim.board st) -> NoDup xs ->
  Elim.highlights (attempts (p, s) byIdx st xs) =
    Elim.highlights st ++
    ((fun x => mkHighlight [x] byIdx) <$>
       filter (fun x => beaten (Elim.board st) p s x = true) xs).
Proof.
  revert st. induction xs as [|x xs IH]; intros st Hb Hnd.
  { cbn. by rewrite app_nil_r. }
  apply NoDup_cons in Hnd as [Hx Hnd].
  change (attempts (p, s) byIdx st (x :: xs))
    with (attempts (p, s) byIdx (Elim.tryEliminate (p, s) byIdx x.1 x.2 st) xs).
  rewrite IH by (by apply tryEliminate_ok || done).
  assert (filter (fun y => beaten (Elim.board (Elim.tryEliminate (p, s) byIdx x.1 x.2 st))
                             p s y = true) xs
          = filter (fun y => beaten (Elim.board st) p s y = true) xs) as ->.
  { apply filter_ext_elem. intros y Hy.
    rewrite beaten_tryEliminate_ne; [done|done|]. intros ->. done. }
  rewrite filter_cons, tryEliminate_beaten. cbn [fst snd].
  replace (x.1, x.2) with x by by destruct x.
  destruct (decide (beaten (Elim.board st) p s x = true)) as [E|E].
  - rewrite E. cbn [Elim.highlights fmap list_fmap]. by rewrite <- app_assoc.
  - apply not_true_is_false in E. by rewrite E.
Qed.

Lemma resolve_highlights b r c byIdx p s :
  board_ok b -> cellAt b r c = Piece p s ->
  Elim.highlights (Elim.resolveEliminationsFrom b r c byIdx) =
    (fun x => mkHighlight [x] byIdx) <$> eliminated b p s r c.
Proof.
  intros Hb Hcell. rewrite (resolve_attempts b r c byIdx p s) by done.
  rewrite attempts_highlights; [done|done|apply all_candidates_NoDup].
Qed.

Lemma mis_direction_highlights b r c p strong out d :
  length (Mis.highlights out) = length (Mis.awarded out) ->
  length (Mis.highlights (Mis.direction b r c p strong out d)) =
    length (Mis.awarded (Mis.direction b r c p strong out d)).
Proof.
  intros Hlen. unfold Mis.direction.
  destruct (scanWindows_first b r c p strong (Mis.windows r c d.1 d.2) out)
    as [(k & win & opp & _ & _ & _ & ->)|[_ ->]]; [|done].
  cbn [Mis.highlights Mis.awarded]. rewrite !length_app, Hlen. done.
Qed.

Lemma scoreMisplacement_highlights b r c :
  length (Mis.highlights (Mis.scoreMisplacement b r c)) =
    length (Mis.awarded (Mis.scoreMisplacement b r c)).
Proof.
  unfold Mis.scoreMisplacement. destruct (cellAt b r c) as [| |p s]; [done..|].
  assert (forall ds out,
            length (Mis.highlights out) = length (Mis.awarded out) ->
            length (Mis.highlights (foldl (Mis.direction b r c p (WEAK_TO s)) out ds)) =
              length (Mis.awarded (foldl (Mis.direction b r c p (WEAK_TO s)) out ds)))
    as Hfold.
  { induction ds as [|d ds IH]; intros out Hout; cbn [foldl]; [done|].
    apply IH. by apply mis_direction_highlights. }
  by apply Hfold.
Qed.

Lemma scoreThreeInRow_highlights b r c byIdx :
  Z.of_nat (length (Tri.highlights (Tri.scoreThreeInRow b r c byIdx))) =
    Tri.points (Tri.scoreThreeInRow b r c byIdx) /\
  Forall (fun h => by_ h = byIdx /\ length (cells h) = 3%nat)
    (Tri.highlights (Tri.scoreThreeInRow b r c byIdx)).
Proof.
  unfold Tri.scoreThreeInRow. destruct (cellAt b r c) as [| |p s]; [done..|].
  assert (forall ds out,
            Z.of_nat (length (Tri.highlights out)) = Tri.points out /\
            Forall (fun h => by_ h = byIdx /\ length (cells h) = 3%nat) (Tri.highlights out) ->
            let out' := foldl (Tri.direction b p s byIdx r c) out ds in
            Z.of_nat (length (Tri.highlights out')) = Tri.points out' /\
            Forall (fun h => by_ h = byIdx /\ length (cells h) = 3%nat) (Tri.highlights out'))
    as Hfold.
  { induction ds as [|d ds IH]; intros out Hout; cbn [foldl]; [done|].
    apply IH. destruct Hout as [Hlen Hall]. unfold Tri.direction.
    destruct (3 <=? Z.of_nat (length (Tri.segment b p s r c d))) eqn:E; [|done].
    cbn [Tri.points Tri.highlights]. apply Z.leb_le in E. split.
    - rewrite length_app. cbn [length]. lia.
    - apply Forall_app. split; [done|]. apply Forall_singleton. cbn [by_ cells].
      split; [done|]. rewrite length_take, length_drop. lia. }
  apply (Hfold deltas (Tri.mkOut 0 [])). split; [done|constructor].
Qed.

Lemma scorePlacement_highlights room p r c :
  let mis := Mis.scoreMisplacement (board room) r c in
  let elim := Elim.resolveEliminationsFrom (board room) r c p in
  let tri := Tri.scoreThreeInRow (Elim.board elim) r c p in
  highlights (scorePlacement room p r c) =
    highlights room ++ Mis.highlights mis ++
    (if 0 <? Elim.removed elim then Elim.highlights elim else []) ++
    (if 0 <? Tri.points tri then Tri.highlights tri else []).
Proof.
  unfold scorePlacement. cbv zeta.
  destruct (0 <? Elim.removed _);
    cbn [board scores highlights set_scores set_board set_highlights];
    destruct (0 <? Tri.points _);
    cbn [board scores highlights set_scores set_board set_highlights];
    by rewrite ?app_nil_r, <- ?app_assoc.
Qed.

Lemma conclude_flash room p flash room' :
  conclude room p = Updated flash room' -> flash = highlights room /\ highlights room' = [].
Proof.
  unfold conclude, emitRoomStateOnce. repeat case_match; intros [= <- <-]; done.
Qed.

Lemma placePiece_flash room sock r c sym p s flash room' :
  board_ok (board room) -> accepts room sock r c sym p s ->
  placePiece room sock r c sym = Updated flash room' ->
  let b := setCell (board room) r c (Piece p s) in
  let out := Elim.resolveEliminationsFrom b r c p in
  let tri := Tri.scoreThreeInRow (Elim.board out) r c p in
  flash = Mis.highlights (Mis.scoreMisplacement b r c) ++ Elim.highlights out ++
            Tri.highlights tri /\
  highlights room' = [].
Proof.
  intros Hok Hacc E b out tri.
  rewrite (placePiece_accepts _ _ _ _ _ _ _ Hacc) in E.
  apply conclude_flash in E as [-> Hh]. split; [|done].
  rewrite scorePlacement_highlights, place_board. fold b out tri.
  assert (highlights (place room p r c s) = []) as -> by reflexivity.
  pose proof Hacc as (_ & _ & _ & _ & Hin & _).
  assert (board_ok b) as Hbok by (by apply setCell_ok).
  assert (cellAt b r c = Piece p s) as Hcell by (by apply cellAt_setCell_eq).
  destruct (resolve_spec b r c p p s Hbok Hcell) as (_ & _ & Hrem). fold out in Hrem.
  pose proof (resolve_highlights b r c p p s Hbok Hcell) as Hel. fold out in Hel.
  destruct (scoreThreeInRow_highlights (Elim.board out) r c p) as [Htri _]. fold tri in Htri.
  cbn [app]. f_equal. f_equal.
  - destruct (0 <? Elim.removed out) eqn:E0; [done|]. apply Z.ltb_ge in E0.
    rewrite Hel. destruct (eliminated b p s r c); [done|]. cbn [length] in Hrem. lia.
  - destruct (0 <? Tri.points tri) eqn:E0; [done|]. apply Z.ltb_ge in E0.
    destruct (Tri.highlights tri); [done|]. cbn [length] in Htri. lia.
Qed.

(** X13.  An accepted placement sends one highlight for every point it gives:
    first one per misplacement award, then one single cell per eliminated
    piece, tagged with the seat that placed, then one triple per direction
    with three in a row.  The highlights are sent once: the room keeps
    none. *)
Theorem every_point_comes_with_a_highlight room sock r c sym flash room' :
  board_ok (board room) ->
  placePiece room sock r c sym = Updated flash room' ->
  exists p s,
    findSocket sock (players room) = Some p /\ symOfKey sym = Some s /\
    let b := setCell (board room) r c (Piece p s) in
    let mis := Mis.scoreMisplacement b r c in
    let out := Elim.resolveEliminationsFrom b r c p in
    let tri := Tri.scoreThreeInRow (Elim.board out) r c p in
    flash = Mis.highlights mis ++ Elim.highlights out ++ Tri.highlights tri /\
    highlights room' = [] /\
    length (Mis.highlights mis) = length (Mis.awarded mis) /\
    Elim.highlights out = (fun x => mkHighlight [x] p) <$> eliminated b p s r c /\
    Z.of_nat (length (Elim.highlights out)) = Elim.removed out /\
    Z.of_nat (length (Tri.highlights tri)) = Tri.points tri /\
    Forall (fun h => by_ h = p /\ length (cells h) = 3%nat) (Tri.highlights tri) /\
    Z.of_nat (length flash) =
      Z.of_nat (length (Mis.awarded mis)) + Elim.removed out + Tri.points tri.
Proof.
  intros Hok E.
  destruct (placePiece_Updated _ _ _ _ _ _ _ E) as (p & s & Hacc & _).
  exists p, s. pose proof Hacc as (_ & Hsock & _ & Hsym & Hin & _).
  split; [done|]. split; [done|]. intros b mis out tri.
  destruct (placePiece_flash _ _ _ _ _ _ _ _ _ Hok Hacc E) as [Hflash Hnone].
  fold b out tri mis in Hflash.
  assert (board_ok b) as Hbok by (by apply setCell_ok).
  assert (cellAt b r c = Piece p s) as Hcell by (by apply cellAt_setCell_eq).
  destruct (resolve_spec b r c p p s Hbok Hcell) as (_ & _ & Hrem). fold out in Hrem.
  pose proof (resolve_highlights b r c p p s Hbok Hcell) as Hel. fold out in Hel.
  destruct (scoreThreeInRow_highlights (Elim.board out) r c p) as [Htri Hall].
  fold tri in Htri, Hall.
  pose proof (scoreMisplacement_highlights b r c) as Hmis. fold mis in Hmis.
  assert (Z.of_nat (length (Elim.highlights out)) = Elim.removed out) as Hcount.
  { by rewrite Hel, length_fmap, Hrem. }
  split_and!; try done.
  rewrite Hflash, !length_app, Hmis. lia.
Qed.

Lemma every_point_witness :
  board_ok (board pairReady) /\
  placePiece pairReady "a" 0 2 "R" = Updated [mkHighlight [(0, 0)] 0] pairStruck.
Proof.
  assert (board_ok (board pairReady)) as Hok by apply pairReady_ok.
  split; [exact Hok|].
  destruct (placePiece pairReady "a" 0 2 "R") as [|flash room'| |] eqn:E;
    try (exfalso; vm_compute in E; discriminate E).
  destruct (every_point_comes_with_a_highlight pairReady "a" 0 2 "R" flash room' Hok E)
    as (p & s & Hp & Hs & Hflash & _).
  assert (p = 0%nat) as -> by (vm_compute in Hp; by injection Hp as <-).
  assert (s = Rock) as -> by (vm_compute in Hs; by injection Hs as <-).
  rewrite Hflash. vm_compute in E. injection E as _ <-. vm_compute. reflexivity.
Defined.
(** ** The triple that three in a row highlights *)

Lemma tri_backward_cells fuel b pl sy r c dr dc i seg :
  exists k : nat,
    Tri.backward fuel b pl sy dr dc (r - (i + 1) * dr) (c - (i + 1) * dc) seg =
      lineCells r c (dr, dc) (- (i + Z.of_nat k)) (Z.of_nat k) ++ seg.
Proof.
  revert i seg. induction fuel as [|fuel IH]; intros i seg.
  { by exists 0%nat. }
  rewrite tri_backward_step.
  destruct (sameAt b (pl, sy) (r - (i + 1) * dr, c - (i + 1) * dc)); [|by exists 0%nat].
  destruct (IH (i + 1) ((r - (i + 1) * dr, c - (i + 1) * dc) :: seg)) as [k Hk].
  exists (S k).
  replace (r - (i + 1) * dr - dr) with (r - (i + 1 + 1) * dr) by lia.
  replace (c - (i + 1) * dc - dc) with (c - (i + 1 + 1) * dc) by lia.
  rewrite Hk. unfold lineCells. rewrite seqZ_S, fmap_app, <- app_assoc. cbn [fst snd].
  replace (- (i + 1 + Z.of_nat k)) with (- (i + Z.of_nat (S k))) by lia.
  f_equal. cbn [fmap list_fmap app]. f_equal. f_equal; lia.
Qed.

Lemma tri_forward_cells fuel b pl sy r c dr dc i seg :
  exists k : nat,
    Tri.forward fuel b pl sy dr dc (r + (i + 1) * dr) (c + (i + 1) * dc) seg =
      seg ++ lineCells r c (dr, dc) (i + 1) (Z.of_nat k).
Proof.
  revert i seg. induction fuel as [|fuel IH]; intros i seg.
  { exists 0%nat. by rewrite app_nil_r. }
  rewrite tri_forward_step.
  destruct (sameAt b (pl, sy) (r + (i + 1) * dr, c + (i + 1) * dc));
    [|exists 0%nat; by rewrite app_nil_r].
  destruct (IH (i + 1) (seg ++ [(r + (i + 1) * dr, c + (i + 1) * dc)])) as [k Hk].
  exists (S k).
  replace (r + (i + 1) * dr + dr) with (r + (i + 1 + 1) * dr) by lia.
  replace (c + (i + 1) * dc + dc) with (c + (i + 1 + 1) * dc) by lia.
  rewrite Hk, <- app_assoc. f_equal. unfold lineCells.
  rewrite (seqZ_cons (i + 1) (Z.of_nat (S k))) by lia. cbn [fmap list_fmap app fst snd].
  f_equal. f_equal. f_equal; lia.
Qed.

Lemma lineCells_length r c d from n : 0 <= n -> Z.of_nat (length (lineCells r c d from n)) = n.
Proof. intros Hn. unfold lineCells. rewrite length_fmap, length_seqZ. lia. Qed.

Lemma lineCells_app r c d from n1 n2 :
  0 <= n1 -> 0 <= n2 ->
  lineCells r c d from (n1 + n2) = lineCells r c d from n1 ++ lineCells r c d (from + n1) n2.
Proof. intros ? ?. unfold lineCells. by rewrite seqZ_app, fmap_app. Qed.

(** The segment is the maximal run, listed from its backward end. *)
Lemma tri_segment_cells b pl sy r c d kb kf :
  d ∈ deltas -> inBounds r c = true -> maximalRun b (pl, sy) r c d kb kf ->
  Tri.segment b pl sy r c d = lineCells r c d (- kb) (1 + kb + kf).
Proof.
  intros Hd Hin Hrun.
  destruct (tri_segment_run b pl sy r c d Hd Hin) as (kb0 & kf0 & Hrun0 & Hlen).
  destruct (maximalRun_unique _ _ _ _ _ _ _ _ _ Hrun Hrun0) as [-> ->].
  pose proof Hrun0 as (Hkb & Hkf & Hin_run & Hstop_b & _).
  assert (kb0 < BOARD_SIZE) as Hkb8.
  { destruct (decide (kb0 = 0)) as [->|Hne]; [done|].
    apply (steps_on_board b (pl, sy) r c d kb0 (-1)); [done|done|lia|lia|].
    specialize (Hin_run (- kb0) ltac:(lia) ltac:(lia)).
    replace (r + -1 * kb0 * d.1) with (r + - kb0 * d.1) by lia.
    replace (c + -1 * kb0 * d.2) with (c + - kb0 * d.2) by lia. done. }
  destruct d as [dr dc]. unfold Tri.segment in *. cbn [fst snd] in *.
  destruct (tri_backward_cells Tri.fuel b pl sy r c dr dc 0 [(r, c)]) as [k1 H1].
  replace (r - (0 + 1) * dr) with (r - dr) in H1 by lia.
  replace (c - (0 + 1) * dc) with (c - dc) in H1 by lia.
  destruct (tri_forward_cells Tri.fuel b pl sy r c dr dc 0
              (Tri.backward Tri.fuel b pl sy dr dc (r - dr) (c - dc) [(r, c)])) as [k2 H2].
  replace (r + (0 + 1) * dr) with (r + dr) in H2 by lia.
  replace (c + (0 + 1) * dc) with (c + dc) in H2 by lia.
  pose proof (lineCells_length r c (dr, dc) (- (0 + Z.of_nat k1)) (Z.of_nat k1) ltac:(lia))
    as L1.
  pose proof (lineCells_length r c (dr, dc) (0 + 1) (Z.of_nat k2) ltac:(lia)) as L2.
  assert (Z.of_nat k1 = kb0) as Hk1.
  { destruct (tri_backward_len Tri.fuel b pl sy dr dc (r - dr) (c - dc) [(r, c)])
      as (k & Hk & Hklen & Hkrun & Hkstop).
    assert (k = k1) as ->.
    { rewrite H1, length_app in Hklen. cbn [length] in Hklen. lia. }
    destruct (Z.lt_trichotomy (Z.of_nat k1) kb0) as [Hlt|[?|Hgt]]; [|done|].
    - assert (k1 < Tri.fuel)%nat as Hfuel by (unfold Tri.fuel, BOARD_SIZE in *; lia).
      specialize (Hkstop Hfuel).
      specialize (Hin_run (- (Z.of_nat k1 + 1)) ltac:(lia) ltac:(lia)).
      replace (r + - (Z.of_nat k1 + 1) * dr) with (r - dr - Z.of_nat k1 * dr) in Hin_run by lia.
      replace (c + - (Z.of_nat k1 + 1) * dc) with (c - dc - Z.of_nat k1 * dc) in Hin_run by lia.
      congruence.
    - specialize (Hkrun kb0 ltac:(lia)).
      replace (r - dr - kb0 * dr) with (r - (kb0 + 1) * dr) in Hkrun by lia.
      replace (c - dc - kb0 * dc) with (c - (kb0 + 1) * dc) in Hkrun by lia.
      congruence. }
  rewrite H2, H1 in Hlen |- *.
  rewrite !length_app in Hlen. cbn [length] in Hlen.
  assert (Z.of_nat k2 = kf0) as Hk2 by lia.
  assert ([(r, c)] = lineCells r c (dr, dc) 0 1) as ->.
  { unfold lineCells. rewrite seqZ_cons, seqZ_nil by lia.
    cbn [fmap list_fmap fst snd]. f_equal. f_equal; lia. }
  replace (1 + kb0 + kf0) with (kb0 + (1 + kf0)) by lia.
  rewrite (lineCells_app _ _ _ _ kb0 (1 + kf0)) by lia.
  rewrite (lineCells_app _ _ _ _ 1 kf0) by lia.
  rewrite Hk1, Hk2, <- app_assoc.
  replace (- (0 + kb0)) with (- kb0) by lia. replace (- kb0 + kb0) with 0 by lia. done.
Qed.

Lemma lineCells_findIndex r c d kb n :
  d ∈ deltas -> 0 <= kb < n -> Tri.findIndex (lineCells r c d (- kb) n) r c = kb.
Proof.
  intros Hd Hkb. unfold Tri.findIndex.
  assert (list_find (fun p : Pos => p = (r, c)) (lineCells r c d (- kb) n)
          = Some (Z.to_nat kb, (r, c))) as ->; [|lia].
  apply list_find_Some. unfold lineCells. split_and!.
  - rewrite list_lookup_fmap, lookup_seqZ_lt by lia. rewrite Z2Nat.id by lia.
    replace (- kb + kb) with 0 by lia. cbn [fmap option_fmap option_map].
    f_equal. f_equal; lia.
  - done.
  - intros j y Hj Hlt. rewrite list_lookup_fmap in Hj.
    destruct (seqZ (- kb) n !! j) as [z|] eqn:Ez; [|done].
    apply lookup_seqZ in Ez as [-> _]. cbn in Hj. injection Hj as <-.
    intros [= E1 E2]. unfold deltas in Hd.
    repeat (apply elem_of_cons in Hd as [->|Hd]; [cbn [fst snd] in *; nia|]).
    by apply elem_of_nil in Hd.
Qed.

Lemma lineCells_triple r c d from n start :
  0 <= start -> start + 3 <= n ->
  take 3 (drop (Z.to_nat start) (lineCells r c d from n)) = lineCells r c d (from + start) 3.
Proof.
  intros H0 H3.
  replace n with (start + (3 + (n - start - 3))) by lia.
  rewrite (lineCells_app _ _ _ _ start) by lia.
  rewrite (lineCells_app _ _ _ _ 3) by lia.
  rewrite drop_app_length'; [|apply Nat2Z.inj; rewrite lineCells_length; lia].
  rewrite take_app_length'; [done|]. apply Nat2Z.inj. rewrite lineCells_length; lia.
Qed.

Lemma tri_direction_run b p s byIdx r c out d kb kf :
  d ∈ deltas -> inBounds r c = true -> maximalRun b (p, s) r c d kb kf ->
  Tri.direction b p s byIdx r c out d =
    if 3 <=? 1 + kb + kf
    then Tri.mkOut (Tri.points out + 1)
           (Tri.highlights out ++
              [mkHighlight (lineCells r c d (tripleStart kb kf) 3) byIdx])
    else out.
Proof.
  intros Hd Hin Hrun. pose proof Hrun as (Hkb & Hkf & _).
  unfold Tri.direction. rewrite (tri_segment_cells _ _ _ _ _ _ _ _ Hd Hin Hrun).
  assert (Z.of_nat (length (lineCells r c d (- kb) (1 + kb + kf))) = 1 + kb + kf) as ->
    by (apply lineCells_length; lia).
  destruct (3 <=? 1 + kb + kf) eqn:E; [|done]. apply Z.leb_le in E.
  rewrite lineCells_findIndex by (done || lia).
  rewrite lineCells_triple by lia.
  assert (- kb + Z.max 0 (Z.min (kb - 1) (1 + kb + kf - 3)) = tripleStart kb kf) as ->;
    [|done].
  unfold tripleStart.
  destruct (Z.eqb_spec kf 0), (Z.eqb_spec kb 0); lia.
Qed.

Lemma sameAt_piece b p s x :
  sameAt b (p, s) x = true <-> inBounds x.1 x.2 = true /\ cellAt b x.1 x.2 = Piece p s.
Proof.
  unfold sameAt, sameOwnerSym. cbn [fst snd]. rewrite andb_true_iff.
  destruct (cellAt b x.1 x.2) as [| |q t].
  - split; intros [? ?]; done.
  - split; intros [? ?]; done.
  - rewrite andb_true_iff, !bool_decide_eq_true. split.
    + intros [? [-> ->]]. done.
    + intros [? [= -> ->]]. done.
Qed.

(** X14.  For a direction in which the new piece stands in a run of three or
    more, [scoreThreeInRow] gives one point and highlights three cells of
    the run in a row: the new piece with its two neighbours when the run
    goes on on both sides of it, and otherwise the three cells that start
    or end at the new piece.  A shorter run gives nothing. *)
Theorem three_in_a_row_highlights_the_new_piece b p s byIdx r c out d kb kf :
  d ∈ deltas -> inBounds r c = true -> cellAt b r c = Piece p s ->
  maximalRun b (p, s) r c d kb kf ->
  let triple := lineCells r c d (tripleStart kb kf) 3 in
  Tri.direction b p s byIdx r c out d =
    (if 3 <=? 1 + kb + kf
     then Tri.mkOut (Tri.points out + 1) (Tri.highlights out ++ [mkHighlight triple byIdx])
     else out) /\
  (3 <= 1 + kb + kf ->
     (r, c) ∈ triple /\
     forall x, x ∈ triple -> inBounds x.1 x.2 = true /\ cellAt b x.1 x.2 = Piece p s).
Proof.
  intros Hd Hin Hcell Hrun triple. split; [by apply tri_direction_run|].
  intros H3. destruct Hrun as (Hkb & Hkf & Hin_run & _).
  assert (- kb <= tripleStart kb kf /\ tripleStart kb kf <= 0 /\
          0 <= tripleStart kb kf + 2 <= kf) as (Hs1 & Hs2 & Hs3).
  { unfold tripleStart. destruct (Z.eqb_spec kf 0), (Z.eqb_spec kb 0); lia. }
  subst triple. unfold lineCells. split.
  - apply list_elem_of_fmap. exists 0. split; [f_equal; lia|]. apply elem_of_seqZ. lia.
  - intros x (j & -> & Hj%elem_of_seqZ)%list_elem_of_fmap. cbn [fst snd].
    destruct (decide (j = 0)) as [->|Hne].
    + replace (r + 0 * d.1) with r by lia. replace (c + 0 * d.2) with c by lia. done.
    + specialize (Hin_run j ltac:(lia) Hne). by apply sameAt_piece in Hin_run.
Qed.

Lemma three_in_a_row_witness :
  Tri.direction (board threeInRow) 0 Rock 0 0 2 (Tri.mkOut 0 []) (0, 1) =
    Tri.mkOut 1 [mkHighlight [(0, 0); (0, 1); (0, 2)] 0].
Proof.
  assert ((0, 1) ∈ deltas) as Hd by (unfold deltas; repeat constructor).
  assert (maximalRun (board threeInRow) (0%nat, Rock) 0 2 (0, 1) 2 0) as Hrun.
  { unfold maximalRun. cbn [fst snd]. split_and!; [lia|lia| |vm_compute; reflexivity..].
    intros j Hj Hj0. assert (j = -2 \/ j = -1) as [-> | ->] by lia; vm_compute; reflexivity. }
  destruct (three_in_a_row_highlights_the_new_piece (board threeInRow) 0 Rock 0 0 2
              (Tri.mkOut 0 []) (0, 1) 2 0 Hd eq_refl ltac:(vm_compute; reflexivity) Hrun)
    as [H _].
  etrans; [exact H|]. vm_compute. reflexivity.
Defined.
(** ** What a move leaves alone *)

Lemma placePiece_blockers room sock r c sym p s room' y :
  board_ok (board room) -> accepts room sock r c sym p s ->
  roomAfter room (placePiece room sock r c sym) = Some room' ->
  inBounds y.1 y.2 = true ->
  cellAt (board room') y.1 y.2 = Blocker <-> cellAt (board room) y.1 y.2 = Blocker.
Proof.
  intros Hok Hacc Hafter Hy.
  destruct (placePiece_after _ _ _ _ _ _ _ _ Hacc Hafter) as (-> & _).
  destruct Hacc as (_ & _ & _ & _ & Hin & Hempty & _).
  assert (board_ok (setCell (board room) r c (Piece p s))) as Hbok by (by apply setCell_ok).
  destruct (resolve_spec _ r c p p s Hbok ltac:(by apply cellAt_setCell_eq)) as (_ & Hc & _).
  rewrite (Hc y Hy). pose proof Hy as [? ?]%inBounds_spec.
  rewrite cellAt_setCell by (done || lia).
  case_bool_decide as Hel.
  - unfold eliminated in Hel. apply list_elem_of_filter in Hel as [Hb _].
    unfold beaten in Hb. rewrite Hy in Hb. cbn [andb] in Hb.
    rewrite cellAt_setCell in Hb by (done || lia).
    case_decide as Hd.
    + apply andb_true_iff in Hb as [Hb _]. by rewrite bool_decide_eq_true_2 in Hb.
    + destruct (cellAt (board room) y.1 y.2); done.
  - case_decide as Hd; [|done]. destruct Hd as [-> ->]. by rewrite Hempty.
Qed.

Lemma moveBlocker_blockers b f t :
  board_ok b -> inBounds f.1 f.2 = true -> inBounds t.1 t.2 = true ->
  cellAt b f.1 f.2 = Blocker -> cellAt b t.1 t.2 = Empty ->
  length (cellsHolding Blocker (setCell (setCell b t.1 t.2 Blocker) f.1 f.2 Empty)) =
    length (cellsHolding Blocker b).
Proof.
  intros Hok Hf Ht Hfb Hte.
  assert ((t.1, t.2) ∈ emptyCells b) as Hel by (by apply elem_of_emptyCells).
  destruct (setCell_Blocker_counts b t.1 t.2 Hok Hel) as [Hup _].
  set (b1 := setCell b t.1 t.2 Blocker) in *.
  assert (board_ok b1) as Hok1 by (by apply setCell_ok).
  pose proof Hf as [? ?]%inBounds_spec.
  assert (cellAt b1 f.1 f.2 = Blocker) as Hfb1.
  { subst b1. rewrite cellAt_setCell by (done || lia).
    case_decide as Hd; [done|done]. }
  assert (length (cellsHolding Blocker b1) =
          S (length (cellsHolding Blocker (setCell b1 f.1 f.2 Empty)))) as Hdown.
  { unfold cellsHolding.
    apply (filter_length_gain _ _ _ (f.1, f.2) allCells_NoDup); cbn [fst snd].
    - by apply elem_of_allCells.
    - by rewrite cellAt_setCell_eq.
    - done.
    - intros y [? ?]%elem_of_allCells%inBounds_spec Hne.
      rewrite cellAt_setCell_ne; [done|done|done|lia|lia|]. by destruct y. }
  lia.
Qed.

(** X15.  Only [newGame] changes how many blockers the board holds.  A blocker
    move carries one blocker to another cell; every other event, a
    placement with its eliminations included, leaves each blocker where it
    is and makes no new one. *)
Theorem only_newGame_deals_blockers room e room' :
  board_ok (board room) ->
  roomAfter room (handle room e) = Some room' ->
  (forall rnd sock t b p, e <> NewGame rnd sock t b p) ->
  length (cellsHolding Blocker (board room')) = length (cellsHolding Blocker (board room)) /\
  ((forall sock from to, e <> MoveBlocker sock from to) ->
   cellsHolding Blocker (board room') = cellsHolding Blocker (board room)).
Proof.
  intros Hok Hafter Hnew.
  destruct e as [sock name sp|sock|rnd sock t b p|sock r c sym|sock from to|sock];
    cbn [handle] in Hafter.
  - apply joinRoom_after in Hafter as (-> & _). done.
  - apply leaveRoom_after in Hafter as (-> & _). done.
  - by destruct (Hnew rnd sock t b p).
  - pose proof Hafter as Hafter'.
    apply placePiece_cases in Hafter as [->|(p & s & Hacc & _)]; [done|].
    assert (cellsHolding Blocker (board room') = cellsHolding Blocker (board room)) as E.
    { apply filter_ext_elem. intros y Hy%elem_of_allCells.
      by eapply placePiece_blockers. }
    by rewrite E.
  - split; [|intros Hmove; by destruct (Hmove sock from to)].
    apply moveBlocker_after in Hafter as [->|(f & t & Hlegal & ->)]; [done|].
    destruct Hlegal as (_ & _ & Hf & Ht & Hfb & Hte & _).
    cbn [board set_highlights set_turn set_board]. by apply moveBlocker_blockers.
  - apply disconnect_after in Hafter as (-> & _). done.
Qed.

Lemma only_newGame_deals_blockers_witness :
  length (cellsHolding Blocker (board pushed)) = 1%nat.
Proof.
  assert (board_ok (board abandoned)) as Hok.
  { split; [reflexivity|]. vm_compute. repeat constructor. }
  destruct (only_newGame_deals_blockers abandoned
              (MoveBlocker "a" (Some (0, 0)) (Some (1, 1))) pushed Hok) as [H _].
  - vm_compute. reflexivity.
  - intros. discriminate.
  - etrans; [exact H|]. vm_compute. reflexivity.
Defined.

(** ** Scores only grow *)

Lemma arraySet_lookup_ne arr i j v x :
  arr !! i = Some x -> i <> j -> arraySet arr j v !! i = Some x.
Proof.
  intros Hi Hne. unfold arraySet. case_decide.
  - by rewrite list_lookup_insert_ne.
  - by rewrite lookup_app_l by (by eapply lookup_lt_Some).
Qed.

Lemma arraySet_lookup_eq arr i v x :
  arr !! i = Some x -> arraySet arr i v !! i = Some (Some v).
Proof.
  intros Hi. apply lookup_lt_Some in Hi as Hlt. unfold arraySet.
  rewrite decide_True by done. by apply list_lookup_insert_eq.
Qed.

Lemma award_grows arr a i z :
  0 <= Mis.points a -> arr !! i = Some (Some (Int z)) ->
  exists z', award arr a !! i = Some (Some (Int z')) /\ z <= z'.
Proof.
  intros Hpos Hi. unfold award. destruct (decide (i = Mis.player a)) as [->|Hne].
  - rewrite (arraySet_lookup_eq _ _ _ _ Hi). unfold scoreOr0. rewrite Hi. cbn [num_add].
    eexists. split; [done|lia].
  - rewrite (arraySet_lookup_ne _ _ _ _ _ Hi Hne). exists z. split; [done|lia].
Qed.

Lemma awards_grow arr awards i z :
  Forall (fun a => 0 <= Mis.points a) awards -> arr !! i = Some (Some (Int z)) ->
  exists z', foldl award arr awards !! i = Some (Some (Int z')) /\ z <= z'.
Proof.
  intros Hall. revert arr z. induction Hall as [|a awards Ha Hall IH]; intros arr z Hi.
  { exists z. split; [done|lia]. }
  cbn [foldl]. destruct (award_grows arr a i z Ha Hi) as (z1 & H1 & Hle1).
  destruct (IH _ _ H1) as (z2 & H2 & Hle2). exists z2. split; [done|lia].
Qed.

Lemma credit_grows p k arr i z :
  arr !! i = Some (Some (Int z)) ->
  exists z', credit p k arr !! i = Some (Some (Int z')) /\ z <= z'.
Proof.
  intros Hi. unfold credit. destruct (0 <? k) eqn:Hk; [|exists z; split; [done|lia]].
  apply Z.ltb_lt in Hk. unfold addScore. destruct (decide (i = p)) as [->|Hne].
  - rewrite (arraySet_lookup_eq _ _ _ _ Hi). unfold scoreNum. rewrite Hi. cbn [num_add].
    eexists. split; [done|lia].
  - rewrite (arraySet_lookup_ne _ _ _ _ _ Hi Hne). exists z. split; [done|lia].
Qed.

Lemma scoreMisplacement_points b r c :
  Forall (fun a => Mis.points a = 1) (Mis.awarded (Mis.scoreMisplacement b r c)).
Proof.
  unfold Mis.scoreMisplacement. destruct (cellAt b r c) as [| |p s]; [constructor..|].
  assert (forall ds out,
            Forall (fun a => Mis.points a = 1) (Mis.awarded out) ->
            Forall (fun a => Mis.points a = 1)
              (Mis.awarded (foldl (Mis.direction b r c p (WEAK_TO s)) out ds))) as Hfold.
  { induction ds as [|d ds IH]; intros out Hout; cbn [foldl]; [done|].
    apply IH. unfold Mis.direction.
    destruct (scanWindows_first b r c p (WEAK_TO s) (Mis.windows r c d.1 d.2) out)
      as [(k & win & opp & _ & _ & _ & ->)|[_ ->]]; [|done].
    cbn [Mis.awarded]. apply Forall_app. split; [done|]. by apply Forall_singleton. }
  apply Hfold. constructor.
Qed.

(** X16.  A move never lowers a score: after a placement or a blocker move,
    accepted or not, every seat with an integer score has an integer score
    that is at least as high. *)
Theorem a_move_never_lowers_a_score room e room' i z :
  isMove e -> roomAfter room (handle room e) = Some room' ->
  hasScore room i z -> exists z', hasScore room' i z' /\ z <= z'.
Proof.
  unfold hasScore. intros He Hafter Hi.
  destruct e as [sock name sp|sock|rnd sock t b p|sock r c sym|sock from to|sock];
    try done; cbn [handle] in Hafter.
  - pose proof Hafter as Hafter'.
    apply placePiece_cases in Hafter as [->|(p & s & Hacc & _)];
      [exists z; split; [done|lia]|].
    destruct (placePiece_after _ _ _ _ _ _ _ _ Hacc Hafter') as (_ & -> & _).
    destruct (awards_grow (scores room)
                (Mis.awarded (Mis.scoreMisplacement
                                (setCell (board room) r c (Piece p s)) r c)) i z)
      as (z1 & H1 & Hle1); [|done|].
    { eapply Forall_impl; [apply scoreMisplacement_points|]. intros a Ha. cbn beta in Ha. lia. }
    destruct (credit_grows p
                (Elim.removed (Elim.resolveEliminationsFrom
                                 (setCell (board room) r c (Piece p s)) r c p)) _ i z1 H1)
      as (z2 & H2 & Hle2).
    destruct (credit_grows p
                (Tri.points
                   (Tri.scoreThreeInRow
                      (Elim.board (Elim.resolveEliminationsFrom
                                     (setCell (board room) r c (Piece p s)) r c p)) r c p))
                _ i z2 H2) as (z3 & H3 & Hle3).
    exists z3. split; [exact H3|lia].
  - apply moveBlocker_after in Hafter as [->|(f & t & _ & ->)]; exists z; (split; [done|lia]).
Qed.

Lemma a_move_never_lowers_a_score_witness :
  exists z', hasScore pairStruck 0 z' /\ 0 <= z'.
Proof.
  apply (a_move_never_lowers_a_score pairReady (PlacePiece "a" 0 2 "R") pairStruck 0 0).
  - exact I.
  - vm_compute. reflexivity.
  - vm_compute. reflexivity.
Defined.
(** ** Games without a winner *)

Lemma Math_max_NaN_l x : Math_max NaN x = NaN.
Proof. by destruct x. Qed.

Lemma spreadMax_NaN_from acc arr :
  acc = NaN \/ None ∈ arr \/ Some NaN ∈ arr ->
  foldl (fun acc x => Math_max acc (default NaN x)) acc arr = NaN.
Proof.
  revert acc. induction arr as [|x arr IH]; intros acc H; cbn [foldl].
  - destruct H as [?|[?%elem_of_nil|?%elem_of_nil]]; done.
  - apply IH. destruct H as [->|[H|H]].
    + left. apply Math_max_NaN_l.
    + apply elem_of_cons in H as [<-|H]; [left; by destruct acc|by right; left].
    + apply elem_of_cons in H as [<-|H]; [left; by destruct acc|by right; right].
Qed.

Lemma winnersFrom_NaN i arr : winnersFrom i NaN arr = [].
Proof.
  revert i. induction arr as [|x arr IH]; intros i; cbn [winnersFrom]; [done|].
  destruct x as [n|]; [|apply IH]. by destruct n; cbn [num_eqb]; rewrite IH.
Qed.

Lemma num_eqb_refl n : n <> NaN -> num_eqb n n = true.
Proof. destruct n; cbn; [done|done|]. intros _. apply Z.eqb_refl. Qed.

(** Without hole or [NaN], the maximum is one of the entries. *)
Lemma spreadMax_attained_from acc arr :
  acc <> NaN -> None ∉ arr -> Some NaN ∉ arr ->
  let m := foldl (fun acc x => Math_max acc (default NaN x)) acc arr in
  m <> NaN /\ (m = acc \/ Some m ∈ arr).
Proof.
  revert acc. induction arr as [|x arr IH]; intros acc Hacc Hnone Hnan; cbn [foldl].
  { split; [done|by left]. }
  destruct x as [n|]; [|exfalso; apply Hnone; by left].
  assert (n <> NaN) as Hn by (intros ->; apply Hnan; by left).
  cbn [default from_option id].
  assert (Math_max acc n <> NaN /\ (Math_max acc n = acc \/ Math_max acc n = n)) as [Hm Hcase].
  { destruct acc as [| |a], n as [| |z]; cbn; try done; try (split; [done|by auto]).
    split; [done|]. destruct (Z.max_spec a z) as [[_ ->]|[_ ->]]; auto. }
  destruct (IH (Math_max acc n) Hm) as [Hres Hin].
  { intros H. apply Hnone. by right. }
  { intros H. apply Hnan. by right. }
  split; [done|]. destruct Hin as [Hin|Hin]; [|right; by right].
  rewrite Hin. destruct Hcase as [->| ->]; [by left|right; by left].
Qed.

Lemma evaluateWinners_nil arr :
  evaluateWinners arr = [] <-> arr = [] \/ None ∈ arr \/ Some NaN ∈ arr.
Proof.
  unfold evaluateWinners, spreadMax. split.
  - intros Hnil. destruct arr as [|x arr]; [by left|]. right.
    destruct (decide (None ∈ x :: arr)) as [?|Hnone]; [by left|].
    destruct (decide (Some NaN ∈ x :: arr)) as [?|Hnan]; [by right|]. exfalso.
    destruct x as [n|]; [|apply Hnone; by left].
    assert (n <> NaN) as Hn by (intros ->; apply Hnan; by left).
    cbn [foldl default from_option id] in Hnil.
    assert (Math_max NegInf n = n) as E by (by destruct n).
    rewrite E in Hnil.
    destruct (spreadMax_attained_from n arr Hn) as [Hm Hcase].
    { intros H. apply Hnone. by right. }
    { intros H. apply Hnan. by right. }
    cbn zeta in Hm, Hcase.
    assert (exists k, (Some n :: arr) !! k =
                        Some (Some (foldl (fun acc x => Math_max acc (default NaN x)) n arr)))
      as [k Hk].
    { apply list_elem_of_lookup_1. destruct Hcase as [->|Hin]; [by left|by right]. }
    assert (mkWinner (0 + k) (seatLabel (0 + k))
              (foldl (fun acc x => Math_max acc (default NaN x)) n arr)
            ∈ winnersFrom 0 (foldl (fun acc x => Math_max acc (default NaN x)) n arr)
                (Some n :: arr)) as Hw.
    { apply winnersFrom_spec. eexists k, _. split_and!; [exact Hk|by apply num_eqb_refl|done]. }
    rewrite Hnil in Hw. by apply elem_of_nil in Hw.
  - intros [->|H]; [done|].
    rewrite spreadMax_NaN_from by (by right). apply winnersFrom_NaN.
Qed.

(** X17.  [evaluateWinners] names nobody exactly when there is no score, or a
    score is a hole or [NaN]; whoever it names is a seat together with its
    own score. *)
Theorem no_winner_iff_hole_or_NaN arr :
  (evaluateWinners arr = [] <-> arr = [] \/ None ∈ arr \/ Some NaN ∈ arr) /\
  (forall w, w ∈ evaluateWinners arr ->
     arr !! index w = Some (Some (score w)) /\ label w = seatLabel (index w) /\
     score w <> NaN).
Proof.
  split; [apply evaluateWinners_nil|].
  intros w (k & n & Hk & Heq & ->)%winnersFrom_spec. cbn [index label score].
  split_and!; [done|done|]. intros ->. done.
Qed.

Lemma conclude_Threw room p room' :
  conclude room p = Threw room' <->
  num_geb (scoreOr0 (scores room) p) (pointsToWin (settings room)) = false /\
  (is_Some (firstOutOfStock room) \/ boardFull (board room) = true) /\
  evaluateWinners (scores room) = [] /\
  room' = set_gameOver true room.
Proof.
  unfold conclude, emitRoomStateOnce.
  destruct (num_geb (scoreOr0 (scores room) p) (pointsToWin (settings room))).
  { split; [done|]. intros (? & _). done. }
  destruct (firstOutOfStock room) as [i|].
  - cbn [scores set_gameOver].
    destruct (evaluateWinners (scores room)) as [|w [|w' ws]].
    + split; [intros [= <-]; split_and!; eauto|]. by intros (_ & _ & _ & ->).
    + split; [done|]. by intros (_ & _ & ? & _).
    + split; [done|]. by intros (_ & _ & ? & _).
  - destruct (boardFull (board room)).
    + cbn [scores set_gameOver].
      destruct (evaluateWinners (scores room)) as [|w [|w' ws]].
      * split; [intros [= <-]; split_and!; eauto|]. by intros (_ & _ & _ & ->).
      * split; [done|]. by intros (_ & _ & ? & _).
      * split; [done|]. by intros (_ & _ & ? & _).
    + split; [done|]. intros (_ & [[? ?]|?] & _); done.
Qed.

Lemma conclude_Threw_after scored p before room' :
  roomAfter before (conclude scored p) = Some room' ->
  (conclude scored p = Threw room' <->
   num_geb (scoreOr0 (scores room') p) (pointsToWin (settings room')) = false /\
   (is_Some (firstOutOfStock room') \/ boardFull (board room') = true) /\
   evaluateWinners (scores room') = []) /\
  (conclude scored p = Threw room' ->
   gameOver room' = true /\ turn room' = turn scored /\ message room' = message scored /\
   highlights room' = highlights scored).
Proof.
  intros Hafter.
  assert (roomAfter scored (conclude scored p) = Some room') as Hafter'.
  { pose proof (conclude_not_Ignored scored p). by destruct (conclude scored p). }
  pose proof (conclude_frame scored p room' Hafter')
    as (Hset & Hpl & _ & _ & Hsc & Hst & Hb & _).
  rewrite Hsc, Hset, Hb, (firstOutOfStock_ext scored room' Hpl Hst), conclude_Threw.
  split.
  - split; [intros (? & ? & ? & _); done|].
    intros (Hwon & Hend & Hnone). split_and!; [done..|].
    assert (conclude scored p = Threw (set_gameOver true scored)) as E
      by (by apply conclude_Threw).
    rewrite E in Hafter. by injection Hafter as <-.
  - intros (_ & _ & _ & ->). done.
Qed.

(** X18.  An accepted placement throws exactly when it ends the game on an
    empty stock or a full board, nobody has reached the points to win, and
    the scores have a hole or a [NaN] (or there is no score at all).  It
    has set [gameOver] by then, but it announces no winner, passes the turn
    to nobody and sends no state: the highlights of the move stay in the
    room. *)
Theorem a_placement_throws_iff_nobody_wins room sock r c sym p s room' :
  accepts room sock r c sym p s ->
  roomAfter room (placePiece room sock r c sym) = Some room' ->
  (placePiece room sock r c sym = Threw room' <->
   num_geb (scoreOr0 (scores room') p) (pointsToWin (settings room')) = false /\
   (is_Some (firstOutOfStock room') \/ boardFull (board room') = true) /\
   (scores room' = [] \/ None ∈ scores room' \/ Some NaN ∈ scores room')) /\
  (placePiece room sock r c sym = Threw room' ->
   gameOver room' = true /\ turn room' = turn room /\ message room' = message room /\
   highlights room' = highlights (scorePlacement (place room p r c s) p r c)).
Proof.
  intros Hacc Hafter. rewrite <- evaluateWinners_nil.
  rewrite (placePiece_accepts _ _ _ _ _ _ _ Hacc) in *.
  pose proof (scored_frame room p r c s) as (Ht & _ & Hm).
  destruct (conclude_Threw_after _ _ _ _ Hafter) as [Hiff Hthen].
  split; [exact Hiff|]. intros E. destruct (Hthen E) as (? & ? & ? & ?).
  split_and!; [done|by rewrite <- Ht|by rewrite <- Hm|done].
Qed.

Lemma lastTile_reachable : reachableBy anyEvent lastTile.
Proof.
  unfold lastTile, holed, crowd4. cbn [foldl].
  repeat (apply reachableBy_play; [|exact I]). apply reach_new.
Qed.

(** X19.  Such a game exists: after two of four players have left, a
    misplacement award to a piece that still carries its owner's old seat
    leaves a hole in the scores, and the placement that uses up the last
    tile of a seat throws. *)
Theorem a_left_seat_can_make_the_last_move_throw :
  reachableBy anyEvent lastTile /\
  scores lastTile = [Some (Int 0); Some (Int 0); None; Some (Int 1)] /\
  players lastTile = [mkPlayer "a" "Ann"; mkPlayer "d" "Dan"] /\
  exists room',
    placePiece lastTile "a" 0 6 "P" = Threw room' /\
    gameOver room' = true /\ message room' = message lastTile /\
    evaluateWinners (scores room') = [].
Proof.
  split; [exact lastTile_reachable|].
  split; [vm_compute; reflexivity|]. split; [vm_compute; reflexivity|].
  destruct (placePiece lastTile "a" 0 6 "P") as [|flash room'| |room'] eqn:E;
    try (exfalso; vm_compute in E; discriminate E).
  exists room'. split; [reflexivity|].
  vm_compute in E. injection E as <-. split_and!; vm_compute; reflexivity.
Qed.

Lemma a_placement_throws_witness :
  exists room',
    placePiece lastTile "a" 0 6 "P" = Threw room' /\ gameOver room' = true.
Proof.
  assert (accepts lastTile "a" 0 6 "P" 0 Paper) as Hacc.
  { unfold accepts. split_and!; vm_compute; reflexivity. }
  destruct (roomAfter lastTile (placePiece lastTile "a" 0 6 "P")) as [room'|] eqn:Hafter;
    [|exfalso; vm_compute in Hafter; discriminate Hafter].
  destruct (a_placement_throws_iff_nobody_wins lastTile "a" 0 6 "P" 0 Paper room' Hacc Hafter)
    as [Hiff Hthen].
  assert (placePiece lastTile "a" 0 6 "P" = Threw room') as E.
  { apply Hiff. vm_compute in Hafter. injection Hafter as <-.
    split_and!; [vm_compute; reflexivity|left; vm_compute; eauto|].
    right. left. cbn [scores]. rewrite !elem_of_cons. auto. }
  exists room'. split; [exact E|]. exact (proj1 (Hthen E)).
Defined.
(** ** The revisions of [leaveRoom] *)

(** X20.  The latest [leaveRoom] differs from the one of the middle revision in
    two points only: it deletes a room that is left without players, which
    the middle revision keeps with its spectators, and it clears the
    highlights once the state is sent. *)
Theorem leaveRoom_revisions_differ_on_the_empty_room room sock :
  (leaveRoom room sock = Deleted <-> players (Rev1.leaveRoom room sock) = []) /\
  (forall room', roomAfter room (leaveRoom room sock) = Some room' ->
     leaveRoom room sock = Updated (highlights room) room' /\
     room' = set_highlights [] (Rev1.leaveRoom room sock) /\
     highlights (Rev1.leaveRoom room sock) = highlights room) /\
  started (Rev1.leaveRoom room sock) = false /\
  gameOver (Rev1.leaveRoom room sock) = false /\
  board (Rev1.leaveRoom room sock) = board room.
Proof.
  unfold leaveRoom, Rev1.leaveRoom, emitRoomStateOnce.
  destruct (findSocket sock (spectators room)) as [sIdx|];
    cbn [players set_spectators];
    (destruct (findSocket sock (players room)) as [pIdx|];
     cbn [players set_spectators set_players set_turn set_scores set_stock turn scores stock];
     [destruct (length (delete pIdx (players room)) <=? turn room)%nat eqn:Hturn|];
     cbn [players set_spectators set_players set_turn set_scores set_stock turn scores stock
          set_started set_gameOver set_message];
     rewrite <- length_zero_iff_nil; case_bool_decide as Hlen;
     (split_and!; [done| |done..]); intros room' [= <-]; done).
Qed.
(** ** The first revision of the eliminations *)

Lemma bump_tryEliminate placed byIdx x y st :
  Rev0.bump placed x y (boardAndCount st) =
    boardAndCount (Elim.tryEliminate placed byIdx x y st).
Proof.
  unfold Rev0.bump, Rev0.tryEliminate, Elim.tryEliminate, boardAndCount. cbn [fst snd].
  destruct (inBounds x y); cbn [negb]; [|f_equal; lia].
  destruct (cellAt (Elim.board st) x y) as [| |q t]; [f_equal; lia..|].
  destruct (bool_decide (q = placed.1)); [f_equal; lia|].
  destruct (bool_decide (WEAK_TO t = placed.2)); cbn [Elim.board Elim.removed]; f_equal; lia.
Qed.

Lemma pairScan0_cons2 placed r c dr dc a b rest st :
  Rev0.pairScan placed r c dr dc (a :: b :: rest) st =
    Rev0.pairScan placed r c dr dc (b :: rest)
      (if (bool_decide (a.1 = r) && bool_decide (a.2 = c))
          || (bool_decide (b.1 = r) && bool_decide (b.2 = c))
       then Rev0.bump placed (b.1 + dr) (b.2 + dc) (Rev0.bump placed (a.1 - dr) (a.2 - dc) st)
       else st).
Proof. reflexivity. Qed.

Lemma pairScan0_none placed r c dr dc l st :
  Forall (fun x => x <> (r, c)) l -> Rev0.pairScan placed r c dr dc l st = st.
Proof.
  revert st. induction l as [|a l IH]; intros st Hl; [done|].
  apply Forall_cons in Hl as [Ha Hl]. destruct l as [|b l]; [done|].
  pose proof Hl as [Hb _]%Forall_cons.
  rewrite pairScan0_cons2, (isNew_false r c a), (isNew_false r c b) by done.
  by apply IH.
Qed.

Lemma pairScan0_from_new p s byIdx r c dr dc F st :
  Forall (fun x => x <> (r, c)) F ->
  Rev0.pairScan (p, s) r c dr dc ((r, c) :: F) (boardAndCount st) =
    boardAndCount
      (attempts (p, s) byIdx st
         match F with
         | [] => []
         | f :: _ => [(r - dr, c - dc); (f.1 + dr, f.2 + dc)]
         end).
Proof.
  intros HF. destruct F as [|f F]; [done|].
  rewrite pairScan0_cons2, isNew_true. cbn [orb fst snd].
  rewrite !(bump_tryEliminate _ byIdx). by rewrite pairScan0_none.
Qed.

Lemma pairScan0_behind p s byIdx r c dr dc L a F st :
  Forall (fun x => x <> (r, c)) L -> a <> (r, c) ->
  Rev0.pairScan (p, s) r c dr dc (L ++ a :: (r, c) :: F) (boardAndCount st) =
    Rev0.pairScan (p, s) r c dr dc ((r, c) :: F)
      (boardAndCount (attempts (p, s) byIdx st [(a.1 - dr, a.2 - dc); (r + dr, c + dc)])).
Proof.
  intros HL Ha. induction L as [|x L IH].
  - change ([] ++ a :: (r, c) :: F) with (a :: (r, c) :: F).
    rewrite pairScan0_cons2, isNew_true, orb_true_r. cbn [fst snd].
    by rewrite !(bump_tryEliminate _ byIdx).
  - apply Forall_cons in HL as [Hx HL]. specialize (IH HL).
    destruct L as [|y L].
    + change ([x] ++ a :: (r, c) :: F) with (x :: a :: (r, c) :: F).
      rewrite pairScan0_cons2, (isNew_false r c x), (isNew_false r c a) by done.
      exact IH.
    + apply Forall_cons in HL as [Hy _].
      change ((x :: y :: L) ++ a :: (r, c) :: F)
        with (x :: y :: (L ++ a :: (r, c) :: F)).
      rewrite pairScan0_cons2, (isNew_false r c x), (isNew_false r c y) by done.
      exact IH.
Qed.

Lemma attempts_app placed byIdx st xs ys :
  attempts placed byIdx st (xs ++ ys) = attempts placed byIdx (attempts placed byIdx st xs) ys.
Proof. unfold attempts. by rewrite foldl_app. Qed.

(** One direction of the first revision attempts exactly [candidates0]. *)
Lemma direction0_candidates p s byIdx r c st d :
  d <> (0, 0) ->
  Rev0.direction (p, s) r c (boardAndCount st) d =
    boardAndCount (attempts (p, s) byIdx st (candidates0 (Elim.board st) p s r c d)).
Proof.
  destruct d as [dr dc]. intros Hd. unfold Rev0.direction, candidates0, Elim.fuel.
  cbn [fst snd boardAndCount]. change (Z.to_nat BOARD_SIZE) with 8%nat.
  destruct (backward_spec 8 (Elim.board st) (p, s) dr dc (r - dr) (c - dc) [(r, c)])
    as (L & -> & HL & Hlast).
  destruct (forward_spec 8 (Elim.board st) (p, s) dr dc (r + dr) (c + dc) (L ++ [(r, c)]))
    as (F & -> & HF & Hfirst).
  assert (Forall (fun x => x <> (r, c)) F) as HF'.
  { eapply Forall_impl; [exact HF|]. intros x (j & Hj & ->) [=]. apply Hd. f_equal; nia. }
  assert (Forall (fun x => x <> (r, c)) L) as HL'.
  { eapply Forall_impl; [exact HL|]. intros x (j & Hj & ->) [=]. apply Hd. f_equal; nia. }
  fold (boardAndCount st).
  destruct (sameAt (Elim.board st) (p, s) (r - dr, c - dc)).
  - destruct Hlast as [L' ->]. apply Forall_app in HL' as [HL' [Ha _]%Forall_cons].
    rewrite <- !app_assoc. cbn [app].
    rewrite (pairScan0_behind p s byIdx) by done.
    rewrite (pairScan0_from_new p s byIdx) by done.
    rewrite <- attempts_app. cbn [app fst snd].
    replace (r - dr - dr) with (r - 2 * dr) by lia.
    replace (c - dc - dc) with (c - 2 * dc) by lia.
    destruct (sameAt (Elim.board st) (p, s) (r + dr, c + dc)).
    + destruct Hfirst as [F' ->]. cbn [fst snd].
      replace (r + dr + dr) with (r + 2 * dr) by lia.
      by replace (c + dc + dc) with (c + 2 * dc) by lia.
    + by subst F.
  - subst L. cbn [app].
    rewrite (pairScan0_from_new p s byIdx) by done.
    destruct (sameAt (Elim.board st) (p, s) (r + dr, c + dc)).
    + destruct Hfirst as [F' ->]. cbn [fst snd].
      replace (r + dr + dr) with (r + 2 * dr) by lia.
      by replace (c + dc + dc) with (c + 2 * dc) by lia.
    + by subst F.
Qed.

Lemma candidates0_ext b b' p s r c d :
  (forall z, sameAt b' (p, s) z = sameAt b (p, s) z) ->
  candidates0 b' p s r c d = candidates0 b p s r c d.
Proof. intros H. unfold candidates0. by rewrite !H. Qed.

Lemma resolve0_attempts b r c byIdx p s :
  board_ok b -> cellAt b r c = Piece p s ->
  Rev0.resolveEliminationsFrom b r c =
    boardAndCount
      (attempts (p, s) byIdx (Elim.mkSt b [] 0) (d ← deltas; candidates0 b p s r c d)).
Proof.
  intros Hb Hcell. unfold Rev0.resolveEliminationsFrom. rewrite Hcell.
  assert (forall ds st, Forall (fun d => d <> (0, 0)) ds -> board_ok (Elim.board st) ->
            (forall z, sameAt (Elim.board st) (p, s) z = sameAt b (p, s) z) ->
            foldl (Rev0.direction (p, s) r c) (boardAndCount st) ds =
              boardAndCount (attempts (p, s) byIdx st (d ← ds; candidates0 b p s r c d)))
    as Hfold.
  { induction ds as [|d ds IH]; intros st Hds Hst Hsame; cbn [foldl mbind list_bind]; [done|].
    apply Forall_cons in Hds as [Hd Hds].
    rewrite (direction0_candidates p s byIdx) by done.
    rewrite (candidates0_ext b) by done.
    rewrite attempts_app.
    rewrite IH; [done|done|by apply attempts_ok|].
    intros z. rewrite attempts_sameAt by done. apply Hsame. }
  apply (Hfold deltas (Elim.mkSt b [] 0)); [|done|done].
  unfold deltas. repeat constructor; done.
Qed.

Lemma candidates0_submseteq b p s r c d :
  candidates0 b p s r c d ⊆+
    [(r - 2 * d.1, c - 2 * d.2); (r - d.1, c - d.2);
     (r + d.1, c + d.2); (r + 2 * d.1, c + 2 * d.2)].
Proof.
  unfold candidates0.
  destruct (sameAt b (p, s) (r - d.1, c - d.2)), (sameAt b (p, s) (r + d.1, c + d.2));
    cbn [app].
  - apply submseteq_skip. apply submseteq_swap.
  - apply submseteq_skip, submseteq_cons, submseteq_skip, submseteq_cons, submseteq_nil.
  - apply submseteq_cons, submseteq_skip, submseteq_cons, submseteq_skip, submseteq_nil.
  - apply submseteq_nil_l.
Qed.

Lemma all_candidates0_NoDup b p s r c : NoDup (d ← deltas; candidates0 b p s r c d).
Proof.
  assert ((d ← deltas; candidates0 b p s r c d) ⊆+ around r c) as Hsub.
  { unfold around, deltas. cbn [mbind list_bind].
    repeat (apply submseteq_app; [apply candidates0_submseteq|]). done. }
  apply submseteq_Permutation in Hsub as [k Hk].
  pose proof (around_NoDup r c) as Hnd. rewrite Hk in Hnd.
  by apply NoDup_app in Hnd as [? _].
Qed.

Lemma candidates_in_candidates0 b p s r c d y :
  y ∈ candidates b p s r c d -> y ∈ candidates0 b p s r c d.
Proof.
  unfold candidates, candidates0.
  destruct (sameAt b (p, s) (r - d.1, c - d.2)).
  - intros Hy. apply elem_of_app. by left.
  - destruct (sameAt b (p, s) (r + d.1, c + d.2)); [|by intros ?%elem_of_nil].
    intros Hy. apply elem_of_app. by right.
Qed.

Lemma beaten_sameAt b p s y : beaten b p s y = true -> sameAt b (p, s) y = false.
Proof.
  unfold beaten, sameAt, sameOwnerSym. destruct (inBounds y.1 y.2); [|done]. cbn [andb fst snd].
  destruct (cellAt b y.1 y.2) as [| |q t]; [done..|].
  intros [Hq _]%andb_true_iff. apply negb_true_iff, bool_decide_eq_false in Hq.
  by rewrite (bool_decide_eq_false_2 (q = p)).
Qed.

Lemma resolve0_spec b r c p s :
  board_ok b -> cellAt b r c = Piece p s ->
  let old := Rev0.resolveEliminationsFrom b r c in
  board_ok old.1 /\
  (forall y, inBounds y.1 y.2 = true ->
     cellAt old.1 y.1 y.2 =
       if bool_decide (y ∈ eliminated0 b p s r c) then Empty else cellAt b y.1 y.2) /\
  old.2 = Z.of_nat (length (eliminated0 b p s r c)).
Proof.
  intros Hb Hcell old. subst old. rewrite (resolve0_attempts b r c 0%nat p s) by done.
  cbn [boardAndCount fst snd]. split; [by apply attempts_ok|].
  destruct (attempts_spec p s 0%nat (d ← deltas; candidates0 b p s r c d) (Elim.mkSt b [] 0))
    as [Hc Hr]; [done|apply all_candidates0_NoDup|].
  split.
  - intros y Hy. rewrite Hc by done. cbn [Elim.board]. unfold eliminated0.
    destruct (decide (y ∈ (d ← deltas; candidates0 b p s r c d))) as [Hin|Hnin].
    + rewrite (bool_decide_eq_true_2 _ Hin). cbn [andb].
      destruct (beaten b p s y) eqn:E.
      * rewrite bool_decide_eq_true_2; [done|]. apply list_elem_of_filter. done.
      * rewrite bool_decide_eq_false_2; [done|].
        intros [Hbt _]%list_elem_of_filter. congruence.
    + rewrite (bool_decide_eq_false_2 _ Hnin). cbn [andb].
      rewrite bool_decide_eq_false_2; [done|].
      intros [_ ?]%list_elem_of_filter. done.
  - rewrite Hr. cbn [Elim.removed Elim.board]. unfold eliminated0. lia.
Qed.

Lemma two_ahead_not_a_candidate b p s r c d d' :
  d ∈ deltas -> d' ∈ deltas -> sameAt b (p, s) (r - d.1, c - d.2) = true ->
  (r + 2 * d.1, c + 2 * d.2) ∉ candidates b p s r c d'.
Proof.
  intros Hd Hd' Hback Hin. unfold candidates in Hin.
  assert (d' = d -> sameAt b (p, s) (r - d'.1, c - d'.2) = true) as Hsame by (by intros ->).
  unfold deltas in Hd, Hd'.
  repeat (apply elem_of_cons in Hd as [->|Hd]);
    try (by apply elem_of_nil in Hd);
    repeat (apply elem_of_cons in Hd' as [->|Hd']);
    try (by apply elem_of_nil in Hd');
    cbn [fst snd] in *;
    try (rewrite Hsame in Hin by done);
    repeat case_match;
    repeat (apply elem_of_cons in Hin as [Hin|Hin]; [injection Hin; lia|]);
    by apply elem_of_nil in Hin.
Qed.

(** X21.  The first revision has no [break] in its loop over the pairs.  It
    removes every piece the latest revision removes, and one more in each
    direction in which the new piece has its own kind on both sides: the
    beaten piece two steps ahead, which the latest revision leaves. *)
Theorem first_revision_also_strikes_two_ahead b r c byIdx p s :
  board_ok b -> cellAt b r c = Piece p s ->
  let old := Rev0.resolveEliminationsFrom b r c in
  let new := Elim.resolveEliminationsFrom b r c byIdx in
  (forall y, inBounds y.1 y.2 = true ->
     cellAt old.1 y.1 y.2 =
       if bool_decide (y ∈ eliminated0 b p s r c) then Empty else cellAt b y.1 y.2) /\
  old.2 = Z.of_nat (length (eliminated0 b p s r c)) /\
  (forall y, y ∈ eliminated b p s r c -> y ∈ eliminated0 b p s r c) /\
  (forall y, y ∈ eliminated0 b p s r c -> y ∉ eliminated b p s r c ->
     exists d, d ∈ deltas /\
       sameAt b (p, s) (r - d.1, c - d.2) = true /\
       sameAt b (p, s) (r + d.1, c + d.2) = true /\
       y = (r + 2 * d.1, c + 2 * d.2)) /\
  (forall d, d ∈ deltas ->
     sameAt b (p, s) (r - d.1, c - d.2) = true ->
     sameAt b (p, s) (r + d.1, c + d.2) = true ->
     beaten b p s (r + 2 * d.1, c + 2 * d.2) = true ->
     (r + 2 * d.1, c + 2 * d.2) ∈ eliminated0 b p s r c /\
     (r + 2 * d.1, c + 2 * d.2) ∉ eliminated b p s r c) /\
  Elim.removed new <= old.2.
Proof.
  intros Hb Hcell old new.
  destruct (resolve0_spec b r c p s Hb Hcell) as (_ & Hcells & Hcount).
  destruct (resolve_spec b r c byIdx p s Hb Hcell) as (_ & _ & Hnew).
  fold old in Hcells, Hcount. fold new in Hnew.
  assert (forall y, y ∈ eliminated b p s r c -> y ∈ eliminated0 b p s r c) as Hsub.
  { intros y [Hbt (d & Hy & Hd)%list_elem_of_bind]%list_elem_of_filter.
    apply list_elem_of_filter. split; [done|]. apply list_elem_of_bind.
    exists d. split; [by apply candidates_in_candidates0|done]. }
  split_and!; [done|done|done| | |].
  - intros y [Hbt (d & Hy & Hd)%list_elem_of_bind]%list_elem_of_filter Hnot.
    exists d. split; [done|].
    assert (y ∉ candidates b p s r c d) as Hnc.
    { intros Hc. apply Hnot. apply list_elem_of_filter. split; [done|].
      apply list_elem_of_bind. by exists d. }
    unfold candidates0 in Hy. unfold candidates in Hnc.
    destruct (sameAt b (p, s) (r - d.1, c - d.2)) eqn:Eb;
      destruct (sameAt b (p, s) (r + d.1, c + d.2)) eqn:Ef; cbn [app] in Hy.
    + split; [done|]. split; [done|].
      repeat (apply elem_of_cons in Hy as [->|Hy]).
      * exfalso. apply Hnc. by left.
      * exfalso. apply Hnc. right. by left.
      * apply beaten_sameAt in Hbt. congruence.
      * done.
      * by apply elem_of_nil in Hy.
    + done.
    + done.
    + by apply elem_of_nil in Hy.
  - intros d Hd Eb Ef Hbt. split.
    + apply list_elem_of_filter. split; [done|]. apply list_elem_of_bind.
      exists d. split; [|done]. unfold candidates0. rewrite Eb, Ef. cbn [app].
      do 3 right. by left.
    + intros [_ (d' & Hy & Hd')%list_elem_of_bind]%list_elem_of_filter.
      exact (two_ahead_not_a_candidate b p s r c d d' Hd Hd' Eb Hy).
  - rewrite Hnew, Hcount. apply inj_le. apply submseteq_length.
    apply NoDup_submseteq; [|done].
    apply NoDup_filter, all_candidates_NoDup.
Qed.

Lemma first_revision_witness :
  cellAt (Rev0.resolveEliminationsFrom midBoard 0 1).1 0 3 = Empty /\
  cellAt (Elim.board (Elim.resolveEliminationsFrom midBoard 0 1 0)) 0 3 = Piece 1 Scissors.
Proof.
  assert (board_ok midBoard) as Hok by (unfold midBoard; auto using setCell_ok, createEmptyBoard_ok).
  assert (cellAt midBoard 0 1 = Piece 0 Rock) as Hcell by (vm_compute; reflexivity).
  destruct (first_revision_also_strikes_two_ahead midBoard 0 1 0 0 Rock Hok Hcell)
    as (Hcells & _).
  split.
  - etrans; [exact (Hcells (0, 3) eq_refl)|]. vm_compute. reflexivity.
  - vm_compute. reflexivity.
Defined.
(** ** The first game *)

Lemma bumps_other player n sc q :
  q <> player -> Nat.iter n (Proto.bump player) sc !! q = sc !! q.
Proof.
  intros Hne. induction n as [|n IH]; [done|].
  rewrite Nat.iter_succ. unfold Proto.bump at 1.
  repeat case_match; rewrite ?lookup_insert_ne by done; exact IH.
Qed.

Lemma bumps_proto n sc : Nat.iter n (Proto.bump "__proto__") sc = sc.
Proof. induction n as [|n IH]; [done|]. rewrite Nat.iter_succ, IH. reflexivity. Qed.

Lemma bumps_num player n sc z :
  player <> "__proto__" -> sc !! player = Some (Proto.Num z) ->
  Nat.iter n (Proto.bump player) sc !! player = Some (Proto.Num (z + Z.of_nat n)).
Proof.
  intros Hp Hz. induction n as [|n IH].
  { cbn [Nat.iter nat_rect]. rewrite Hz. do 2 f_equal. lia. }
  rewrite Nat.iter_succ. unfold Proto.bump at 1.
  rewrite bool_decide_eq_false_2 by done. rewrite IH, lookup_insert_eq.
  do 2 f_equal. lia.
Qed.

Lemma bumps_text player n sc :
  player <> "__proto__" -> sc !! player = Some Proto.Text ->
  Nat.iter n (Proto.bump player) sc !! player = Some Proto.Text.
Proof.
  intros Hp Hz. induction n as [|n IH]; [done|].
  rewrite Nat.iter_succ. unfold Proto.bump at 1.
  rewrite bool_decide_eq_false_2 by done. by rewrite IH, lookup_insert_eq.
Qed.

Lemma bumps_fresh player n sc :
  player <> "__proto__" -> sc !! player = None -> (0 < n)%nat ->
  Nat.iter n (Proto.bump player) sc !! player =
    Some (if bool_decide (player ∈ Proto.inherited) then Proto.Text
          else Proto.Num (Z.of_nat n)).
Proof.
  intros Hp Hz Hn. destruct n as [|n]; [lia|]. rewrite Nat.iter_succ_r.
  unfold Proto.bump at 2. rewrite bool_decide_eq_false_2 by done. rewrite Hz.
  case_bool_decide.
  - apply bumps_text; [done|]. apply lookup_insert_eq.
  - rewrite (bumps_num player n _ 1 Hp) by apply lookup_insert_eq. do 2 f_equal. lia.
Qed.

Lemma checkRows_bumps player b sc :
  Proto.checkRows player b sc = Nat.iter (payingRows b) (Proto.bump player) sc.
Proof.
  unfold Proto.checkRows, payingRows. revert sc.
  induction b as [|row b IH]; intros sc; cbn [foldl fmap list_fmap sum_list]; [done|].
  rewrite IH. rewrite Nat.add_comm, Nat.iter_add. f_equal.
  unfold id. generalize Proto.symbols. intros l. revert sc.
  induction l as [|x l IHl]; intros sc; cbn [foldl]; [done|].
  rewrite IHl, filter_cons.
  destruct (Nat.eqb_spec (Proto.countIn row x) 3) as [E|E].
  - rewrite decide_True by done. cbn [length]. by rewrite Nat.iter_succ_r.
  - by rewrite decide_False.
Qed.

Lemma makeMove_Emitted st player row col symbol st' :
  Proto.makeMove st player row col symbol = Proto.Emitted st' <->
  0 <= row < 8 /\ 0 <= col /\
  (exists cells, Proto.board st !! Z.to_nat row = Some cells /\
     cells !! Z.to_nat col = Some None) /\
  Proto.players st !! Proto.currentPlayerIndex st = Some player /\
  st' =
    Proto.mkGameState
      (alter (fun cells => <[Z.to_nat col := Some symbol]> cells) (Z.to_nat row) (Proto.board st))
      (Proto.players st)
      (Proto.checkRows player
         (alter (fun cells => <[Z.to_nat col := Some symbol]> cells) (Z.to_nat row)
            (Proto.board st))
         (Proto.scores st))
      ((Proto.currentPlayerIndex st + 1) mod length (Proto.players st))%nat.
Proof.
  unfold Proto.makeMove.
  destruct ((0 <=? row) && (row <? 8)) eqn:Hrow; cbn [negb].
  2: { split; [done|]. intros (? & _). apply andb_false_iff in Hrow as [?%Z.leb_gt|?%Z.ltb_ge]; lia. }
  apply andb_true_iff in Hrow as [?%Z.leb_le ?%Z.ltb_lt].
  destruct (Proto.board st !! Z.to_nat row) as [cells|] eqn:Ecells.
  2: { split; [done|]. intros (_ & _ & (? & ? & _) & _). done. }
  destruct (0 <=? col) eqn:Hcol; cbn [negb].
  2: { split; [done|]. intros (_ & ? & _). apply Z.leb_gt in Hcol. lia. }
  apply Z.leb_le in Hcol.
  destruct (cells !! Z.to_nat col) as [[sym|]|] eqn:Ecell.
  - split; [done|]. intros (_ & _ & (? & [= <-] & ?) & _). congruence.
  - case_bool_decide as Hturn.
    + split.
      * intros [= <-]. split_and!; [lia|lia|lia|by eauto|done|done].
      * intros (_ & _ & _ & _ & ->). done.
    + split; [done|]. intros (_ & _ & _ & ? & _). done.
  - split; [done|]. intros (_ & _ & (? & [= <-] & ?) & _). congruence.
Qed.

(** X22.  [makeMove] throws exactly for a row off the board, is ignored exactly
    when the row is on the board and the cell is not free or the name sent
    is not the one on turn, and otherwise puts the symbol sent, whatever it
    is, on the cell, leaves every other cell and the players as they are,
    and passes the turn to the next player in the list, cyclically. *)
Theorem proto_makeMove_outcomes st player row col symbol :
  length (Proto.board st) = 8%nat ->
  let free :=
    exists cells, Proto.board st !! Z.to_nat row = Some cells /\
      0 <= col /\ cells !! Z.to_nat col = Some None in
  let onTurn := Proto.players st !! Proto.currentPlayerIndex st = Some player in
  (Proto.makeMove st player row col symbol = Proto.Threw <-> ~ 0 <= row < 8) /\
  (Proto.makeMove st player row col symbol = Proto.Ignored <->
   0 <= row < 8 /\ ~ (free /\ onTurn)) /\
  (forall st', Proto.makeMove st player row col symbol = Proto.Emitted st' ->
     free /\ onTurn /\
     Proto.players st' = Proto.players st /\
     Proto.currentPlayerIndex st' =
       ((Proto.currentPlayerIndex st + 1) mod length (Proto.players st))%nat /\
     (Proto.currentPlayerIndex st' < length (Proto.players st'))%nat /\
     length (Proto.board st') = 8%nat /\
     (forall i j cells', Proto.board st' !! i = Some cells' ->
        cells' !! j =
          if decide (i = Z.to_nat row /\ j = Z.to_nat col) then Some (Some symbol)
          else Proto.board st !! i ≫= (.!! j))).
Proof.
  intros Hlen free onTurn. split_and!.
  - unfold Proto.makeMove.
    destruct ((0 <=? row) && (row <? 8)) eqn:Hrow; cbn [negb].
    + apply andb_true_iff in Hrow as [?%Z.leb_le ?%Z.ltb_lt].
      destruct (Proto.board st !! Z.to_nat row) as [cells|] eqn:E.
      * split; [|lia]. repeat case_match; done.
      * apply lookup_ge_None_1 in E. lia.
    + apply andb_false_iff in Hrow as [?%Z.leb_gt|?%Z.ltb_ge]; split; (done || lia).
  - subst free onTurn. unfold Proto.makeMove.
    destruct ((0 <=? row) && (row <? 8)) eqn:Hrow; cbn [negb].
    2: { apply andb_false_iff in Hrow as [?%Z.leb_gt|?%Z.ltb_ge];
           (split; [done|intros [? _]; lia]). }
    apply andb_true_iff in Hrow as [?%Z.leb_le ?%Z.ltb_lt].
    destruct (Proto.board st !! Z.to_nat row) as [cells|] eqn:E.
    2: { apply lookup_ge_None_1 in E. lia. }
    destruct (0 <=? col) eqn:Hcol; cbn [negb].
    2: { apply Z.leb_gt in Hcol. split; [|done]. intros _. split; [lia|].
         intros [(? & _ & ? & _) _]. lia. }
    apply Z.leb_le in Hcol.
    destruct (cells !! Z.to_nat col) as [[sym|]|] eqn:Ecell.
    + split; [|done]. intros _. split; [lia|]. intros [(? & [= <-] & _ & ?) _]. congruence.
    + case_bool_decide as Hturn.
      * split; [done|]. intros [_ Hnot]. exfalso. apply Hnot. split; [|done]. by eauto.
      * split; [|done]. intros _. split; [lia|]. by intros [_ ?].
    + split; [|done]. intros _. split; [lia|]. intros [(? & [= <-] & _ & ?) _]. congruence.
  - intros st' (Hrow & Hcol & (cells & Hcells & Hcell) & Hturn & ->)%makeMove_Emitted.
    cbn [Proto.players Proto.currentPlayerIndex Proto.board].
    split_and!; [by exists cells|done|done|done| |by rewrite length_alter|].
    + apply Nat.mod_upper_bound. apply lookup_lt_Some in Hturn. lia.
    + intros i j cells' Hi. rewrite list_lookup_alter in Hi.
      destruct (decide (Z.to_nat row = i)) as [<-|Hne].
      * rewrite Hcells in Hi. cbn in Hi. injection Hi as <-.
        destruct (decide (j = Z.to_nat col)) as [->|Hj].
        -- rewrite decide_True by done. apply list_lookup_insert_eq.
           by eapply lookup_lt_Some.
        -- rewrite decide_False by (by intros [_ ?]).
           rewrite list_lookup_insert_ne by done. by rewrite Hcells.
      * rewrite decide_False by (intros [? _]; congruence). by rewrite Hi.
Qed.

Lemma proto_makeMove_witness :
  Proto.currentPlayerIndex protoRow = 1%nat /\
  Proto.makeMove protoRow "Bob" 8 0 "O" = Proto.Threw.
Proof.
  split; [vm_compute; reflexivity|].
  destruct (proto_makeMove_outcomes protoRow "Bob" 8 0 "O" ltac:(vm_compute; reflexivity))
    as (H & _).
  apply H. lia.
Defined.

(** X23.  [checkRows] looks at the whole board after every move: the player who
    moved gets one point for every row and symbol such that the row holds
    the symbol exactly three times, wherever the move was and whoever put
    the three there, and nobody else's score changes.  So a row of three
    pays again at every later move, until a fourth cell of it takes the
    same symbol.  The points are added to the number the player has, and
    to [0] for a player without a score whose name is not one that every
    object inherits; for such a name the score becomes a string, and for
    the name [__proto__] nothing is stored at all. *)
Theorem proto_rows_of_three_pay_every_mover st player row col symbol st' :
  Proto.makeMove st player row col symbol = Proto.Emitted st' ->
  let n := payingRows (Proto.board st') in
  (forall q, q <> player -> Proto.scores st' !! q = Proto.scores st !! q) /\
  (n = 0%nat -> Proto.scores st' = Proto.scores st) /\
  (player = "__proto__" -> Proto.scores st' = Proto.scores st) /\
  (forall z, player <> "__proto__" -> Proto.scores st !! player = Some (Proto.Num z) ->
     Proto.scores st' !! player = Some (Proto.Num (z + Z.of_nat n))) /\
  ((0 < n)%nat -> player ∉ Proto.inherited -> Proto.scores st !! player = None ->
     Proto.scores st' !! player = Some (Proto.Num (Z.of_nat n))) /\
  ((0 < n)%nat -> player ∈ Proto.inherited -> player <> "__proto__" ->
     Proto.scores st !! player = None ->
     Proto.scores st' !! player = Some Proto.Text) /\
  (player <> "__proto__" -> Proto.scores st !! player = Some Proto.Text ->
     Proto.scores st' !! player = Some Proto.Text).
Proof.
  intros (_ & _ & _ & _ & ->)%makeMove_Emitted. cbn [Proto.board Proto.scores].
  rewrite checkRows_bumps.
  set (n := payingRows _). clearbody n. split_and!.
  - intros q Hq. by apply bumps_other.
  - by intros ->.
  - intros ->. apply bumps_proto.
  - intros z Hp Hz. by apply bumps_num.
  - intros Hn Hin Hz.
    assert (player <> "__proto__") as Hp.
    { intros ->. apply Hin. unfold Proto.inherited. by left. }
    rewrite bumps_fresh by done. by rewrite bool_decide_eq_false_2.
  - intros Hn Hin Hp Hz. rewrite bumps_fresh by done. by rewrite bool_decide_eq_true_2.
  - intros Hp Hz. by apply bumps_text.
Qed.

Lemma proto_rows_witness :
  Proto.scores protoRow !! "Bob" = Some (Proto.Num 0) /\
  exists st', Proto.makeMove protoRow "Bob" 6 5 "O" = Proto.Emitted st' /\
    Proto.scores st' !! "Bob" = Some (Proto.Num 1).
Proof.
  assert (Proto.scores protoRow !! "Bob" = Some (Proto.Num 0)) as Hbob
    by (vm_compute; reflexivity).
  split; [exact Hbob|].
  destruct (Proto.makeMove protoRow "Bob" 6 5 "O") as [|st'|] eqn:E;
    try (exfalso; vm_compute in E; discriminate E).
  exists st'. split; [done|].
  destruct (proto_rows_of_three_pay_every_mover _ _ _ _ _ _ E) as (_ & _ & _ & H & _).
  assert (payingRows (Proto.board st') = 1%nat) as Hn.
  { vm_compute in E. injection E as <-. vm_compute. reflexivity. }
  rewrite Hn in H. rewrite (H 0); [reflexivity|discriminate|exact Hbob].
Defined.
(** ** Names *)

Lemma substring_nonempty n s :
  s <> EmptyString -> String.substring 0 (S n) s <> EmptyString.
Proof. by destruct s. Qed.

Lemma nameOr_nonempty nick fallback :
  fallback <> EmptyString -> nameOr nick fallback <> EmptyString.
Proof.
  intros Hf. unfold nameOr. apply substring_nonempty. by case_bool_decide.
Qed.

Lemma seatLabel_nonempty i : seatLabel i <> EmptyString.
Proof. done. Qed.

Lemma handle_names_ok room e room' :
  names_ok room -> roomAfter room (handle room e) = Some room' -> names_ok room'.
Proof.
  unfold names_ok. intros Hok.
  destruct e as [sock nick sp|sock|rnd sock t b p|sock r c sym|sock from to|sock];
    cbn [handle]; intros Hafter.
  - apply Forall_app in Hok as [Hp Hsp].
    apply joinRoom_after in Hafter
      as (_ & _ & _ & [(_ & _ & _ & -> & -> & _)|(_ & -> & -> & _)]).
    + rewrite <- app_assoc. apply Forall_app. split; [done|].
      apply Forall_cons. split; [|done]. cbn [name].
      split; [apply nameOr_nonempty, seatLabel_nonempty|apply nameOr_short].
    + apply Forall_app. split; [done|]. apply Forall_app. split; [done|].
      apply Forall_singleton. cbn [name].
      split; [by apply nameOr_nonempty|apply nameOr_short].
  - pose proof (leaveRoom_rest _ _ _ Hafter) as (Hs & _).
    apply leaveRoom_after in Hafter as (_ & _ & Hcases & _).
    apply Forall_app in Hok as [Hp Hsp]. apply Forall_app. split.
    + destruct Hcases as [(pIdx & _ & -> & _)|(_ & -> & _)]; [by apply Forall_delete|done].
    + rewrite Hs. case_match; [by apply Forall_delete|done].
  - apply newGame_after in Hafter as [->|[flash E]]; [done|].
    apply newGame_spec in E as (_ & _ & -> & -> & _). done.
  - pose proof Hafter as Hafter'.
    apply placePiece_cases in Hafter as [->|(p & s & Hacc & _)]; [done|].
    destruct (placePiece_after _ _ _ _ _ _ _ _ Hacc Hafter') as (_ & _ & _ & -> & -> & _).
    done.
  - apply moveBlocker_after in Hafter as [->|(f & t & _ & ->)]; done.
  - apply disconnect_after in Hafter as (_ & _ & _ & _ & _ & _ & _ & Hcases & Hs & _).
    apply Forall_app in Hok as [Hp Hsp]. apply Forall_app. split.
    + destruct Hcases as [(pIdx & _ & -> & _)|(_ & -> & _)]; [by apply Forall_delete|done].
    + rewrite Hs. case_match; [by apply Forall_delete|done].
Qed.

(** X24.  Whatever the sockets send, every player and every spectator of every
    room has a name of 1 to 24 characters, so the fall-back of
    [name || `P${i + 1}`] in the end-of-game messages is never taken: a
    player is named as stored at joining. *)
Theorem every_name_is_short_and_shown room :
  reachableBy anyEvent room ->
  names_ok room /\
  (forall i pl, players room !! i = Some pl -> displayName (players room) i = name pl).
Proof.
  intros Hr. assert (names_ok room) as Hok.
  { revert room Hr. apply (reachableBy_ind_inv anyEvent names_ok).
    - unfold names_ok. cbn. constructor.
    - intros r e r' Hok _. by apply handle_names_ok. }
  split; [done|]. intros i pl Hi. unfold displayName. rewrite Hi.
  unfold names_ok in Hok. apply Forall_app in Hok as [Hp _].
  eapply Forall_lookup_1 in Hp as [Hne _]; [|exact Hi].
  by rewrite bool_decide_eq_false_2.
Qed.

Lemma every_name_witness :
  names_ok twice /\ displayName (players twice) 1 = "Ann".
Proof.
  assert (reachableBy anyEvent twice) as Hr.
  { unfold twice.
    apply (reachableBy_play _ _ (JoinRoom "a" "Ann" false)); [|done].
    apply (reachableBy_play _ _ (JoinRoom "a" "Ann" false)); [|done].
    apply reach_new. }
  destruct (every_name_is_short_and_shown twice Hr) as [Hok Hshown].
  split; [exact Hok|]. apply (Hshown 1%nat (mkPlayer "a" "Ann")). vm_compute. reflexivity.
Defined.
(** ** What the moves do not read *)

Lemma place_started v room p r c s :
  place (set_started v room) p r c s = set_started v (place room p r c s).
Proof. reflexivity. Qed.

Lemma scorePlacement_started v room p r c :
  scorePlacement (set_started v room) p r c = set_started v (scorePlacement room p r c).
Proof.
  unfold scorePlacement.
  cbn [board scores highlights set_started set_scores set_highlights set_board].
  destruct (0 <? Elim.removed _);
    cbn [board scores highlights set_started set_scores set_highlights set_board];
    destruct (0 <? Tri.points _); reflexivity.
Qed.

Lemma conclude_started v room p :
  conclude (set_started v room) p = mapResult (set_started v) (conclude room p).
Proof.
  unfold conclude, firstOutOfStock, emitRoomStateOnce.
  cbn [scores settings players stock board turn highlights set_started set_gameOver].
  destruct (num_geb _ _); [reflexivity|].
  destruct (fst <$> list_find _ _); [|destruct (boardFull _)];
    try reflexivity; destruct (evaluateWinners _) as [|w [|w' ws]]; reflexivity.
Qed.

(** X25.  A placement and a blocker move do not read [started]: they do the
    same whether the room has started or not, and leave [started] as it
    is. *)
Theorem moves_do_not_read_started v room sock r c sym from to :
  placePiece (set_started v room) sock r c sym
    = mapResult (set_started v) (placePiece room sock r c sym) /\
  moveBlocker (set_started v room) sock from to
    = mapResult (set_started v) (moveBlocker room sock from to) /\
  (forall room', roomAfter room (placePiece room sock r c sym) = Some room' ->
     started room' = started room) /\
  (forall room', roomAfter room (moveBlocker room sock from to) = Some room' ->
     started room' = started room).
Proof.
  split_and!.
  - unfold placePiece. cbn [gameOver players turn board stock set_started].
    repeat (case_match; try reflexivity).
    by rewrite place_started, scorePlacement_started, conclude_started.
  - unfold moveBlocker. cbn [gameOver players turn board set_started].
    repeat (case_match; try reflexivity).
  - intros room' Hafter. pose proof Hafter as Hafter'.
    apply placePiece_cases in Hafter as [->|(p & s & Hacc & _)]; [done|].
    by destruct (placePiece_after _ _ _ _ _ _ _ _ Hacc Hafter') as (_ & _ & _ & _ & _ & _ & ->).
  - intros room' Hafter.
    apply moveBlocker_after in Hafter as [->|(f & t & _ & ->)]; done.
Qed.

(** ** The last symbol of each seat *)

Lemma placePiece_lastPlayed room sock r c sym p s room' :
  accepts room sock r c sym p s ->
  roomAfter room (placePiece room sock r c sym) = Some room' ->
  lastPlayed room' = <[p := s]> (lastPlayed room).
Proof.
  intros Hacc Hafter. rewrite (placePiece_accepts _ _ _ _ _ _ _ Hacc) in Hafter.
  pose proof (scorePlacement_frame (place room p r c s) p r c) as (_ & _ & _ & _ & Hlp & _).
  revert Hafter Hlp. generalize (scorePlacement (place room p r c s) p r c). intros scored.
  intros Hafter Hlp.
  assert (roomAfter scored (conclude scored p) = Some room') as Hafter'.
  { pose proof (conclude_not_Ignored scored p). by destruct (conclude scored p). }
  apply conclude_frame in Hafter' as (_ & _ & _ & -> & _). by rewrite Hlp.
Qed.

(** X26.  [lastPlayed] holds, for each seat, the symbol of its last accepted
    placement since the last new game: an accepted placement writes the
    symbol at the placing seat and leaves the other seats' entries, a
    [newGame] from a player or a spectator of the room empties the record,
    and every other event, a placement or a [newGame] that is ignored
    included, leaves it as it is. *)
Theorem lastPlayed_is_the_last_symbol room e room' :
  roomAfter room (handle room e) = Some room' ->
  (forall sock r c sym p s,
     e = PlacePiece sock r c sym -> accepts room sock r c sym p s ->
     lastPlayed room' = <[p := s]> (lastPlayed room) /\
     lastPlayed room' !! p = Some s /\
     forall q, q <> p -> lastPlayed room' !! q = lastPlayed room !! q) /\
  (forall rnd sock t b p,
     e = NewGame rnd sock t b p ->
     is_Some (findSocket sock (players room)) \/ is_Some (findSocket sock (spectators room)) ->
     lastPlayed room' = ∅) /\
  ((forall sock r c sym,
      e = PlacePiece sock r c sym -> ~ exists p s, accepts room sock r c sym p s) ->
   (forall rnd sock t b p,
      e = NewGame rnd sock t b p ->
      findSocket sock (players room) = None /\ findSocket sock (spectators room) = None) ->
   lastPlayed room' = lastPlayed room).
Proof.
  intros Hafter. split_and!.
  - intros sock r c sym p s -> Hacc. cbn [handle] in Hafter.
    rewrite (placePiece_lastPlayed _ _ _ _ _ _ _ _ Hacc Hafter).
    split_and!; [done|apply lookup_insert_eq|].
    intros q Hq. by rewrite lookup_insert_ne.
  - intros rnd sock t b p -> Hmem. cbn [handle] in Hafter.
    assert (bool_decide (is_Some (findSocket sock (players room)))
            || bool_decide (is_Some (findSocket sock (spectators room))) = true) as Hb.
    { apply orb_true_iff. destruct Hmem as [H|H]; [left|right]; by apply bool_decide_eq_true. }
    rewrite (newGame_Updated _ _ _ _ _ _ Hb) in Hafter. unfold emitRoomStateOnce in Hafter.
    by injection Hafter as <-.
  - intros Hplace Hnew.
    destruct e as [sock name sp|sock|rnd sock t b p|sock r c sym|sock from to|sock];
      cbn [handle] in Hafter.
    + destruct (joinRoom_Updated room sock name sp) as (room'' & E & _ & Hlp & _).
      rewrite E in Hafter. by injection Hafter as <-.
    + by apply leaveRoom_rest in Hafter as (_ & -> & _).
    + destruct (Hnew rnd sock t b p eq_refl) as [Hp Hs].
      unfold newGame in Hafter. rewrite Hp, Hs in Hafter.
      rewrite !bool_decide_eq_false_2 in Hafter by (by intros [? ?]).
      by injection Hafter as <-.
    + apply placePiece_cases in Hafter as [->|(p & s & Hacc & _)]; [done|].
      exfalso. apply (Hplace sock r c sym eq_refl). by exists p, s.
    + apply moveBlocker_after in Hafter as [->|(f & t & _ & ->)]; done.
    + by apply disconnect_after in Hafter as (_ & _ & _ & _ & _ & _ & -> & _).
Qed.

Lemma lastPlayed_witness :
  lastPlayed flank1 !! 0%nat = Some Rock /\ lastPlayed game2 !! 0%nat = None.
Proof.
  assert (roomAfter game2 (handle game2 (PlacePiece "a" 0 0 "R")) = Some flank1)
    as Hafter by (vm_compute; reflexivity).
  destruct (lastPlayed_is_the_last_symbol _ _ _ Hafter) as (Hplace & _).
  assert (accepts game2 "a" 0 0 "R" 0 Rock) as Hacc.
  { unfold accepts. split_and!; vm_compute; reflexivity. }
  destruct (Hplace "a" 0 0 "R" 0%nat Rock eq_refl Hacc) as (_ & H & _).
  split; [exact H|]. vm_compute. reflexivity.
Defined.

(** ** The symbols *)

(** X27.  [WEAK_TO] makes the three symbols beat each other in a cycle: no
    symbol defeats itself, each defeats exactly one and is defeated by
    exactly one, and never both ways.  So the symbol a placement can
    eliminate and the symbol that earns the opponent a misplacement award
    against it are always different. *)
Theorem symbols_beat_in_a_cycle :
  defeats Rock Scissors /\ defeats Scissors Paper /\ defeats Paper Rock /\
  (forall s, ~ defeats s s) /\
  (forall s t, defeats t s -> ~ defeats s t) /\
  (forall s t t', defeats t s -> defeats t' s -> t = t') /\
  (forall s s' t, defeats t s -> defeats t s' -> s = s') /\
  (forall s, WEAK_TO (WEAK_TO (WEAK_TO s)) = s) /\
  (forall b p s y q t,
     beaten b p s y = true -> cellAt b y.1 y.2 = Piece q t ->
     defeats s t /\ q <> p /\ t <> WEAK_TO s).
Proof.
  unfold defeats. split_and!; try done.
  - by intros [].
  - by intros [] [].
  - by intros [] [] [].
  - by intros [] [] [].
  - by intros [].
  - intros b p s y q t Hbt Hcell. unfold beaten in Hbt. rewrite Hcell in Hbt.
    apply andb_true_iff in Hbt as [_ [Hq Hs]%andb_true_iff].
    apply negb_true_iff, bool_decide_eq_false in Hq. apply bool_decide_eq_true in Hs.
    split_and!; [done|done|]. subst s. by destruct t.
Qed.

Lemma symbols_witness :
  defeats Rock Scissors /\ Scissors <> WEAK_TO Rock.
Proof.
  destruct symbols_beat_in_a_cycle as (H1 & _ & _ & _ & _ & _ & _ & _ & H).
  split; [exact H1|].
  exact (proj2 (proj2 (H (board pairReady) 0%nat Rock (0, 0) 1%nat Scissors
                         ltac:(vm_compute; reflexivity) ltac:(vm_compute; reflexivity)))).
Defined.

(** ** The winners in order *)

Lemma winnersFrom_ge i max arr w : w ∈ winnersFrom i max arr -> (i <= index w)%nat.
Proof. intros (k & n & _ & _ & ->)%winnersFrom_spec. cbn. lia. Qed.

Lemma winnersFrom_sorted i max arr a b w1 w2 :
  (a < b)%nat -> winnersFrom i max arr !! a = Some w1 -> winnersFrom i max arr !! b = Some w2 ->
  (index w1 < index w2)%nat.
Proof.
  revert i a b. induction arr as [|x arr IH]; intros i a b Hab H1 H2; cbn [winnersFrom] in *.
  { done. }
  destruct x as [n|]; [|by eapply IH]. destruct (num_eqb n max); [|by eapply IH].
  destruct a as [|a], b as [|b]; try lia.
  - cbn in H1, H2. injection H1 as <-. cbn [index].
    apply list_elem_of_lookup_2, winnersFrom_ge in H2. lia.
  - cbn in H1, H2. eapply (IH (S i) a b); [lia|done|done].
Qed.

Lemma num_eqb_eq a b : num_eqb a b = true -> a = b.
Proof. destruct a, b; cbn; try done. by intros ->%Z.eqb_eq. Qed.

(** X28.  [evaluateWinners] lists the winners by rising seat, each seat at most
    once, and all of them with the one score that is the maximum of the
    scores. *)
Theorem winners_come_in_seat_order arr :
  (forall a b w1 w2, (a < b)%nat ->
     evaluateWinners arr !! a = Some w1 -> evaluateWinners arr !! b = Some w2 ->
     (index w1 < index w2)%nat) /\
  NoDup (index <$> evaluateWinners arr) /\
  (forall w, w ∈ evaluateWinners arr -> score w = spreadMax arr /\
     (index w < length arr)%nat) /\
  (forall i n, arr !! i = Some (Some n) -> num_eqb n (spreadMax arr) = true ->
     mkWinner i (seatLabel i) n ∈ evaluateWinners arr).
Proof.
  unfold evaluateWinners. split_and!.
  - intros a b w1 w2. apply winnersFrom_sorted.
  - apply NoDup_alt. intros a b k Ha Hb. rewrite list_lookup_fmap in Ha, Hb.
    destruct (winnersFrom 0 (spreadMax arr) arr !! a) as [w1|] eqn:E1; [|done].
    destruct (winnersFrom 0 (spreadMax arr) arr !! b) as [w2|] eqn:E2; [|done].
    cbn in Ha, Hb. injection Ha as Ha. injection Hb as Hb.
    destruct (Nat.lt_trichotomy a b) as [Hlt|[?|Hgt]]; [|done|].
    + pose proof (winnersFrom_sorted _ _ _ _ _ _ _ Hlt E1 E2). lia.
    + pose proof (winnersFrom_sorted _ _ _ _ _ _ _ Hgt E2 E1). lia.
  - intros w (k & n & Hk & Heq & ->)%winnersFrom_spec. cbn.
    split; [by apply num_eqb_eq|]. by eapply lookup_lt_Some.
  - intros i n Hi Heq. apply winnersFrom_spec. by exists i, n.
Qed.
(** ** The highlight of a misplacement *)

(** X29.  In each direction, the misplacement pass flashes the window it awards:
    the first of the three windows that qualifies, tagged with the opponent
    who gets the point, not with the seat that placed.  A direction without
    a qualifying window adds neither award nor highlight. *)
Theorem misplacement_flashes_the_window_for_the_opponent b r c p s d out :
  d ∈ deltas ->
  (exists k win opp,
     Mis.windows r c d.1 d.2 !! k = Some win /\
     qualifies b r c p s win opp /\ opp <> p /\
     (forall j win' opp', (j < k)%nat -> Mis.windows r c d.1 d.2 !! j = Some win' ->
        ~ qualifies b r c p s win' opp') /\
     Mis.direction b r c p (WEAK_TO s) out d =
       Mis.mkOut (Mis.awarded out ++ [Mis.mkAward opp 1])
         (Mis.highlights out ++ [mkHighlight win opp])) \/
  ((forall k win opp, Mis.windows r c d.1 d.2 !! k = Some win ->
      ~ qualifies b r c p s win opp) /\
   Mis.direction b r c p (WEAK_TO s) out d = out).
Proof.
  intros Hd%delta_nonzero. unfold Mis.direction.
  assert (forall k win opp, Mis.windows r c d.1 d.2 !! k = Some win ->
            Mis.windowAward b r c p (WEAK_TO s) win = Some opp <->
            qualifies b r c p s win opp) as Hq.
  { intros k win opp Hk.
    destruct (window_shape r c d k win Hd Hk) as (x1 & x2 & x3 & -> & Hshape).
    by apply windowAward_spec. }
  destruct (scanWindows_first b r c p (WEAK_TO s) (Mis.windows r c d.1 d.2) out)
    as [(k & win & opp & Hk & Hwin & Hmin & ->)|[Hnone ->]].
  - left. exists k, win, opp. pose proof (proj1 (Hq k win opp Hk) Hwin) as Hqual.
    split_and!; [done|done|by destruct Hqual as (_ & _ & ? & _)| |done].
    intros j win' opp' Hj Hjw Hqual'. apply (Hq j) in Hqual'; [|done].
    rewrite (Hmin j win' Hj Hjw) in Hqual'. done.
  - right. split; [|done]. intros k win opp Hk Hqual. apply (Hq k) in Hqual; [|done].
    rewrite (Hnone k win Hk) in Hqual. done.
Qed.

Lemma misplacement_flashes_witness :
  Mis.direction (board misplaced) 0 1 0 (WEAK_TO Rock) (Mis.mkOut [] []) (0, 1) =
    Mis.mkOut [Mis.mkAward 1 1] [mkHighlight [(0, 0); (0, 1); (0, 2)] 1].
Proof.
  assert ((0, 1) ∈ deltas) as Hd by (unfold deltas; repeat constructor).
  destruct (misplacement_flashes_the_window_for_the_opponent (board misplaced) 0 1 0 Rock
              (0, 1) (Mis.mkOut [] []) Hd)
    as [(k & win & opp & _ & _ & _ & _ & H)|[_ H]].
  - rewrite H. vm_compute in H. injection H as <- <-. reflexivity.
  - exfalso. vm_compute in H. discriminate H.
Defined.
(** ** The scores after a placement, entry by entry *)

Lemma arraySet_lookup_new arr i v : arraySet arr i v !! i = Some (Some v).
Proof.
  unfold arraySet. case_decide as Hlt.
  - by apply list_lookup_insert_eq.
  - rewrite lookup_app_r by lia. rewrite lookup_app_r by (rewrite length_replicate; lia).
    rewrite length_replicate. by rewrite Nat.sub_diag.
Qed.

Lemma arraySet_lookup_undef arr i j v :
  i <> j -> (arr !! i = None \/ arr !! i = Some None) ->
  arraySet arr j v !! i = None \/ arraySet arr j v !! i = Some None.
Proof.
  intros Hne Hi. unfold arraySet. case_decide as Hlt.
  - by rewrite list_lookup_insert_ne.
  - destruct (decide (i < length arr)%nat) as [Hi'|Hi'].
    + by rewrite lookup_app_l.
    + rewrite lookup_app_r by lia.
      destruct (decide (i - length arr < j - length arr)%nat) as [Hin|Hout].
      * right. rewrite lookup_app_l by (by rewrite length_replicate).
        by apply lookup_replicate_2.
      * left. apply lookup_ge_None_2. rewrite length_app, length_replicate. cbn. lia.
Qed.

Lemma awardsTo_cons i a awards :
  awardsTo i (a :: awards) = (if decide (Mis.player a = i) then 1 else 0) + awardsTo i awards.
Proof.
  unfold awardsTo. rewrite filter_cons. case_decide; cbn [length]; lia.
Qed.

Lemma awardsTo_nonneg i awards : 0 <= awardsTo i awards.
Proof. unfold awardsTo. lia. Qed.

Lemma award_lookup_int arr a i z :
  Mis.points a = 1 -> arr !! i = Some (Some (Int z)) ->
  award arr a !! i = Some (Some (Int (z + if decide (Mis.player a = i) then 1 else 0))).
Proof.
  intros Hpts Hi. unfold award. case_decide as Hp.
  - rewrite Hp, arraySet_lookup_new. unfold scoreOr0. rewrite Hi, Hpts. reflexivity.
  - rewrite (arraySet_lookup_ne _ _ _ _ _ Hi) by done. do 3 f_equal. lia.
Qed.

Lemma awards_lookup_int arr awards i z :
  Forall (fun a => Mis.points a = 1) awards -> arr !! i = Some (Some (Int z)) ->
  foldl award arr awards !! i = Some (Some (Int (z + awardsTo i awards))).
Proof.
  intros Hall. revert arr z. induction Hall as [|a awards Ha Hall IH]; intros arr z Hi.
  { cbn [foldl]. rewrite Hi. do 3 f_equal. unfold awardsTo. cbn. lia. }
  cbn [foldl]. rewrite (IH _ _ (award_lookup_int arr a i z Ha Hi)), awardsTo_cons.
  do 3 f_equal. lia.
Qed.

Lemma awards_lookup_undef arr awards i :
  Forall (fun a => Mis.points a = 1) awards ->
  (arr !! i = None \/ arr !! i = Some None) ->
  0 < awardsTo i awards ->
  foldl award arr awards !! i = Some (Some (Int (awardsTo i awards))).
Proof.
  intros Hall. revert arr. induction Hall as [|a awards Ha Hall IH]; intros arr Hi Hpos.
  { unfold awardsTo in Hpos. cbn in Hpos. lia. }
  cbn [foldl]. rewrite awardsTo_cons in Hpos |- *. case_decide as Hp.
  - assert (award arr a !! i = Some (Some (Int 1))) as H1.
    { unfold award. rewrite Hp, arraySet_lookup_new. unfold scoreOr0.
      rewrite Ha. by destruct Hi as [-> | ->]. }
    by rewrite (awards_lookup_int _ _ _ _ Hall H1).
  - rewrite IH; [done| |lia]. unfold award. apply arraySet_lookup_undef; [done|done].
Qed.

Lemma credit_lookup_int p k arr i z :
  0 <= k -> arr !! i = Some (Some (Int z)) ->
  credit p k arr !! i = Some (Some (Int (z + if decide (i = p) then k else 0))).
Proof.
  intros Hk Hi. unfold credit. destruct (0 <? k) eqn:E.
  - unfold addScore. case_decide as Hp.
    + subst i. rewrite arraySet_lookup_new. unfold scoreNum. by rewrite Hi.
    + rewrite (arraySet_lookup_ne _ _ _ _ _ Hi) by done. do 3 f_equal. lia.
  - apply Z.ltb_ge in E. rewrite Hi. do 3 f_equal. case_decide; lia.
Qed.

(** No misplacement award goes to the seat that placed the piece. *)
Lemma awards_not_to_the_placer b r c p s :
  cellAt b r c = Piece p s ->
  awardsTo p (Mis.awarded (Mis.scoreMisplacement b r c)) = 0.
Proof.
  intros Hcell. rewrite (scoreMisplacement_awarded b r c p s Hcell).
  unfold awardsTo.
  assert (filter (fun a => Mis.player a = p) (d ← deltas; directionAward b r c p s d) = [])
    as ->; [|done].
  generalize (d ← deltas; directionAward b r c p s d),
    (fun a => proj1 (list_elem_of_bind (fun d => directionAward b r c p s d) a deltas)).
  intros l Hl. induction l as [|a l IH]; [done|].
  rewrite filter_cons, decide_False.
  - apply IH. intros a' Ha'. apply Hl. by right.
  - destruct (Hl a) as (d & Ha & Hd); [by left|].
    apply (directionAward_spec b r c p s d (delta_nonzero d Hd)) in Ha
      as (_ & k & win & _ & (_ & _ & Hne & _) & _).
    done.
Qed.

(** What an accepted placement does to each score that it reads: the
    placing seat gains the pieces it removed and its rows of three, every
    other seat the misplacement awards that name it. *)
Lemma placePiece_scores room sock r c sym p s room' :
  board_ok (board room) ->
  accepts room sock r c sym p s ->
  roomAfter room (placePiece room sock r c sym) = Some room' ->
  let b := setCell (board room) r c (Piece p s) in
  let awards := Mis.awarded (Mis.scoreMisplacement b r c) in
  let removed := Z.of_nat (length (eliminated b p s r c)) in
  let bonus := sumZ (directionPoints (board room') p s r c <$> deltas) in
  (forall z, scores room !! p = Some (Some (Int z)) ->
     scores room' !! p = Some (Some (Int (z + removed + bonus)))) /\
  (forall i z, i <> p -> scores room !! i = Some (Some (Int z)) ->
     scores room' !! i = Some (Some (Int (z + awardsTo i awards)))) /\
  (forall i, i <> p -> scores room !! i = None \/ scores room !! i = Some None ->
     0 < awardsTo i awards ->
     scores room' !! i = Some (Some (Int (awardsTo i awards)))).
Proof.
  intros Hok Hacc Hafter b awards removed bonus.
  destruct (placePiece_after _ _ _ _ _ _ _ _ Hacc Hafter) as (Hb & Hsc & _).
  fold b in Hb, Hsc. fold awards in Hsc.
  pose proof Hacc as (_ & _ & _ & _ & Hin & _).
  assert (board_ok b) as Hbok by by apply setCell_ok.
  assert (cellAt b r c = Piece p s) as Hcell by by apply cellAt_setCell_eq.
  destruct (resolve_spec b r c p p s Hbok Hcell) as (_ & _ & Hrem).
  cbv zeta in Hrem. rewrite Hrem in Hsc. fold removed in Hsc. rewrite <- Hb in Hsc.
  assert (cellAt (board room') r c = Piece p s) as Hcell'.
  { rewrite Hb. by apply placed_piece_stays. }
  rewrite (scoreThreeInRow_points _ _ _ _ s _ Hcell') in Hsc. fold bonus in Hsc.
  assert (0 <= bonus) as Hbonus.
  { subst bonus. unfold deltas. cbn [fmap list_fmap sumZ foldr].
    pose proof (directionPoints_01 (board room') p s r c (0, 1)).
    pose proof (directionPoints_01 (board room') p s r c (1, 0)).
    pose proof (directionPoints_01 (board room') p s r c (1, 1)).
    pose proof (directionPoints_01 (board room') p s r c (1, -1)). lia. }
  assert (0 <= removed) as Hremoved by (subst removed; lia).
  pose proof (scoreMisplacement_points b r c) as Hpts. fold awards in Hpts.
  pose proof (awards_not_to_the_placer b r c p s Hcell) as Hnone. fold awards in Hnone.
  clearbody bonus removed awards. rewrite Hsc. clear Hsc Hrem Hb.
  split_and!.
  - intros z Hz.
    pose proof (awards_lookup_int _ _ _ _ Hpts Hz) as H1. rewrite Hnone in H1.
    pose proof (credit_lookup_int p removed _ _ _ Hremoved H1) as H2.
    rewrite decide_True in H2 by done.
    rewrite (credit_lookup_int p bonus _ _ _ Hbonus H2), decide_True by done.
    do 3 f_equal. lia.
  - intros i z Hne Hz.
    pose proof (awards_lookup_int _ _ _ _ Hpts Hz) as H1.
    pose proof (credit_lookup_int p removed _ _ _ Hremoved H1) as H2.
    rewrite decide_False in H2 by done.
    rewrite (credit_lookup_int p bonus _ _ _ Hbonus H2), decide_False by done.
    do 3 f_equal. lia.
  - intros i Hne Hi Hpos.
    pose proof (awards_lookup_undef _ _ _ Hpts Hi Hpos) as H1.
    pose proof (credit_lookup_int p removed _ _ _ Hremoved H1) as H2.
    rewrite decide_False in H2 by done.
    rewrite (credit_lookup_int p bonus _ _ _ Hbonus H2), decide_False by done.
    do 3 f_equal. lia.
Qed.
(** ** The points of a placement *)

(** C1 (amended).  For every successful placement at [(r, c)], per
    direction the two cells just outside the first adjacent pair of the run
    that contains [(r, c)] are the candidates (none for a run of one cell);
    a candidate that is on the board and holds a piece of another owner,
    not a blocker, whose symbol the placed symbol defeats is emptied and
    credited once to the placing player, every other cell keeps its content;
    there are at most 2 eliminations per direction and between 0 and 8 in
    all, and no piece of the placing player is removed.  The credit is one
    point for each piece removed: a placing seat with the integer score [z]
    ends with [z] plus the number of pieces removed plus its rows of three,
    and the eliminations add nothing to any other seat, whose score grows
    by its misplacement awards alone. *)
Theorem C1_elimination_outside_the_pair room sock r c sym flash room' :
  board_ok (board room) ->
  placePiece room sock r c sym = Updated flash room' ->
  exists p s,
    findSocket sock (players room) = Some p /\ symOfKey sym = Some s /\
    let b := setCell (board room) r c (Piece p s) in
    let removed := Z.of_nat (length (eliminated b p s r c)) in
    (forall y, inBounds y.1 y.2 = true ->
       cellAt (board room') y.1 y.2 =
         if bool_decide (y ∈ eliminated b p s r c) then Empty else cellAt b y.1 y.2) /\
    (forall y, y ∈ eliminated b p s r c <->
       beaten b p s y = true /\ exists d, d ∈ deltas /\ y ∈ candidates b p s r c d) /\
    scores room' =
      credit p (Tri.points (Tri.scoreThreeInRow (board room') r c p))
        (credit p removed
           (foldl award (scores room) (Mis.awarded (Mis.scoreMisplacement b r c)))) /\
    (forall d, (length (filter (fun x => beaten b p s x = true)
                          (candidates b p s r c d)) <= 2)%nat) /\
    0 <= removed <= 8 /\
    (forall y t, inBounds y.1 y.2 = true -> cellAt b y.1 y.2 = Piece p t ->
       cellAt (board room') y.1 y.2 = Piece p t) /\
    (forall z, scores room !! p = Some (Some (Int z)) ->
       scores room' !! p =
         Some (Some (Int (z + removed
                          + sumZ (directionPoints (board room') p s r c <$> deltas))))) /\
    (forall i z, i <> p -> scores room !! i = Some (Some (Int z)) ->
       scores room' !! i =
         Some (Some (Int (z + awardsTo i (Mis.awarded (Mis.scoreMisplacement b r c)))))).
Proof.
  intros Hok Hplace.
  destruct (placePiece_Updated _ _ _ _ _ _ _ Hplace) as (p & s & Hacc & Hafter).
  exists p, s.
  pose proof Hacc as (_ & Hsock & _ & Hsym & Hin & _).
  split; [done|]. split; [done|]. intros b removed.
  destruct (placePiece_after _ _ _ _ _ _ _ _ Hacc Hafter) as (Hb & Hsc & _).
  fold b in Hb, Hsc.
  assert (board_ok b) as Hbok by by apply setCell_ok.
  assert (cellAt b r c = Piece p s) as Hcell by by apply cellAt_setCell_eq.
  destruct (resolve_spec b r c p p s Hbok Hcell) as (_ & Hcells & Hrem).
  assert (forall y, inBounds y.1 y.2 = true ->
            cellAt (board room') y.1 y.2 =
              if bool_decide (y ∈ eliminated b p s r c) then Empty else cellAt b y.1 y.2)
    as Hchar.
  { intros y Hy. rewrite Hb. by apply Hcells. }
  split_and!.
  - exact Hchar.
  - intros y. unfold eliminated. rewrite list_elem_of_filter, list_elem_of_bind.
    split; intros (? & d & ? & ?); eauto.
  - rewrite Hsc, Hrem, <- Hb. done.
  - intros d. etrans; [apply length_filter|apply candidates_length].
  - lia.
  - subst removed. unfold eliminated.
    pose proof (length_filter (fun x => beaten b p s x = true)
                  (d ← deltas; candidates b p s r c d)).
    pose proof (all_candidates_length b p s r c). lia.
  - intros y t Hy Hown. rewrite Hchar by done.
    rewrite bool_decide_eq_false_2; [done|].
    unfold eliminated. intros [Hbt _]%list_elem_of_filter.
    rewrite (beaten_not_own b p s t y Hown) in Hbt. done.
  - exact (proj1 (placePiece_scores _ _ _ _ _ _ _ _ Hok Hacc Hafter)).
  - exact (proj1 (proj2 (placePiece_scores _ _ _ _ _ _ _ _ Hok Hacc Hafter))).
Qed.


Lemma C1_witness :
  placePiece pairReady "a" 0 2 "R" = Updated [mkHighlight [(0, 0)] 0%nat] pairStruck /\
  cellAt (board pairReady) 0 0 = Piece 1 Scissors /\
  cellAt (board pairStruck) 0 0 = Empty /\
  scores pairStruck = [Some (Int 1); Some (Int 0)] /\
  scores pairReady !! 0%nat = Some (Some (Int 0)) /\
  scores pairStruck !! 0%nat = Some (Some (Int (0 + 1 + 0))).
Proof.
  assert (placePiece pairReady "a" 0 2 "R" = Updated [mkHighlight [(0, 0)] 0%nat] pairStruck)
    as Hplace by (vm_compute; reflexivity).
  destruct (C1_elimination_outside_the_pair _ _ _ _ _ _ _ pairReady_ok Hplace)
    as (p & s & Hp & Hs & Hcells & _ & Hscores & _ & _ & _ & Hown & _).
  vm_compute in Hp. injection Hp as <-. vm_compute in Hs. injection Hs as <-.
  assert (scores pairReady !! 0%nat = Some (Some (Int 0))) as Hbefore
    by (vm_compute; reflexivity).
  split; [exact Hplace|]. split; [vm_compute; reflexivity|]. split_and!.
  - pose proof (Hcells (0, 0) eq_refl) as H0. cbn [fst snd] in H0.
    rewrite H0. vm_compute. reflexivity.
  - rewrite Hscores. vm_compute. reflexivity.
  - exact Hbefore.
  - rewrite (Hown 0 Hbefore). vm_compute. reflexivity.
Defined.
(** C3.  For every successful placement the misplacement bonus is worked
    out first, on the board as the placement left it, one direction at a
    time: a direction awards at most one point, to the opponent of the first
    of its three windows (ending at, centred on, starting at [(r, c)]) that
    qualifies, that is whose three cells are on the board and hold pieces,
    not blockers, and whose two other cells hold the symbol that defeats the
    placed one and belong to one opponent.  So at most 4 points are awarded,
    one each, and none to the placing player.  The point is added to the
    score of the opponent: a seat other than the placing one with the
    integer score [z] ends with [z] plus the number of awards that name it,
    a seat without a score that is named ends with that number, and the
    placing seat gains only the pieces it removed and its rows of three. *)
Theorem C3_misplacement_first_window room sock r c sym flash room' :
  board_ok (board room) ->
  placePiece room sock r c sym = Updated flash room' ->
  exists p s,
    findSocket sock (players room) = Some p /\ symOfKey sym = Some s /\
    let b := setCell (board room) r c (Piece p s) in
    let awards := Mis.awarded (Mis.scoreMisplacement b r c) in
    awards = (d ← deltas; directionAward b r c p s d) /\
    (forall d, d ∈ deltas ->
       (length (directionAward b r c p s d) <= 1)%nat /\
       forall a, a ∈ directionAward b r c p s d <->
         Mis.points a = 1 /\
         exists k win,
           Mis.windows r c d.1 d.2 !! k = Some win /\
           qualifies b r c p s win (Mis.player a) /\
           forall j win' opp', (j < k)%nat -> Mis.windows r c d.1 d.2 !! j = Some win' ->
             ~ qualifies b r c p s win' opp') /\
    (length awards <= 4)%nat /\
    (forall a, a ∈ awards -> Mis.points a = 1 /\ Mis.player a <> p) /\
    scores room' =
      credit p (Tri.points (Tri.scoreThreeInRow (board room') r c p))
        (credit p (Elim.removed (Elim.resolveEliminationsFrom b r c p))
           (foldl award (scores room) awards)) /\
    awardsTo p awards = 0 /\
    (forall i z, i <> p -> scores room !! i = Some (Some (Int z)) ->
       scores room' !! i = Some (Some (Int (z + awardsTo i awards)))) /\
    (forall i, i <> p -> scores room !! i = None \/ scores room !! i = Some None ->
       0 < awardsTo i awards ->
       scores room' !! i = Some (Some (Int (awardsTo i awards)))) /\
    (forall z, scores room !! p = Some (Some (Int z)) ->
       scores room' !! p =
         Some (Some (Int (z + Z.of_nat (length (eliminated b p s r c))
                          + sumZ (directionPoints (board room') p s r c <$> deltas))))).
Proof.
  intros Hok Hplace.
  destruct (placePiece_Updated _ _ _ _ _ _ _ Hplace) as (p & s & Hacc & Hafter).
  exists p, s.
  pose proof Hacc as (_ & Hsock & _ & Hsym & Hin & _).
  split; [done|]. split; [done|]. intros b awards.
  destruct (placePiece_after _ _ _ _ _ _ _ _ Hacc Hafter) as (Hb & Hsc & _).
  fold b in Hb, Hsc.
  assert (cellAt b r c = Piece p s) as Hcell by by apply cellAt_setCell_eq.
  assert (awards = (d ← deltas; directionAward b r c p s d)) as Hawards
    by by apply scoreMisplacement_awarded.
  assert (forall d, d ∈ deltas ->
            (length (directionAward b r c p s d) <= 1)%nat /\
            forall a, a ∈ directionAward b r c p s d <->
              Mis.points a = 1 /\
              exists k win,
                Mis.windows r c d.1 d.2 !! k = Some win /\
                qualifies b r c p s win (Mis.player a) /\
                forall j win' opp', (j < k)%nat ->
                  Mis.windows r c d.1 d.2 !! j = Some win' ->
                  ~ qualifies b r c p s win' opp') as Hdir.
  { intros d Hd. apply directionAward_spec. by apply delta_nonzero. }
  split_and!.
  - exact Hawards.
  - exact Hdir.
  - rewrite Hawards. unfold deltas. cbn [mbind list_bind]. rewrite !length_app.
    cbn [length].
    pose proof (proj1 (Hdir (0, 1) ltac:(unfold deltas; repeat constructor))).
    pose proof (proj1 (Hdir (1, 0) ltac:(unfold deltas; repeat constructor))).
    pose proof (proj1 (Hdir (1, 1) ltac:(unfold deltas; repeat constructor))).
    pose proof (proj1 (Hdir (1, -1) ltac:(unfold deltas; repeat constructor))).
    lia.
  - intros a Ha. rewrite Hawards in Ha. apply list_elem_of_bind in Ha as (d & Ha & Hd).
    apply (Hdir d Hd) in Ha as (Hpts & k & win & _ & (_ & _ & Hne & _) & _). done.
  - rewrite Hsc, <- Hb. reflexivity.
  - by apply (awards_not_to_the_placer b r c p s).
  - exact (proj1 (proj2 (placePiece_scores _ _ _ _ _ _ _ _ Hok Hacc Hafter))).
  - exact (proj2 (proj2 (placePiece_scores _ _ _ _ _ _ _ _ Hok Hacc Hafter))).
  - exact (proj1 (placePiece_scores _ _ _ _ _ _ _ _ Hok Hacc Hafter)).
Qed.

Lemma C3_witness :
  placePiece flanked "a" 0 1 "R" =
    Updated [mkHighlight [(0, 0); (0, 1); (0, 2)] 1%nat] misplaced /\
  scores flanked = [Some (Int 0); Some (Int 0)] /\
  scores misplaced = [Some (Int 0); Some (Int 1)] /\
  scores misplaced !! 1%nat = Some (Some (Int (0 + 1))).
Proof.
  assert (board_ok (board flanked)) as Hok.
  { split; [vm_compute; reflexivity|]. vm_compute. repeat constructor. }
  assert (placePiece flanked "a" 0 1 "R" =
            Updated [mkHighlight [(0, 0); (0, 1); (0, 2)] 1%nat] misplaced)
    as Hplace by (vm_compute; reflexivity).
  destruct (C3_misplacement_first_window _ _ _ _ _ _ _ Hok Hplace)
    as (p & s & Hp & Hs & _ & _ & _ & _ & Hscores & _ & Hopp & _).
  vm_compute in Hp. injection Hp as <-. vm_compute in Hs. injection Hs as <-.
  split; [exact Hplace|]. split; [vm_compute; reflexivity|]. split.
  - rewrite Hscores. vm_compute. reflexivity.
  - rewrite (Hopp 1%nat 0); [vm_compute; reflexivity|lia|vm_compute; reflexivity].
Defined.
(** C4.  For every successful placement, on the board that misplacement
    and elimination left, each direction in which the maximal run through
    [(r, c)] of cells with the owner and symbol of the new piece has 3 cells
    or more is worth exactly 1 point to the placing player, however long the
    run, and the other directions nothing: at most 4 points in all.  The
    points are added to the score of the placing seat: from the integer
    score [z] it goes to [z] plus the pieces removed plus this bonus. *)
Theorem C4_one_point_per_direction room sock r c sym flash room' :
  board_ok (board room) ->
  placePiece room sock r c sym = Updated flash room' ->
  exists p s,
    findSocket sock (players room) = Some p /\ symOfKey sym = Some s /\
    let b := setCell (board room) r c (Piece p s) in
    let bonus := Tri.points (Tri.scoreThreeInRow (board room') r c p) in
    board room' = Elim.board (Elim.resolveEliminationsFrom b r c p) /\
    (forall d, d ∈ deltas -> exists kb kf, maximalRun (board room') (p, s) r c d kb kf) /\
    (forall d kb kf, d ∈ deltas -> maximalRun (board room') (p, s) r c d kb kf ->
       directionPoints (board room') p s r c d = if 3 <=? 1 + kb + kf then 1 else 0) /\
    bonus = sumZ (directionPoints (board room') p s r c <$> deltas) /\
    0 <= bonus <= 4 /\
    scores room' =
      credit p bonus
        (credit p (Elim.removed (Elim.resolveEliminationsFrom b r c p))
           (foldl award (scores room) (Mis.awarded (Mis.scoreMisplacement b r c)))) /\
    (forall z, scores room !! p = Some (Some (Int z)) ->
       scores room' !! p =
         Some (Some (Int (z + Z.of_nat (length (eliminated b p s r c)) + bonus)))).
Proof.
  intros Hok Hplace.
  destruct (placePiece_Updated _ _ _ _ _ _ _ Hplace) as (p & s & Hacc & Hafter).
  exists p, s.
  pose proof Hacc as (_ & Hsock & _ & Hsym & Hin & _).
  split; [done|]. split; [done|]. intros b bonus.
  destruct (placePiece_after _ _ _ _ _ _ _ _ Hacc Hafter) as (Hb & Hsc & _).
  fold b in Hb, Hsc.
  assert (board_ok b) as Hbok by by apply setCell_ok.
  assert (cellAt b r c = Piece p s) as Hcell by by apply cellAt_setCell_eq.
  assert (cellAt (board room') r c = Piece p s) as Hcell'.
  { rewrite Hb. by apply placed_piece_stays. }
  assert (bonus = sumZ (directionPoints (board room') p s r c <$> deltas)) as Hbonus
    by by apply scoreThreeInRow_points.
  split_and!.
  - exact Hb.
  - intros d Hd. destruct (tri_segment_run (board room') p s r c d Hd Hin)
      as (kb & kf & Hrun & _). eauto.
  - intros d kb kf Hd Hrun. by apply directionPoints_run.
  - exact Hbonus.
  - rewrite Hbonus. unfold deltas. cbn [fmap list_fmap sumZ foldr].
    pose proof (directionPoints_01 (board room') p s r c (0, 1)).
    pose proof (directionPoints_01 (board room') p s r c (1, 0)).
    pose proof (directionPoints_01 (board room') p s r c (1, 1)).
    pose proof (directionPoints_01 (board room') p s r c (1, -1)). lia.
  - rewrite Hbonus. unfold deltas. cbn [fmap list_fmap sumZ foldr].
    pose proof (directionPoints_01 (board room') p s r c (0, 1)).
    pose proof (directionPoints_01 (board room') p s r c (1, 0)).
    pose proof (directionPoints_01 (board room') p s r c (1, 1)).
    pose proof (directionPoints_01 (board room') p s r c (1, -1)). lia.
  - rewrite Hsc, <- Hb. reflexivity.
  - rewrite Hbonus. exact (proj1 (placePiece_scores _ _ _ _ _ _ _ _ Hok Hacc Hafter)).
Qed.

(** The third Rock of a row of three on an otherwise empty board: one
    point, not three. *)
Lemma C4_witness :
  placePiece twoInRow "a" 0 2 "R" =
    Updated [mkHighlight [(0, 0); (0, 1); (0, 2)] 0%nat] threeInRow /\
  scores twoInRow = [Some (Int 0)] /\
  scores threeInRow = [Some (Int 1)] /\
  scores threeInRow !! 0%nat = Some (Some (Int (0 + 0 + 1))).
Proof.
  assert (board_ok (board twoInRow)) as Hok.
  { split; [vm_compute; reflexivity|]. vm_compute. repeat constructor. }
  assert (placePiece twoInRow "a" 0 2 "R" =
            Updated [mkHighlight [(0, 0); (0, 1); (0, 2)] 0%nat] threeInRow)
    as Hplace by (vm_compute; reflexivity).
  destruct (C4_one_point_per_direction _ _ _ _ _ _ _ Hok Hplace)
    as (p & s & Hp & Hs & _ & _ & _ & _ & _ & Hscores & Hgain).
  vm_compute in Hp. injection Hp as <-. vm_compute in Hs. injection Hs as <-.
  split; [exact Hplace|]. split; [vm_compute; reflexivity|]. split.
  - rewrite Hscores. vm_compute. reflexivity.
  - rewrite (Hgain 0); [vm_compute; reflexivity|vm_compute; reflexivity].
Defined.
(** ** The scores of the seats *)

Lemma scores_ok_delete room room' pIdx :
  scores_ok room -> (pIdx < length (players room))%nat ->
  players room' = delete pIdx (players room) ->
  scores room' = delete pIdx (scores room) ->
  scores_ok room'.
Proof.
  unfold scores_ok, hasScore. intros Hok Hp Hpl Hsc i Hi. rewrite Hpl in Hi. rewrite Hsc.
  rewrite length_delete in Hi by (apply lookup_lt_is_Some; lia).
  destruct (decide (i < pIdx)%nat) as [Hlt|Hge].
  - rewrite list_lookup_delete_lt by done. apply Hok. lia.
  - rewrite list_lookup_delete_ge by lia. apply Hok. lia.
Qed.

Lemma scores_ok_fresh room n :
  length (players room) = n -> scores room = freshScores n -> scores_ok room.
Proof.
  unfold scores_ok, hasScore, freshScores. intros Hn -> i Hi. exists 0.
  apply lookup_replicate_2. lia.
Qed.

Lemma handle_scores_ok room e room' :
  scores_ok room -> roomAfter room (handle room e) = Some room' -> scores_ok room'.
Proof.
  intros Hok.
  destruct e as [sock name sp|sock|rnd sock t b p|sock r c sym|sock from to|sock];
    cbn [handle]; intros Hafter.
  - apply joinRoom_after in Hafter
      as (_ & _ & _ & [(_ & _ & _ & Hpl & _ & Hsc & _)|(_ & Hpl & _ & Hsc & _)]).
    + apply (scores_ok_fresh _ (S (length (players room)))); [|done].
      rewrite Hpl, length_app. cbn [length]. lia.
    + unfold scores_ok, hasScore in *. by rewrite Hpl, Hsc.
  - apply leaveRoom_after in Hafter
      as (_ & _ & [(pIdx & Hp%findSocket_lt & Hpl & Hsc & _)|(_ & Hpl & Hsc & _)] & _).
    + by eapply scores_ok_delete.
    + unfold scores_ok, hasScore in *. by rewrite Hpl, Hsc.
  - apply newGame_after in Hafter as [->|[flash E]]; [done|].
    apply newGame_spec in E as (_ & _ & Hpl & _ & _ & _ & _ & _ & _ & _ & Hsc & _).
    apply (scores_ok_fresh _ (length (players room))); [by rewrite Hpl|done].
  - pose proof Hafter as Hafter'.
    apply placePiece_cases in Hafter as [->|(p & s & Hacc & _)]; [done|].
    destruct (placePiece_after _ _ _ _ _ _ _ _ Hacc Hafter') as (_ & Hsc & _ & Hpl & _).
    unfold scores_ok, hasScore in *. rewrite Hpl, Hsc. intros i Hi.
    destruct (Hok i Hi) as (z & Hz).
    destruct (awards_grow (scores room)
                (Mis.awarded (Mis.scoreMisplacement
                                (setCell (board room) r c (Piece p s)) r c)) i z)
      as (z1 & H1 & _); [|done|].
    { eapply Forall_impl; [apply scoreMisplacement_points|]. intros a Ha. cbn beta in Ha. lia. }
    destruct (credit_grows p
                (Elim.removed (Elim.resolveEliminationsFrom
                                 (setCell (board room) r c (Piece p s)) r c p)) _ i z1 H1)
      as (z2 & H2 & _).
    destruct (credit_grows p
                (Tri.points
                   (Tri.scoreThreeInRow
                      (Elim.board (Elim.resolveEliminationsFrom
                                     (setCell (board room) r c (Piece p s)) r c p)) r c p))
                _ i z2 H2) as (z3 & H3 & _).
    by exists z3.
  - apply moveBlocker_after in Hafter as [->|(f & t & _ & ->)]; done.
  - apply disconnect_after in Hafter
      as (_ & _ & _ & _ & _ & _ & _ &
          [(pIdx & Hp%findSocket_lt & Hpl & Hsc & _)|(_ & Hpl & Hsc & _)] & _).
    + by eapply scores_ok_delete.
    + unfold scores_ok, hasScore in *. by rewrite Hpl, Hsc.
Qed.

(** X30.  Whatever the sockets send, every seat of a room has an integer score:
    the entries that are missing or not a number, which a misplacement
    award to a seat number of the past can make, lie behind the seats.  So
    the seat that places a piece always has a score the placement adds to. *)
Theorem every_seat_has_an_integer_score room :
  reachableBy anyEvent room -> scores_ok room.
Proof.
  revert room. apply (reachableBy_ind_inv anyEvent scores_ok).
  - intros i Hi. cbn in Hi. lia.
  - intros r e r' Hok _. by apply handle_scores_ok.
Qed.

Lemma every_seat_has_an_integer_score_witness :
  exists z, hasScore lastTile 1 z.
Proof.
  apply (every_seat_has_an_integer_score lastTile lastTile_reachable).
  vm_compute. lia.
Defined.
(** ** The end of a game that players have left *)

Lemma alone_reachable : reachableBy anyEvent alone.
Proof.
  unfold alone, trio. cbn [foldl].
  repeat (apply reachableBy_play; [|exact I]). apply reach_new.
Qed.

(** C2.  A terminal transition without a result.  Ann, Bob and Cat play,
    then Bob and Cat leave.  Ann's Rock between Cat's two Papers has earned
    a point for the seat number the Papers carry, which is past the one
    seat left and made a hole in the scores.  Ann now places her last tile:
    the checks pass and the piece is on the board, her stock sums to 0, so
    the game is over and [gameOver] is set; but [evaluateWinners] finds
    nobody, reading [winners[0].score] throws, and the message is still the
    one of the last leave: no result is set and no state is sent. *)
Theorem C2_last_tile_throws_without_a_result :
  reachableBy anyEvent alone /\
  players alone = [mkPlayer "a" "Ann"] /\
  scores alone = [Some (Int 0); None; Some (Int 1)] /\
  stock alone = [mkStock (Int 0) (Int 1) (Int 0)] /\
  pointsToWin (settings alone) = Int 7 /\
  gameOver alone = false /\ message alone = MsgLeft /\
  accepts alone "a" 4 4 "P" 0 Paper /\
  exists room',
    placePiece alone "a" 4 4 "P" = Threw room' /\
    cellAt (board room') 4 4 = Piece 0 Paper /\
    stock room' = [mkStock (Int 0) (Int 0) (Int 0)] /\
    scores room' = [Some (Int 0); None; Some (Int 1)] /\
    gameOver room' = true /\
    message room' = MsgLeft /\
    evaluateWinners (scores room') = [].
Proof.
  split; [exact alone_reachable|].
  split_and!; try (vm_compute; reflexivity).
  { unfold accepts. split_and!; vm_compute; reflexivity. }
  destruct (placePiece alone "a" 4 4 "P") as [|flash room'| |room'] eqn:E;
    try (exfalso; vm_compute in E; discriminate E).
  exists room'. split; [reflexivity|].
  vm_compute in E. injection E as <-. split_and!; vm_compute; reflexivity.
Qed.
(** ** A stock that is not a number *)

Lemma nanGame_reachable : reachableBy anyEvent nanGame.
Proof.
  unfold nanGame, lobby2.
  apply (reachableBy_play _ _
           (NewGame (fun _ => 0%nat) "a" (JsString "abc") (JsInt 0) JsUndefined)); [|done].
  apply (reachableBy_play _ _ (JoinRoom "b" "Bob" false)); [|done].
  apply (reachableBy_play _ _ (JoinRoom "a" "Ann" false)); [|done].
  apply reach_new.
Qed.

(** C6.  A placement that takes no tile.  In the game started with the
    tile setting ['abc'] every stock count is [NaN].  Ann's first placement
    passes every check, the stock check too since [NaN <= 0] is false: the
    piece is on the board and the turn has passed, and her count of the
    placed symbol is [NaN] as before, not one less. *)
Theorem C6_stock_that_is_NaN_is_not_decreased :
  reachableBy anyEvent nanGame /\
  stockOr0 (stock nanGame) 0 Rock = NaN /\
  ~ rejects nanGame "a" 0 0 "R" /\
  exists flash room',
    placePiece nanGame "a" 0 0 "R" = Updated flash room' /\
    cellAt (board nanGame) 0 0 = Empty /\
    cellAt (board room') 0 0 = Piece 0 Rock /\
    turn nanGame = 0%nat /\ turn room' = 1%nat /\
    stockOr0 (stock room') 0 Rock = NaN /\
    stock room' = stock nanGame.
Proof.
  split; [exact nanGame_reachable|]. split; [vm_compute; reflexivity|]. split.
  { unfold rejects.
    intros [H|[H|[(p & H & Hne)|[H|[H|[H|(p & s & H1 & H2 & H3)]]]]]].
    - vm_compute in H. discriminate H.
    - vm_compute in H. discriminate H.
    - vm_compute in H. injection H as <-. apply Hne. vm_compute. reflexivity.
    - vm_compute in H. discriminate H.
    - vm_compute in H. discriminate H.
    - apply H. vm_compute. reflexivity.
    - vm_compute in H1. injection H1 as <-. vm_compute in H2. injection H2 as <-.
      vm_compute in H3. discriminate H3. }
  destruct (placePiece nanGame "a" 0 0 "R") as [|flash room'| |room'] eqn:E;
    try (exfalso; vm_compute in E; discriminate E).
  exists flash, room'. split; [reflexivity|].
  vm_compute in E. injection E as <- <-. split_and!; vm_compute; reflexivity.
Qed.

(** ** Leaving a room *)

(** What [leaveRoom] does for the socket of seat [pIdx]. *)
Lemma leaveRoom_seat room sock pIdx :
  findSocket sock (players room) = Some pIdx ->
  (length (players room) = 1%nat -> leaveRoom room sock = Deleted) /\
  (length (players room) <> 1%nat ->
   exists room',
     leaveRoom room sock = Updated (highlights room) room' /\
     players room' = delete pIdx (players room) /\
     scores room' = delete pIdx (scores room) /\
     stock room' = delete pIdx (stock room) /\
     board room' = board room /\
     started room' = false /\ gameOver room' = false /\
     message room' = MsgLeft /\
     turn room' =
       (if (length (delete pIdx (players room)) <=? turn room)%nat then 0%nat else turn room) /\
     settings room' = settings room /\ lastPlayed room' = lastPlayed room /\
     spectators room' =
       match findSocket sock (spectators room) with
       | Some sIdx => delete sIdx (spectators room)
       | None => spectators room
       end).
Proof.
  intros Hsock.
  assert (pIdx < length (players room))%nat as Hlt.
  { unfold findSocket in Hsock. apply fmap_Some in Hsock as ([i x] & Hfind & ->).
    apply list_find_Some in Hfind as (Hi & _). by apply lookup_lt_Some in Hi. }
  assert (length (delete pIdx (players room)) = (length (players room) - 1)%nat) as Hlen.
  { pose proof (length_delete (players room) pIdx) as H.
    rewrite H by by apply lookup_lt_is_Some_2. lia. }
  unfold leaveRoom.
  destruct (findSocket sock (spectators room)) as [sIdx|];
    cbn [players set_spectators]; rewrite Hsock;
    cbn [players scores stock turn set_players set_turn set_scores set_stock set_spectators];
    destruct (length (delete pIdx (players room)) <=? turn room)%nat eqn:Hturn;
    cbn [players scores stock turn set_players set_turn set_scores set_stock set_spectators];
    (split;
     [ intros H1; rewrite bool_decide_eq_true_2 by lia; reflexivity
     | intros Hn1; rewrite bool_decide_eq_false_2 by lia;
       eexists; split; [reflexivity|]; split_and!; reflexivity ]).
Qed.

(** A room whose game is not over takes every placement that passes the
    other checks. *)
Lemma placePiece_open room sock r c sym :
  gameOver room = false ->
  (placePiece room sock r c sym <> Ignored <->
   exists p s,
     findSocket sock (players room) = Some p /\ p = turn room /\
     symOfKey sym = Some s /\ inBounds r c = true /\
     cellAt (board room) r c = Empty /\
     num_leb (stockOr0 (stock room) p s) (Int 0) = false).
Proof.
  intros Hover. split.
  - intros (p & s & _ & H)%placePiece_not_Ignored. by exists p, s.
  - intros (p & s & H).
    assert (accepts room sock r c sym p s) as Hacc by (by split).
    rewrite (placePiece_accepts _ _ _ _ _ _ _ Hacc). apply conclude_not_Ignored.
Qed.

Lemma moveBlocker_open room sock f t :
  gameOver room = false ->
  (moveBlocker room sock (Some f) (Some t) <> Ignored <->
   findSocket sock (players room) = Some (turn room) /\
   inBounds f.1 f.2 = true /\ inBounds t.1 t.2 = true /\
   cellAt (board room) f.1 f.2 = Blocker /\ cellAt (board room) t.1 t.2 = Empty /\
   Z.max (Z.abs (f.1 - t.1)) (Z.abs (f.2 - t.2)) = 1).
Proof.
  intros Hover.
  destruct (moveBlocker_cases room sock (Some f) (Some t))
    as [(f' & t' & [= <-] & [= <-] & Hlegal & ->)|[Hno ->]].
  - split; [|done]. intros _. by destruct Hlegal as (_ & H).
  - split; [done|]. intros H. exfalso. apply Hno. exists f, t.
    split; [done|]. split; [done|]. by split.
Qed.

(** C10 (amended).  When the socket of seat [pIdx] leaves, the room is
    deleted if that was the only seat, whoever still watches; otherwise the
    entries at [pIdx] are spliced out of [players], [scores] and [stock], the
    board and its owner indices stay as they are, [started] and [gameOver]
    are reset to false, and the turn falls back to 0 when it no longer
    points at a seat.  That does not stop the game: in the room that is
    left a placement or a blocker move is accepted exactly when the socket
    holds the seat on turn and the cells, on the board as it was, and the
    stock that remains allow it, whether the game had been started or was
    over. *)
Theorem C10_leaving_frees_the_seat_and_play_goes_on room sock pIdx :
  findSocket sock (players room) = Some pIdx ->
  (length (players room) = 1%nat -> leaveRoom room sock = Deleted) /\
  (length (players room) <> 1%nat ->
   exists room',
     leaveRoom room sock = Updated (highlights room) room' /\
     players room' = delete pIdx (players room) /\
     scores room' = delete pIdx (scores room) /\
     stock room' = delete pIdx (stock room) /\
     board room' = board room /\
     started room' = false /\ gameOver room' = false /\
     message room' = MsgLeft /\
     turn room' =
       (if (length (delete pIdx (players room)) <=? turn room)%nat then 0%nat else turn room) /\
     settings room' = settings room /\ lastPlayed room' = lastPlayed room /\
     spectators room' =
       match findSocket sock (spectators room) with
       | Some sIdx => delete sIdx (spectators room)
       | None => spectators room
       end /\
     (forall sock' r c sym,
        placePiece room' sock' r c sym <> Ignored <->
        exists p s,
          findSocket sock' (delete pIdx (players room)) = Some p /\ p = turn room' /\
          symOfKey sym = Some s /\ inBounds r c = true /\
          cellAt (board room) r c = Empty /\
          num_leb (stockOr0 (delete pIdx (stock room)) p s) (Int 0) = false) /\
     (forall sock' f t,
        moveBlocker room' sock' (Some f) (Some t) <> Ignored <->
        findSocket sock' (delete pIdx (players room)) = Some (turn room') /\
        inBounds f.1 f.2 = true /\ inBounds t.1 t.2 = true /\
        cellAt (board room) f.1 f.2 = Blocker /\ cellAt (board room) t.1 t.2 = Empty /\
        Z.max (Z.abs (f.1 - t.1)) (Z.abs (f.2 - t.2)) = 1)).
Proof.
  intros Hsock. destruct (leaveRoom_seat room sock pIdx Hsock) as [Hone Hmore].
  split; [exact Hone|]. intros Hlen.
  destruct (Hmore Hlen)
    as (room' & Hleave & Hpl & Hsc & Hst & Hb & Hstart & Hover & Hmsg & Hturn & Hset & Hlp & Hsp).
  exists room'. split_and!; try assumption.
  - intros sock' r c sym. rewrite (placePiece_open room' sock' r c sym Hover).
    by rewrite Hpl, Hst, Hb.
  - intros sock' f t. rewrite (moveBlocker_open room' sock' f t Hover).
    by rewrite Hpl, Hb.
Qed.

(** The game of three goes on for Ann and Cat after Bob has left, on the
    board as it was; and the game that Ann had won takes her next piece
    once Bob has left. *)
Lemma C10_play_goes_on_after_leaving :
  (started trio = true /\ gameOver trio = false /\
   leaveRoom trio "b" = Updated [] trioLeft /\
   board trioLeft = board trio /\ started trioLeft = false /\
   placePiece trioLeft "a" 2 4 "S" = Updated [] trioOn1 /\
   placePiece trioOn1 "c" 3 1 "R" = Updated [] trioOn2 /\
   cellAt (board trioOn2) 2 4 = Piece 0 Scissors /\
   cellAt (board trioOn2) 3 1 = Piece 1 Rock /\
   cellAt (board trioOn2) 7 2 = Piece 1 Rock /\
   cellAt (board trio) 7 2 = Piece 1 Rock) /\
  (gameOver sprintWon = true /\
   placePiece sprintWon "a" 3 3 "P" = Ignored /\
   leaveRoom sprintWon "b" = Updated [] reopened /\
   gameOver reopened = false /\
   placePiece reopened "a" 3 3 "P" = Updated [] replayed /\
   cellAt (board replayed) 3 3 = Piece 0 Paper).
Proof. split; split_and!; vm_compute; reflexivity. Qed.

Lemma C10_witness :
  findSocket "b" (players trio) = Some 1%nat /\
  length (players trio) <> 1%nat /\
  exists room',
    leaveRoom trio "b" = Updated (highlights trio) room' /\
    players room' = delete 1%nat (players trio) /\
    board room' = board trio /\ started room' = false /\ gameOver room' = false /\
    placePiece room' "a" 2 4 "S" <> Ignored.
Proof.
  assert (findSocket "b" (players trio) = Some 1%nat) as Hsock by (vm_compute; reflexivity).
  assert (length (players trio) <> 1%nat) as Hlen by (vm_compute; lia).
  destruct (C10_leaving_frees_the_seat_and_play_goes_on trio "b" 1 Hsock) as (_ & Hstay).
  destruct (Hstay Hlen)
    as (room' & Hleave & Hpl & _ & _ & Hb & Hst & Hov & _ & Hturn & _ & _ & _ & Hplace & _).
  split; [exact Hsock|]. split; [exact Hlen|].
  exists room'. split_and!; try assumption.
  apply Hplace. exists 0%nat, Scissors. rewrite Hturn.
  split_and!; vm_compute; reflexivity.
Defined.
